(** * SmartLocker: enrolment, training and recognition pipeline

    A shallow embedding of [storage.py] (the [LocalStorage] and
    [AzureBlobStorage] back ends) and of [face_service.py] (image enrolment,
    per-user training, the in-memory model cache and the recognition
    decision), followed by the properties of the specification that concern
    them.

    Python exceptions are results of a state-and-exception monad in which
    the state survives a raise, as the Python heap and the disk do.  The
    OpenCV calls are an interface ([Vision]); the storage back end is a
    record of methods ([StorageBackend]), as the three Python classes share
    their method names.  [S3Storage] has the shape of [AzureBlobStorage]
    and is not embedded; what is proved of the service holds for every
    [StorageBackend].  Locks are left out: the model is sequential. *)

From Stdlib Require Import QArith Ascii.
From stdpp Require Import gmap strings list fin_maps pretty sorting.

Close Scope Q_scope.
Open Scope string_scope.
Open Scope list_scope.
Open Scope nat_scope.

(** ** Python values *)

Abbreviation bytes := (list Byte.byte).

(** A Python [float]: the comparisons of [recognize_image_bytes] are the
    only operations used, so a finite value is a rational. *)
Inductive pyfloat :=
  | FNaN
  | FNegInf
  | FFin (q : Q)
  | FInf.

Definition Qltb (a b : Q) : bool :=
  (Qnum a * Zpos (Qden b) <? Qnum b * Zpos (Qden a))%Z.

(** [a < b] on floats; every comparison with NaN is false. *)
Definition float_lt (a b : pyfloat) : bool :=
  match a, b with
  | FNaN, _ | _, FNaN => false
  | FNegInf, FNegInf => false
  | FNegInf, _ => true
  | _, FNegInf => false
  | FFin x, FFin y => Qltb x y
  | FFin _, FInf => true
  | FInf, _ => false
  end.

(** The exceptions that the modelled calls raise. *)
Inductive exn :=
  | FileNotFoundError
  | NotADirectoryError
  | IsADirectoryError
  | FileExistsError
  | AssertionError
  | ValueError
  | ResourceNotFoundError
  | TransientIOError
  | CvError.

Inductive result (A : Type) :=
  | Ok (a : A)
  | Raise (e : exn).
Arguments Ok {A} a.
Arguments Raise {A} e.

(** ** State and exception monad *)

Definition M (S A : Type) : Type := S → result A * S.

Definition ret {S A} (a : A) : M S A := λ s, (Ok a, s).
Definition raise {S A} (e : exn) : M S A := λ s, (Raise e, s).
Definition bind {S A B} (m : M S A) (k : A → M S B) : M S B :=
  λ s, match m s with
       | (Ok a, s') => k a s'
       | (Raise e, s') => (Raise e, s')
       end.
Definition get {S} : M S S := λ s, (Ok s, s).
Definition modify {S} (f : S → S) : M S unit := λ s, (Ok tt, f s).

(** [try: m except Exception: h] *)
Definition try_except {S A} (m : M S A) (h : exn → M S A) : M S A :=
  λ s, match m s with
       | (Ok a, s') => (Ok a, s')
       | (Raise e, s') => h e s'
       end.

Declare Scope py_scope.
Delimit Scope py_scope with py.
Notation "'let*' x ':=' m 'in' k" := (bind m (λ x, k))
  (at level 10, x pattern, m at level 100, k at level 200) : py_scope.
Open Scope py_scope.

(** [for x in xs: acc = body(x, acc)] *)
Fixpoint for_each {S A X} (xs : list X) (acc : A) (body : X → A → M S A)
  : M S A :=
  match xs with
  | [] => ret acc
  | x :: xs' => let* acc' := body x acc in for_each xs' acc' body
  end.

(** ** Python [str] methods *)

Module PyStr.

Fixpoint startswith (s pre : string) : bool :=
  match pre, s with
  | "", _ => true
  | String a pre', String c s' => bool_decide (c = a) && startswith s' pre'
  | String _ _, "" => false
  end.

Definition endswith (s suf : string) : bool :=
  startswith (String.rev s) (String.rev suf).

Fixpoint drop (n : nat) (s : string) : string :=
  match n, s with
  | 0, _ => s
  | S n', String _ s' => drop n' s'
  | S _, "" => ""
  end.

(** [s.split(sep)] for a one-character separator. *)
Fixpoint split_go (sep : ascii) (cur : string) (s : string) : list string :=
  match s with
  | "" => [String.rev cur]
  | String c s' =>
      if decide (c = sep) then String.rev cur :: split_go sep "" s'
      else split_go sep (String c cur) s'
  end.
Definition split (sep : ascii) (s : string) : list string :=
  split_go sep "" s.

(** [s.split(sep, 1)]: [None] when [sep] does not occur. *)
Fixpoint split1_go (sep : ascii) (cur : string) (s : string)
  : option (string * string) :=
  match s with
  | "" => None
  | String c s' =>
      if decide (c = sep) then Some (String.rev cur, s')
      else split1_go sep (String c cur) s'
  end.
Definition split1 (sep : ascii) (s : string) : option (string * string) :=
  split1_go sep "" s.

Fixpoint lstrip (ch : ascii) (s : string) : string :=
  match s with
  | String c s' => if decide (c = ch) then lstrip ch s' else s
  | "" => ""
  end.
(** [s.strip(ch)] *)
Definition strip (ch : ascii) (s : string) : string :=
  String.rev (lstrip ch (String.rev (lstrip ch s))).

Definition lower_char (c : ascii) : ascii :=
  let n := nat_of_ascii c in
  if (65 <=? n) && (n <=? 90) then ascii_of_nat (n + 32) else c.
Fixpoint lower (s : string) : string :=
  match s with
  | "" => ""
  | String c s' => String (lower_char c) (lower s')
  end.

(** [s.rfind(".")] *)
Fixpoint rfind_dot (s : string) : option nat :=
  match s with
  | "" => None
  | String c s' =>
      match rfind_dot s' with
      | Some i => Some (S i)
      | None => if decide (c = "."%char) then Some 0 else None
      end
  end.

(** [ch in s] *)
Fixpoint contains (ch : ascii) (s : string) : bool :=
  match s with
  | "" => false
  | String c s' => bool_decide (c = ch) || contains ch s'
  end.

(** ["/".join(l)] *)
Definition join (sep : string) (l : list string) : string :=
  String.concat sep l.

End PyStr.

(** ** [pathlib.Path]

    A path is the list of its components below the root; all paths of the
    model are absolute.  [p / s] parses [s] as [pathlib] does: empty and
    ["."] components are dropped, [".."] is kept, and an absolute [s]
    replaces [p]. *)

Abbreviation Path := (list string).

Definition path_parts (s : string) : list string :=
  filter (λ c, c ≠ "" ∧ c ≠ ".") (PyStr.split "/" s).

Definition path_div (p : Path) (s : string) : Path :=
  if PyStr.startswith s "/" then path_parts s else p ++ path_parts s.

(** [str(p)] *)
Definition path_str (p : Path) : string := "/" +:+ PyStr.join "/" p.

(** [p.name] *)
Definition path_name (p : Path) : string := List.last p "".

(** [p.suffix] of a file name: the part from the last dot on, unless the
    dot is the first or the last character. *)
Definition name_suffix (name : string) : string :=
  match PyStr.rfind_dot name with
  | Some i =>
      if (0 <? i) && (i <? String.length name - 1) then PyStr.drop i name
      else ""
  | None => ""
  end.
Definition path_suffix (p : Path) : string := name_suffix (path_name p).

(** A path given to the operating system as a string. *)
Definition os_path (s : string) : Path := path_div [] s.

(** What the kernel makes of [".."] components (no symbolic links). *)
Definition resolve (p : Path) : Path :=
  fold_left (λ acc c, if decide (c = "..") then removelast acc else acc ++ [c])
            p [].

(** ** The machine

    The local disk (which also holds the temporary directory), the blob
    account reached over the network, and what the environment decides:
    whether the next remote call goes through, and the next random model
    identifier. *)

Inductive fnode :=
  | FFile (content : bytes)
  | FDir.

Record World := mkWorld {
  disk : gmap Path fnode;
  tmp_seq : nat;
  cloud : gmap (string * string) bytes;
  net : list bool;
  rng : list string;
}.

Definition set_disk (d : gmap Path fnode) (w : World) : World :=
  mkWorld d (tmp_seq w) (cloud w) (net w) (rng w).
Definition set_tmp_seq (n : nat) (w : World) : World :=
  mkWorld (disk w) n (cloud w) (net w) (rng w).
Definition set_cloud (c : gmap (string * string) bytes) (w : World) : World :=
  mkWorld (disk w) (tmp_seq w) c (net w) (rng w).
Definition set_net (n : list bool) (w : World) : World :=
  mkWorld (disk w) (tmp_seq w) (cloud w) n (rng w).
Definition set_rng (r : list string) (w : World) : World :=
  mkWorld (disk w) (tmp_seq w) (cloud w) (net w) r.

Module OS.

(** The node at a path; the root is a directory. *)
Definition node_at (d : gmap Path fnode) (p : Path) : option fnode :=
  match resolve p with
  | [] => Some FDir
  | q => d !! q
  end.

(** [p.exists()] and [p.is_dir()] *)
Definition path_exists (p : Path) : M World bool :=
  λ w, (Ok (bool_decide (is_Some (node_at (disk w) p))), w).
Definition is_dir_b (d : gmap Path fnode) (p : Path) : bool :=
  match node_at d p with
  | Some FDir => true
  | _ => false
  end.

(** [p.mkdir(parents=True, exist_ok=True)]: walks down from the root and
    creates what is missing; nothing is created when it raises. *)
Fixpoint mkdir_go (d : gmap Path fnode) (cur : Path) (rest : list string)
  : result (gmap Path fnode) :=
  match rest with
  | [] => Ok d
  | c :: rest' =>
      let cur' := cur ++ [c] in
      match d !! cur' with
      | Some FDir => mkdir_go d cur' rest'
      | Some (FFile _) =>
          Raise (match rest' with
                 | [] => FileExistsError
                 | _ => NotADirectoryError
                 end)
      | None => mkdir_go (<[cur' := FDir]> d) cur' rest'
      end
  end.
Definition mkdir_parents (p : Path) : M World unit :=
  λ w, match mkdir_go (disk w) [] (resolve p) with
       | Ok d => (Ok tt, set_disk d w)
       | Raise e => (Raise e, w)
       end.

(** [p.write_bytes(content)] *)
Definition write_bytes (p : Path) (content : bytes) : M World unit :=
  λ w, let q := resolve p in
       match node_at (disk w) (removelast q), node_at (disk w) q with
       | Some FDir, Some FDir => (Raise IsADirectoryError, w)
       | Some FDir, _ => (Ok tt, set_disk (<[q := FFile content]> (disk w)) w)
       | Some (FFile _), _ => (Raise NotADirectoryError, w)
       | None, _ => (Raise FileNotFoundError, w)
       end.

(** [open(p, "rb").read()] *)
Definition read_bytes (p : Path) : M World bytes :=
  λ w, match node_at (disk w) p with
       | Some (FFile c) => (Ok c, w)
       | Some FDir => (Raise IsADirectoryError, w)
       | None => (Raise FileNotFoundError, w)
       end.

(** The names in a directory.  The order in which the kernel lists them
    is not specified; the model lists them in the order of the map. *)
Definition child_name (dir : Path) (k : Path) : option string :=
  match reverse k with
  | n :: _ => if decide (k = dir ++ [n]) then Some n else None
  | [] => None
  end.
Definition children (d : gmap Path fnode) (dir : Path) : list string :=
  omap (λ kv, child_name dir kv.1) (map_to_list d).

(** [p.iterdir()]: the paths [p / name]. *)
Definition iterdir (p : Path) : M World (list Path) :=
  λ w, match node_at (disk w) p with
       | Some FDir =>
           (Ok ((λ n, p ++ [n]) <$> children (disk w) (resolve p)), w)
       | Some (FFile _) => (Raise NotADirectoryError, w)
       | None => (Raise FileNotFoundError, w)
       end.

(** [shutil.rmtree(p)] *)
Definition rmtree (p : Path) : M World unit :=
  λ w, let q := resolve p in
       match node_at (disk w) p with
       | Some FDir =>
           (Ok tt, set_disk (filter (λ kv, ¬ q `prefix_of` kv.1) (disk w)) w)
       | Some (FFile _) => (Raise NotADirectoryError, w)
       | None => (Raise FileNotFoundError, w)
       end.

(** [os.remove(path)] and [os.unlink(path)], on a path string. *)
Definition remove (path : string) : M World unit :=
  λ w, let q := resolve (os_path path) in
       match node_at (disk w) q with
       | Some (FFile _) => (Ok tt, set_disk (delete q (disk w)) w)
       | Some FDir => (Raise IsADirectoryError, w)
       | None => (Raise FileNotFoundError, w)
       end.

(** [tempfile.NamedTemporaryFile(delete=False, suffix=suffix)] followed by
    [close()]: a new empty file in the temporary directory.  The name is
    numbered by [tmp_seq]; no name is ever handed out twice. *)
Definition tmpdir : Path := ["tmp"].
Definition tmp_name (n : nat) (suffix : string) : string :=
  "tmp" +:+ pretty n +:+ suffix.
Definition NamedTemporaryFile (suffix : string) : M World string :=
  λ w, let q := tmpdir ++ [tmp_name (tmp_seq w) suffix] in
       let w' := set_tmp_seq (S (tmp_seq w)) w in
       match node_at (disk w) tmpdir, disk w !! q with
       | Some FDir, None =>
           (Ok (path_str q), set_disk (<[q := FFile []]> (disk w')) w')
       | Some FDir, Some _ => (Raise FileExistsError, w')
       | _, _ => (Raise FileNotFoundError, w')
       end.

(** The temporary files on the disk. *)
Definition temp_files (w : World) : list Path :=
  filter (λ p, tmpdir `prefix_of` p ∧ p ≠ tmpdir) (map_to_list (disk w)).*1.

(** One call to the remote service: it fails when the environment says
    so, and the service is not touched then. *)
Definition remote_call {A} (op : M World A) : M World A :=
  λ w, match net w with
       | false :: rest => (Raise TransientIOError, set_net rest w)
       | true :: rest => op (set_net rest w)
       | [] => op w
       end.

(** [''.join(random.choices(string.ascii_letters + string.digits, k=12))] *)
Definition random_id : M World string :=
  λ w, match rng w with
       | r :: rest => (Ok r, set_rng rest w)
       | [] => (Ok "000000000000", w)
       end.

End OS.

(** ** storage.py *)

Module Storage.

(** The methods that the three back-end classes have in common. *)
Record StorageBackend := mkStorage {
  save_image : string → string → bytes → M World string;
  list_users : M World (list string);
  list_user_images : string → M World (list string);
  save_model : string → string → bytes → M World string;
  list_models : M World (list (string * string));
  download_to_temp : string → M World string;
  delete_user : string → M World bool;
}.

(** [sorted(...)] on strings. *)
Definition sorted (l : list string) : list string := merge_sort String.le l.

(** [sorted(d.iterdir())]: the paths of one directory compare as their
    last components do. *)
Definition sorted_paths (l : list Path) : list Path :=
  match l with
  | [] => []
  | p :: _ => (λ n, removelast p ++ [n]) <$> sorted (path_name <$> l)
  end.

Definition image_suffix (sfx : string) : bool :=
  bool_decide (sfx ∈ [".jpg"; ".jpeg"; ".png"]).

Module LocalStorage.
Section with_base.
(** [self.base]; [__init__] has created the directory. *)
Variable base : Path.

Definition save_image (user filename : string) (content : bytes)
  : M World string :=
  let user_dir := path_div base user in
  let* _ := OS.mkdir_parents user_dir in
  let path := path_div user_dir filename in
  let* _ := OS.write_bytes path content in
  ret (path_str path).

Definition list_users : M World (list string) :=
  let* ps := OS.iterdir base in
  let* w := get in
  ret (path_name <$> filter (λ p, OS.is_dir_b (disk w) p) ps).

Definition list_user_images (user : string) : M World (list string) :=
  let user_dir := path_div base user in
  let* ex := OS.path_exists user_dir in
  if negb ex then ret []
  else
    let* ps := OS.iterdir user_dir in
    ret (path_str <$>
         filter (λ p, image_suffix (PyStr.lower (path_suffix p)))
                (sorted_paths ps)).

Definition save_model (user filename : string) (content : bytes)
  : M World string :=
  let trainer_dir := path_div (path_div base user) "trainer" in
  let* _ := OS.mkdir_parents trainer_dir in
  let path := path_div trainer_dir filename in
  let* _ := OS.write_bytes path content in
  ret (path_str path).

Definition list_models : M World (list (string * string)) :=
  let* user_dirs := OS.iterdir base in
  for_each (sorted_paths user_dirs) []
    (λ user_dir out,
       let trainer_dir := path_div user_dir "trainer" in
       let* ex := OS.path_exists trainer_dir in
       if negb ex then ret out
       else
         let* fs := OS.iterdir trainer_dir in
         ret (out ++
              ((λ f, (path_name user_dir, path_str f)) <$>
               filter (λ f, bool_decide
                              (PyStr.lower (path_suffix f) = ".yml")) fs))).

(** The path is a local file path already. *)
Definition download_to_temp (path : string) : M World string := ret path.

Definition delete_user (user : string) : M World bool :=
  let user_dir := path_div base user in
  let* ex := OS.path_exists user_dir in
  if negb ex then ret false
  else
    let* _ := OS.rmtree user_dir in
    ret true.

Definition backend : StorageBackend :=
  mkStorage save_image list_users list_user_images save_model list_models
            download_to_temp delete_user.
End with_base.
End LocalStorage.

Module AzureBlobStorage.

(** The calls of the blob client; each is one remote call. *)
Definition blob_names (w : World) (container : string) : list string :=
  omap (λ kv, if decide (kv.1.1 = container) then Some kv.1.2 else None)
       (map_to_list (cloud w)).

(** [list_blobs(name_starts_with=prefix)], in the order of the names. *)
Definition list_blobs (container prefix : string) : M World (list string) :=
  OS.remote_call
    (λ w, (Ok (sorted (filter (λ n, PyStr.startswith n prefix)
                              (blob_names w container))), w)).

(** [upload_blob(blob, content, overwrite=True)] *)
Definition upload_blob (container blob : string) (content : bytes)
  : M World unit :=
  OS.remote_call
    (λ w, (Ok tt, set_cloud (<[(container, blob) := content]> (cloud w)) w)).

(** [download_blob().readall()] *)
Definition download_blob (container blob : string) : M World bytes :=
  OS.remote_call
    (λ w, match cloud w !! (container, blob) with
          | Some c => (Ok c, w)
          | None => (Raise ResourceNotFoundError, w)
          end).

Definition delete_blob (container blob : string) : M World unit :=
  OS.remote_call
    (λ w, match cloud w !! (container, blob) with
          | Some _ => (Ok tt, set_cloud (delete (container, blob) (cloud w)) w)
          | None => (Raise ResourceNotFoundError, w)
          end).

Section with_container.
(** [self.container_name] and [self.prefix] (already stripped of ["/"]). *)
Variables (container_name prefix : string).

Definition _blob_name (parts : list string) : string :=
  let parts := PyStr.strip "/" <$> filter (λ p, p ≠ "") parts in
  if decide (prefix ≠ "") then PyStr.join "/" (prefix :: parts)
  else PyStr.join "/" parts.

Definition uri (blob : string) : string :=
  "azure://" +:+ container_name +:+ "/" +:+ blob.

Definition save_image (user filename : string) (content : bytes)
  : M World string :=
  let blob := _blob_name [user; filename] in
  let* _ := upload_blob container_name blob content in
  ret (uri blob).

Definition list_prefix : string :=
  if decide (prefix ≠ "") then prefix +:+ "/" else "".

Definition list_users : M World (list string) :=
  let* blobs := list_blobs container_name list_prefix in
  let first_part b :=
    let name := PyStr.drop (String.length list_prefix) b in
    hd "" (PyStr.split "/" name) in
  ret (sorted (remove_dups (first_part <$> blobs))).

Definition list_user_images (user : string) : M World (list string) :=
  let prefix := _blob_name [user] +:+ "/" in
  let* blobs := list_blobs container_name prefix in
  ret (sorted (uri <$>
         filter (λ b, PyStr.endswith b ".jpg" || PyStr.endswith b ".jpeg"
                      || PyStr.endswith b ".png") blobs)).

Definition save_model (user filename : string) (content : bytes)
  : M World string :=
  let blob := _blob_name [user; "trainer"; filename] in
  let* _ := upload_blob container_name blob content in
  ret (uri blob).

(** The user of a model blob: the path segment before ["trainer"]. *)
Definition model_user (blob : string) : string :=
  let parts := reverse (PyStr.split "/" blob) in
  match parts with
  | _ :: p2 :: p3 :: _ => if decide (p2 = "trainer") then p3 else p2
  | _ :: p2 :: _ => p2
  | _ => ""
  end.

Definition list_models : M World (list (string * string)) :=
  let* blobs := list_blobs container_name list_prefix in
  ret ((λ b, (model_user b, uri b)) <$>
       filter (λ b, PyStr.endswith b ".yml") blobs).

Definition download_to_temp (path : string) : M World string :=
  if negb (PyStr.startswith path "azure://") then raise AssertionError
  else
    let without := PyStr.drop (String.length "azure://") path in
    match PyStr.split1 "/" without with
    | None => raise ValueError
    | Some (container, blobname) =>
        let* tmp :=
          OS.NamedTemporaryFile (path_suffix (path_parts blobname)) in
        let* content := download_blob container blobname in
        let* _ := OS.write_bytes (os_path tmp) content in
        ret tmp
    end.

Definition delete_user (user : string) : M World bool :=
  let prefix := _blob_name [user] +:+ "/" in
  let* blobs := list_blobs container_name prefix in
  match blobs with
  | [] => ret false
  | _ =>
      let* _ := for_each blobs tt
                  (λ b _, delete_blob container_name b) in
      ret true
  end.

Definition backend : StorageBackend :=
  mkStorage save_image list_users list_user_images save_model list_models
            download_to_temp delete_user.
End with_container.
End AzureBlobStorage.

End Storage.

(** ** The OpenCV calls of face_service.py

    Face detection and the LBPH classifier are an interface.  Reading or
    decoding an image gives [None] where OpenCV returns [None]; a
    classifier call gives [None] where OpenCV raises.  [cv2.imdecode]
    raises on some buffers, the empty one among them, which
    [recognize_image_bytes] does not catch: it gives a [result]. *)

Record rect := mkRect { rect_x : Z; rect_y : Z; rect_w : Z; rect_h : Z }.

Class Vision := {
  image : Type;
  recognizer : Type;
  (** [cv2.imread(path, cv2.IMREAD_GRAYSCALE)], on the content of the file *)
  imread_grayscale : bytes → option image;
  (** [cv2.imdecode(np.frombuffer(b, np.uint8), cv2.IMREAD_COLOR)] *)
  imdecode_color : bytes → result (option image);
  (** [cv2.error] on an empty buffer *)
  imdecode_color_empty : imdecode_color [] = Raise CvError;
  (** [cv2.cvtColor(img, cv2.COLOR_BGR2GRAY)] *)
  cvtColor_gray : image → image;
  (** [face_cascade.detectMultiScale(gray, 1.2, 5)] *)
  detectMultiScale : image → list rect;
  (** [gray[y:y + h, x:x + w]] *)
  crop : image → rect → image;
  (** [cv2.resize(img, IMG_SIZE)] *)
  resize : image → image;
  (** [LBPHFaceRecognizer_create()] then [train(faces, np.array(labels))] *)
  LBPH_train : list image → list nat → recognizer;
  (** the bytes that [recognizer.save] writes *)
  LBPH_save : recognizer → bytes;
  (** [LBPHFaceRecognizer_create()] then [read], on the content of the file *)
  LBPH_read : bytes → option recognizer;
  (** [recognizer.predict(sample)]: the predicted label and the confidence *)
  LBPH_predict : recognizer → image → option (Z * pyfloat);
}.

(** The module-level configuration of face_service.py. *)
Class Settings := {
  (** [storage = get_storage()] *)
  storage : Storage.StorageBackend;
  (** [float(os.getenv("CONFIDENCE_THRESHOLD", "130.0"))] *)
  CONFIDENCE_THRESHOLD : pyfloat;
}.

Definition default_threshold : pyfloat := FFin (130 # 1).

(** The settings of a deployment on the local back end, and of one on the
    blob back end. *)
Definition local_settings (base : Path) (threshold : pyfloat) : Settings :=
  {| storage := Storage.LocalStorage.backend base;
     CONFIDENCE_THRESHOLD := threshold |}.
Definition azure_settings (container prefix : string) (threshold : pyfloat)
  : Settings :=
  {| storage := Storage.AzureBlobStorage.backend container prefix;
     CONFIDENCE_THRESHOLD := threshold |}.

(** ** face_service.py *)

Module face_service.
Section service.
Context `{Vision} `{Settings}.

(** The calls made on the storage back end, for call counting. *)
Inductive io_event :=
  | IoSaveImage (user filename : string)
  | IoListUsers
  | IoListUserImages (user : string)
  | IoSaveModel (user filename : string)
  | IoListModels
  | IoDownload (ref : string)
  | IoDeleteUser (user : string).

(** The machine and the module globals. *)
Record State := mkState {
  world : World;
  _cached_recognizers : list (recognizer * nat);
  _cached_label_dict : gmap nat string;
  _cache_loaded : bool;
  io_log : list io_event;
}.

Definition set_world (w : World) (s : State) : State :=
  mkState w (_cached_recognizers s) (_cached_label_dict s)
          (_cache_loaded s) (io_log s).
Definition set_cache_loaded (b : bool) (s : State) : State :=
  mkState (world s) (_cached_recognizers s) (_cached_label_dict s)
          b (io_log s).
Definition set_cache (rs : list (recognizer * nat)) (d : gmap nat string)
    (s : State) : State :=
  mkState (world s) rs d true (io_log s).
Definition log_io (ev : io_event) (s : State) : State :=
  mkState (world s) (_cached_recognizers s) (_cached_label_dict s)
          (_cache_loaded s) (io_log s ++ [ev]).

(** An operation of the machine, run from the service. *)
Definition in_world {A} (m : M World A) : M State A :=
  λ s, let '(r, w) := m (world s) in (r, set_world w s).

(** A method call on [storage]. *)
Definition storage_call {A} (ev : io_event) (m : M World A) : M State A :=
  let* _ := modify (log_io ev) in
  in_world m.

(** [cv2.imread(path, cv2.IMREAD_GRAYSCALE)]: [None] for a file that is
    missing or cannot be decoded. *)
Definition cv2_imread (path : string) : M World (option image) :=
  λ w, match OS.node_at (disk w) (os_path path) with
       | Some (FFile c) => (Ok (imread_grayscale c), w)
       | _ => (Ok None, w)
       end.

(** [recognizer.read(path)] on a new recognizer. *)
Definition recognizer_read (path : string) : M World recognizer :=
  λ w, match OS.node_at (disk w) (os_path path) with
       | Some (FFile c) =>
           match LBPH_read c with
           | Some r => (Ok r, w)
           | None => (Raise CvError, w)
           end
       | _ => (Raise CvError, w)
       end.

(** [recognizer.save(path)] *)
Definition recognizer_save (r : recognizer) (path : string) : M World unit :=
  OS.write_bytes (os_path path) (LBPH_save r).

Definition _next_image_filename (existing_count : nat) : string :=
  "img" +:+ pretty (existing_count + 1) +:+ ".jpg".

Definition save_user_image (user : string) (file_bytes : bytes)
    (filename : option string) : M State string :=
  let* imgs := storage_call (IoListUserImages user)
                 (Storage.list_user_images storage user) in
  let count := length imgs in
  let filename := match filename with
                  | None => _next_image_filename count
                  | Some f => f
                  end in
  let* path := storage_call (IoSaveImage user filename)
                 (Storage.save_image storage user filename file_bytes) in
  let* _ := modify (set_cache_loaded false) in
  ret path.

Definition list_users : M State (list string) :=
  storage_call IoListUsers (Storage.list_users storage).

Definition delete_user (user : string) : M State bool :=
  let* ok := storage_call (IoDeleteUser user)
               (Storage.delete_user storage user) in
  let* _ := modify (set_cache_loaded false) in
  ret ok.

(** The body of [for user, model_ref in models].  The lists are extended
    only after every call of the [try] block that can raise, so a raise
    leaves them as they were. *)
Definition load_model (entry : string * string)
    (acc : list (recognizer * nat) * gmap nat string * nat)
  : M State (list (recognizer * nat) * gmap nat string * nat) :=
  let '(user, model_ref) := entry in
  let '(recognizers, label_dict, label_id) := acc in
  try_except
    (let* local_model := storage_call (IoDownload model_ref)
                           (Storage.download_to_temp storage model_ref) in
     let* recognizer := in_world (recognizer_read local_model) in
     let recognizers := recognizers ++ [(recognizer, label_id)] in
     let label_dict := <[label_id := user]> label_dict in
     let label_id := label_id + 1 in
     let* _ := try_except (in_world (OS.remove local_model))
                          (λ _, ret tt) in
     ret (recognizers, label_dict, label_id))
    (λ _, ret (recognizers, label_dict, label_id)).

Definition load_models_into_cache (force : bool) : M State unit :=
  let* s := get in
  if _cache_loaded s && negb force then ret tt
  else
    let* models := storage_call IoListModels
                     (Storage.list_models storage) in
    let* (recognizers, label_dict, _) :=
      for_each models ([], ∅, 0) load_model in
    modify (set_cache recognizers label_dict).

Definition force_reload_cache : M State unit :=
  load_models_into_cache true.

(** The body of [for img_ref in images]. *)
Definition read_face (label_id : nat) (img_ref : string)
    (acc : list image * list nat) : M State (list image * list nat) :=
  let '(faces, labels) := acc in
  let* local_path := storage_call (IoDownload img_ref)
                       (Storage.download_to_temp storage img_ref) in
  let* img := in_world (cv2_imread local_path) in
  let* _ := try_except (in_world (OS.remove local_path)) (λ _, ret tt) in
  match img with
  | None => ret (faces, labels)
  | Some img =>
      let img_resized := resize img in
      ret (faces ++ [img_resized], labels ++ [label_id])
  end.

(** The body of [for user in users]. *)
Definition train_user (user : string) (acc : gmap string string * nat)
  : M State (gmap string string * nat) :=
  let '(results, label_id) := acc in
  let* images := storage_call (IoListUserImages user)
                   (Storage.list_user_images storage user) in
  match images with
  | [] => ret (<[user := "no-images"]> results, label_id)
  | _ =>
      let* (faces, labels) :=
        for_each images ([], []) (read_face label_id) in
      match faces with
      | [] => ret (<[user := "no-valid-images"]> results, label_id)
      | _ =>
          let recognizer := LBPH_train faces labels in
          let* tmpfile := in_world (OS.NamedTemporaryFile ".yml") in
          let* _ := in_world (recognizer_save recognizer tmpfile) in
          let* model_bytes := in_world (OS.read_bytes (os_path tmpfile)) in
          let* _ := in_world (OS.remove tmpfile) in
          let* model_id := in_world OS.random_id in
          let model_filename :=
            user +:+ "_trainer_" +:+ model_id +:+ ".yml" in
          let* path := storage_call (IoSaveModel user model_filename)
                         (Storage.save_model storage user model_filename
                                             model_bytes) in
          ret (<[user := path]> results, label_id + 1)
      end
  end.

Definition train_all : M State (gmap string string) :=
  let* users := list_users in
  match users with
  | [] => ret ∅
  | _ =>
      let* (results, _) := for_each users (∅, 0) train_user in
      let* _ := load_models_into_cache true in
      ret results
  end.

(** The dictionary returned by [recognize_image_bytes]; an absent key is
    [None]. *)
Record outcome := mkOutcome {
  found : bool;
  user : option string;
  confidence : option pyfloat;
  reason : option string;
  error : option string;
}.

(** [best = {"label": ..., "confidence": ...}] *)
Record best_t := mkBest {
  best_label : option nat;
  best_confidence : pyfloat;
}.

(** The body of [for recognizer, label in recognizers]. *)
Definition score_one (roi_resized : image) (best : best_t)
    (entry : recognizer * nat) : best_t :=
  let '(recognizer, label) := entry in
  match LBPH_predict recognizer roi_resized with
  | None => best
  | Some (pred_label, confidence) =>
      if float_lt confidence (best_confidence best)
      then mkBest (Some label) confidence
      else best
  end.

(** The two nested loops over the faces and the cached recognizers. *)
Definition best_match (gray : image) (faces : list rect)
    (recognizers : list (recognizer * nat)) : best_t :=
  fold_left
    (λ best face,
       let roi_gray := crop gray face in
       let roi_resized := resize roi_gray in
       fold_left (score_one roi_resized) recognizers best)
    faces (mkBest None FInf).

Definition recognize_image_bytes (img_bytes : bytes) : M State outcome :=
  let* _ := load_models_into_cache false in
  match imdecode_color img_bytes with
  | Raise e => raise e
  | Ok None => ret (mkOutcome false None None None (Some "invalid-image"))
  | Ok (Some img) =>
      let gray := cvtColor_gray img in
      let faces := detectMultiScale gray in
      match faces with
      | [] => ret (mkOutcome false None None (Some "no-face-detected") None)
      | _ =>
          let* s := get in
          let recognizers := _cached_recognizers s in
          let label_dict := _cached_label_dict s in
          match recognizers with
          | [] => ret (mkOutcome false None None (Some "no-models") None)
          | _ =>
              let best := best_match gray faces recognizers in
              match best_label best with
              | None =>
                  ret (mkOutcome false None None (Some "no-prediction") None)
              | Some label =>
                  if float_lt (best_confidence best) CONFIDENCE_THRESHOLD
                  then
                    let user := default "unknown" (label_dict !! label) in
                    ret (mkOutcome true (Some user)
                                   (Some (best_confidence best)) None None)
                  else
                    ret (mkOutcome false None (Some (best_confidence best))
                                   (Some "low-confidence") None)
              end
          end
      end
  end.

Definition list_models : M State (list (string * string)) :=
  storage_call IoListModels (Storage.list_models storage).

(** The state of a process that has just imported the module. *)
Definition initial_state (w : World) : State := mkState w [] ∅ false [].

End service.
End face_service.

(** ** app/main.py

    The request handlers.  A handler ends with a response, with an
    [HTTPException] that it raised itself, or with an exception that leaves
    it: one of the service, or the [IndexError] of a subscript. *)

Module main.
Section handlers.
Context `{Vision} `{Settings}.
Import face_service.

(** [ADMIN_TOKEN = os.getenv("ADMIN_TOKEN", ...)] *)
Variable ADMIN_TOKEN : string.

(** The [detail] of an [HTTPException]: a text, or [str(e)]. *)
Inductive detail :=
  | DetailText (text : string)
  | DetailStr (e : exn).

(** The JSON bodies. *)
Inductive body :=
  | BodyHealth
  | BodySaved (saved : string)
  | BodyTrained (results : gmap string string)
  | BodyOutcome (res : outcome)
  | BodyUsers (users : list string)
  | BodyDeleted (deleted : string)
  | BodyModels (models : list (string * string)).

Inductive reply :=
  | Respond (status_code : nat) (content : body)
  | HTTPException (status_code : nat) (d : detail)
  | Escapes (e : exn)
  | EscapesIndexError.

(** [not authorization.lower().startswith("bearer ")
     or authorization.split(" ", 1)[1] != ADMIN_TOKEN];
    [None] where the subscript raises [IndexError]. *)
Definition bad_bearer (authorization : string) : option bool :=
  if negb (PyStr.startswith (PyStr.lower authorization) "bearer ")
  then Some true
  else
    match PyStr.split1 " " authorization with
    | Some (_, token) => Some (negb (bool_decide (token = ADMIN_TOKEN)))
    | None => None
    end.

(** [if authorization: if <bad bearer>: raise 401], of [api_add_user] and
    [api_delete_user]: a missing or empty header is not checked. *)
Definition rejects_if_present (authorization : option string) : option bool :=
  match authorization with
  | None | Some "" => Some false
  | Some a => bad_bearer a
  end.

(** [if not authorization or <bad bearer>: raise 401], of [api_train]. *)
Definition rejects_unless_bearer (authorization : option string)
  : option bool :=
  match authorization with
  | None | Some "" => Some true
  | Some a => bad_bearer a
  end.

Definition unauthorized : reply := HTTPException 401 (DetailText "Unauthorized").

Definition health : reply := Respond 200 BodyHealth.

Definition api_add_user (username : string) (content : bytes)
    (authorization : option string) : State → reply * State :=
  λ s,
    match rejects_if_present authorization with
    | None => (EscapesIndexError, s)
    | Some true => (unauthorized, s)
    | Some false =>
        match (let* saved := save_user_image username content None in
               let* _ := force_reload_cache in
               ret saved) s with
        | (Ok saved, s') => (Respond 201 (BodySaved saved), s')
        | (Raise e, s') => (HTTPException 500 (DetailStr e), s')
        end
    end.

Definition api_train (authorization : option string)
  : State → reply * State :=
  λ s,
    match rejects_unless_bearer authorization with
    | None => (EscapesIndexError, s)
    | Some true => (unauthorized, s)
    | Some false =>
        match train_all s with
        | (Ok results, s') => (Respond 200 (BodyTrained results), s')
        | (Raise e, s') => (HTTPException 500 (DetailStr e), s')
        end
    end.

Definition api_recognize (content : bytes) : State → reply * State :=
  λ s,
    match recognize_image_bytes content s with
    | (Ok res, s') => (Respond 200 (BodyOutcome res), s')
    | (Raise e, s') => (Escapes e, s')
    end.

Definition api_list_users : State → reply * State :=
  λ s,
    match list_users s with
    | (Ok users, s') => (Respond 200 (BodyUsers users), s')
    | (Raise e, s') => (Escapes e, s')
    end.

Definition api_delete_user (username : string)
    (authorization : option string) : State → reply * State :=
  λ s,
    match rejects_if_present authorization with
    | None => (EscapesIndexError, s)
    | Some true => (unauthorized, s)
    | Some false =>
        match delete_user username s with
        | (Raise e, s1) => (Escapes e, s1)
        | (Ok false, s1) =>
            (HTTPException 404 (DetailText "User not found"), s1)
        | (Ok true, s1) =>
            match force_reload_cache s1 with
            | (Ok _, s2) => (Respond 200 (BodyDeleted username), s2)
            | (Raise e, s2) => (Escapes e, s2)
            end
        end
    end.

Definition api_list_models : State → reply * State :=
  λ s,
    match list_models s with
    | (Ok models, s') => (Respond 200 (BodyModels models), s')
    | (Raise e, s') => (Escapes e, s')
    end.

End handlers.
End main.

(** ** A deterministic stand-in for OpenCV

    Used to run the service on concrete stores.  An image is its bytes and
    decodes when it starts with [0xff]; it shows one face when it has at
    least two bytes.  A classifier is the concatenation of its training
    samples, serialised behind the byte ["M"]; its confidence for a sample
    is the distance between the byte sums. *)

Module toy.

Definition decode (c : bytes) : option bytes :=
  match c with
  | Byte.xff :: _ => Some c
  | _ => None
  end.

Definition byte_sum (c : bytes) : Z :=
  foldr (λ b acc, (Z.of_N (Byte.to_N b) + acc)%Z) 0%Z c.

Definition predict (r : bytes) (sample : bytes) : option (Z * pyfloat) :=
  match r with
  | [] => None
  | _ => Some (0%Z, FFin (Z.abs (byte_sum r - byte_sum sample) # 1))
  end.

Definition vision : Vision := {|
  image := bytes;
  recognizer := bytes;
  imread_grayscale := decode;
  imdecode_color := λ c, match c with
                         | [] => Raise CvError
                         | _ => Ok (decode c)
                         end;
  imdecode_color_empty := eq_refl;
  cvtColor_gray := id;
  detectMultiScale := λ img,
    match img with
    | _ :: _ :: _ => [mkRect 0 0 1 1]
    | _ => []
    end;
  crop := λ img _, img;
  resize := id;
  LBPH_train := λ faces _, concat faces;
  LBPH_save := λ r, Byte.x4d :: r;
  LBPH_read := λ c, match c with
                    | Byte.x4d :: r => Some r
                    | _ => None
                    end;
  LBPH_predict := predict;
|}.

(** The local back end on [/srv/dataset], and the blob back end on the
    container [faces] without prefix, with the default threshold. *)
Definition base : Path := ["srv"; "dataset"].
Definition on_disk : Settings := local_settings base default_threshold.
Definition on_azure : Settings := azure_settings "faces" "" default_threshold.

(** A machine with an empty data set and an empty blob account. *)
Definition empty_disk : gmap Path fnode :=
  list_to_map [(["srv"], FDir); (base, FDir); (["tmp"], FDir)].
Definition empty_world : World := mkWorld empty_disk 0 ∅ [] [].

(** The same machine when the next remote call fails. *)
Definition offline_world : World := mkWorld empty_disk 0 ∅ [false] [].

(** A photo that decodes and shows a face, and a file that does not
    decode. *)
Definition photo (b : Byte.byte) : bytes := [Byte.xff; b].
Definition garbage : bytes := [Byte.x00].

(** A process whose cache holds one classifier, for alice. *)
Definition loaded_state : @face_service.State vision :=
  @face_service.mkState vision empty_world [(photo Byte.x0a, 0)]
                        {[0 := "alice"]} true [].

(** A local data set where alice has one model file that does not
    deserialise and bob one that does. *)
Definition models_disk : gmap Path fnode :=
  list_to_map
    [(["srv"], FDir); (base, FDir); (["tmp"], FDir);
     (base ++ ["alice"], FDir); (base ++ ["alice"; "trainer"], FDir);
     (base ++ ["alice"; "trainer"; "bad.yml"], FFile garbage);
     (base ++ ["bob"], FDir); (base ++ ["bob"; "trainer"], FDir);
     (base ++ ["bob"; "trainer"; "good.yml"],
      FFile (Byte.x4d :: photo Byte.x0b))].
Definition models_world : World := mkWorld models_disk 0 ∅ [] [].

(** A blob account with one model that does not deserialise. *)
Definition bad_blob_world : World :=
  mkWorld empty_disk 0
          {[("faces", "alice/trainer/alice_trainer_bad.yml") := garbage]}
          [] [].

(** A local data set where alice has a photo and a file that does not
    decode, and bob has a photo. *)
Definition photos_disk : gmap Path fnode :=
  list_to_map
    [(["srv"], FDir); (base, FDir); (["tmp"], FDir);
     (base ++ ["alice"], FDir);
     (base ++ ["alice"; "img1.jpg"], FFile (photo Byte.x0a));
     (base ++ ["alice"; "img2.jpg"], FFile garbage);
     (base ++ ["bob"], FDir);
     (base ++ ["bob"; "img1.jpg"], FFile (photo Byte.x0b))].
Definition photos_world : World := mkWorld photos_disk 0 ∅ [] [].

End toy.


(** ** Vocabulary of the properties *)

Section vocabulary.
Context `{Vision} `{Settings}.
Import face_service.

#[global] Instance io_event_eq_dec : EqDecision io_event.
Proof. solve_decision. Defined.

(** How often [storage.list_models] has been called. *)
Definition list_models_calls (s : State) : nat :=
  length (filter (λ ev, ev = IoListModels) (io_log s)).

(** The calls of the [try] block of [load_models_into_cache] that can
    raise: the download and the deserialisation. *)
Definition fetch_model (model_ref : string) : M State (string * recognizer) :=
  let* local_model := storage_call (IoDownload model_ref)
                        (Storage.download_to_temp storage model_ref) in
  let* recognizer := in_world (recognizer_read local_model) in
  ret (local_model, recognizer).

(** [os.remove] inside its own [try ... except Exception: pass]. *)
Definition remove_quietly (path : string) : M State unit :=
  try_except (in_world (OS.remove path)) (λ _, ret tt).

(** The scores that the two loops of [recognize_image_bytes] see, in the
    order in which they see them: for every face and every cached
    recognizer whose [predict] returns, the cache label and the
    confidence. *)
Definition scores (gray : image) (faces : list rect)
    (recognizers : list (recognizer * nat)) : list (nat * pyfloat) :=
  flat_map
    (λ face,
       omap (λ entry : recognizer * nat,
               (λ pc : Z * pyfloat, (entry.2, pc.2)) <$>
               LBPH_predict entry.1 (resize (crop gray face)))
            recognizers)
    faces.

(** [if confidence < best["confidence"]: best = ...] *)
Definition keep_lower (best : best_t) (sc : nat * pyfloat) : best_t :=
  if float_lt sc.2 (best_confidence best) then mkBest (Some sc.1) sc.2
  else best.

(** What the pass has found after the scores [seen]. *)
Definition tracked (best : best_t) (seen : list (nat * pyfloat)) : Prop :=
  match best_label best with
  | None =>
      best_confidence best = FInf ∧
      ∀ l c, (l, c) ∈ seen → float_lt c FInf = false
  | Some label =>
      (label, best_confidence best) ∈ seen ∧
      float_lt (best_confidence best) FInf = true ∧
      ∀ l c, (l, c) ∈ seen → float_lt c (best_confidence best) = false
  end.

(** A score that can win: a number below [float("inf")]. *)
Definition usable (c : pyfloat) : Prop := float_lt c FInf = true.

(** What the image loop of [train_all] does with the images of one user:
    every image is downloaded, read and removed in turn; [decoded] lists
    what [cv2.imread] returned for each. *)
Inductive decodings : list string → State → list (option image) → State
                      → Prop :=
  | decodings_nil s : decodings [] s [] s
  | decodings_cons img_ref rest s local_path s1 img s2 s3 decoded s' :
      storage_call (IoDownload img_ref)
        (Storage.download_to_temp storage img_ref) s = (Ok local_path, s1) →
      in_world (cv2_imread local_path) s1 = (Ok img, s2) →
      remove_quietly local_path s2 = (Ok tt, s3) →
      decodings rest s3 decoded s' →
      decodings (img_ref :: rest) s (img :: decoded) s'.

(** The end of the body of [for user in users]: the trained recognizer
    is saved to a temporary file, read back, and stored as a model. *)
Definition persist_model (user : string) (recognizer : recognizer)
  : M State string :=
  let* tmpfile := in_world (OS.NamedTemporaryFile ".yml") in
  let* _ := in_world (recognizer_save recognizer tmpfile) in
  let* model_bytes := in_world (OS.read_bytes (os_path tmpfile)) in
  let* _ := in_world (OS.remove tmpfile) in
  let* model_id := in_world OS.random_id in
  let model_filename := user +:+ "_trainer_" +:+ model_id +:+ ".yml" in
  storage_call (IoSaveModel user model_filename)
    (Storage.save_model storage user model_filename model_bytes).

End vocabulary.

(** A name that is one path component: no separator, and not one of the
    names that [pathlib] or the kernel treat specially. *)
Definition plain_name (n : string) : bool :=
  negb (PyStr.contains "/" n) && bool_decide (n ∉ [""; "."; ".."]).

Definition plain_path (p : Path) : bool := forallb plain_name p.

(** [p] and all its ancestors are directories of the disk. *)
Definition dir_path (d : gmap Path fnode) (p : Path) : bool :=
  forallb (λ n, match d !! take n p with
                | Some FDir => true
                | _ => false
                end)
          (seq 1 (length p)).

(** Every entry of the disk lies in a directory. *)
Definition wf_disk (d : gmap Path fnode) : bool :=
  forallb (λ kv : Path * fnode,
             match removelast kv.1 with
             | [] => true
             | q => match d !! q with
                    | Some FDir => true
                    | _ => false
                    end
             end)
          (map_to_list d).

(** The content of the file at a resolved path, if there is a file. *)
Definition file_at (d : gmap Path fnode) (p : Path) : option bytes :=
  match d !! p with
  | Some (FFile c) => Some c
  | _ => None
  end.

(** A name with an image extension, as [list_user_images] filters them. *)
Definition is_image_name (n : string) : bool :=
  Storage.image_suffix (PyStr.lower (name_suffix n)).

(** The directory of [user] holds exactly the images numbered 1 to [k]
    (it need not exist when [k] is 0). *)
Definition enrolled (base : Path) (user : string) (k : nat)
    (d : gmap Path fnode) : Prop :=
  (d !! (base ++ [user]) = Some FDir ∨
   (d !! (base ++ [user]) = None ∧ OS.children d (base ++ [user]) = [])) ∧
  filter (λ n, is_image_name n = true) (OS.children d (base ++ [user]))
  ≡ₚ face_service._next_image_filename <$> seq 0 k.

(** Successive calls of [save_user_image(user, content)], one for each
    content, without a file name; the paths they return. *)
Fixpoint save_images `{Vision} `{Settings} (user : string)
    (contents : list bytes) : M face_service.State (list string) :=
  match contents with
  | [] => ret []
  | c :: cs =>
      let* path := face_service.save_user_image user c None in
      let* paths := save_images user cs in
      ret (path :: paths)
  end.

Section runs.
Context `{Vision} `{Settings}.
Import face_service.

(** The loop of [load_models_into_cache] over an enumeration, entry by
    entry, from one state to the next: an entry whose download raises, or
    whose deserialisation raises, is passed over; an entry that loads has
    its local file removed.  [kept] lists the users and the classifiers
    of the entries that loaded, in the order of the enumeration. *)
Inductive loaded_from : list (string * string) → State
                        → list (string * recognizer) → State → Prop :=
  | loaded_nil s : loaded_from [] s [] s
  | loaded_download_fails user model_ref rest s e s1 kept s' :
      storage_call (IoDownload model_ref)
        (Storage.download_to_temp storage model_ref) s = (Raise e, s1) →
      loaded_from rest s1 kept s' →
      loaded_from ((user, model_ref) :: rest) s kept s'
  | loaded_read_fails user model_ref rest s local_model s1 e s2 kept s' :
      storage_call (IoDownload model_ref)
        (Storage.download_to_temp storage model_ref) s
      = (Ok local_model, s1) →
      in_world (recognizer_read local_model) s1 = (Raise e, s2) →
      loaded_from rest s2 kept s' →
      loaded_from ((user, model_ref) :: rest) s kept s'
  | loaded_keep user model_ref rest s local_model s1 r s2 s3 kept s' :
      storage_call (IoDownload model_ref)
        (Storage.download_to_temp storage model_ref) s
      = (Ok local_model, s1) →
      in_world (recognizer_read local_model) s1 = (Ok r, s2) →
      remove_quietly local_model s2 = (Ok tt, s3) →
      loaded_from rest s3 kept s' →
      loaded_from ((user, model_ref) :: rest) s ((user, r) :: kept) s'.

(** The cache of the kept entries: the classifiers, numbered from 0. *)
Definition cache_of (kept : list (string * recognizer))
  : list (recognizer * nat) :=
  zip kept.*2 (seq 0 (length kept)).

(** One turn of the loop [for user in users] of [train_all], call by
    call, from the state [s] with the next label [label_id]: what is
    recorded for the user, the next label, and the state afterwards. *)
Inductive user_outcome (user : string) (label_id : nat) (s : State)
  : string → nat → State → Prop :=
  | outcome_no_images s1 :
      storage_call (IoListUserImages user)
        (Storage.list_user_images storage user) s = (Ok [], s1) →
      user_outcome user label_id s "no-images" label_id s1
  | outcome_no_valid_images images s1 decoded s2 :
      storage_call (IoListUserImages user)
        (Storage.list_user_images storage user) s = (Ok images, s1) →
      images ≠ [] →
      decodings images s1 decoded s2 →
      Forall (λ d, d = None) decoded →
      user_outcome user label_id s "no-valid-images" label_id s2
  | outcome_model images s1 decoded s2 tmpfile s3 s4 model_bytes s5 s6
                  model_id s7 path s8 :
      storage_call (IoListUserImages user)
        (Storage.list_user_images storage user) s = (Ok images, s1) →
      images ≠ [] →
      decodings images s1 decoded s2 →
      Exists is_Some decoded →
      in_world (OS.NamedTemporaryFile ".yml") s2 = (Ok tmpfile, s3) →
      in_world
        (recognizer_save
           (LBPH_train (resize <$> omap id decoded)
                       (replicate (length (omap id decoded)) label_id))
           tmpfile) s3 = (Ok tt, s4) →
      in_world (OS.read_bytes (os_path tmpfile)) s4 = (Ok model_bytes, s5) →
      in_world (OS.remove tmpfile) s5 = (Ok tt, s6) →
      in_world OS.random_id s6 = (Ok model_id, s7) →
      storage_call
        (IoSaveModel user (user +:+ "_trainer_" +:+ model_id +:+ ".yml"))
        (Storage.save_model storage user
           (user +:+ "_trainer_" +:+ model_id +:+ ".yml") model_bytes) s7
      = (Ok path, s8) →
      user_outcome user label_id s path (label_id + 1) s8.

End runs.

(** Every path of the disk is made of plain names, as the names of a file
    system are. *)
Definition plain_disk (d : gmap Path fnode) : bool :=
  forallb (λ kv : Path * fnode, plain_path kv.1) (map_to_list d).

(** The state with another content of the cache. *)
Definition with_cache `{Vision} (rs : list (recognizer * nat))
    (dict : gmap nat string) (loaded : bool) (s : face_service.State)
  : face_service.State :=
  face_service.mkState (face_service.world s) rs dict loaded
                       (face_service.io_log s).

(** [a <= b] on floats. *)
Definition float_le (a b : pyfloat) : Prop := float_lt a b = true ∨ a = b.

(** [f] is a model file of [u]: a name with the extension [.yml], in any
    letter case, in the directory [trainer] of an entry [u] of [base]. *)
Definition model_at (base : Path) (d : gmap Path fnode) (u f : string)
  : Prop :=
  is_Some (d !! (base ++ [u])) ∧
  d !! (base ++ [u; "trainer"]) = Some FDir ∧
  is_Some (d !! (base ++ [u; "trainer"; f])) ∧
  PyStr.lower (name_suffix f) = ".yml".

(** The file at [q] holds a classifier that deserialises. *)
Definition loadable `{Vision} (d : gmap Path fnode) (q : Path) : Prop :=
  ∃ c, d !! q = Some (FFile c) ∧ is_Some (LBPH_read c).

(** The header value is the word ["bearer"], in any letter case, one space
    and the token. *)
Definition presents_token (token authorization : string) : Prop :=
  ∃ scheme, PyStr.lower scheme = "bearer" ∧
            authorization = scheme +:+ " " +:+ token.

(** * Properties *)

(** ** The monad *)

Section monad_facts.
Context {S A B : Type}.

Lemma bind_ok (m : M S A) (k : A → M S B) s a s1 :
  m s = (Ok a, s1) → bind m k s = k a s1.
Proof. intros Hm. unfold bind. by rewrite Hm. Qed.

Lemma bind_raise (m : M S A) (k : A → M S B) s e s1 :
  m s = (Raise e, s1) → bind m k s = (Raise e, s1).
Proof. intros Hm. unfold bind. by rewrite Hm. Qed.

Lemma bind_ok_inv (m : M S A) (k : A → M S B) s b s' :
  bind m k s = (Ok b, s') →
  ∃ a s1, m s = (Ok a, s1) ∧ k a s1 = (Ok b, s').
Proof.
  unfold bind. destruct (m s) as [[a|e] s1]; [eauto|discriminate].
Qed.

Lemma bind_raise_inv (m : M S A) (k : A → M S B) s e s' :
  bind m k s = (Raise e, s') →
  m s = (Raise e, s') ∨ ∃ a s1, m s = (Ok a, s1) ∧ k a s1 = (Raise e, s').
Proof.
  unfold bind. destruct (m s) as [[a|e0] s1]; [eauto|].
  intros [= -> ->]. by left.
Qed.

Lemma try_except_total (m : M S A) (h : exn → M S A) s :
  (∀ e s1, ∃ a s2, h e s1 = (Ok a, s2)) →
  ∃ a s2, try_except m h s = (Ok a, s2).
Proof.
  intros Hh. unfold try_except. destruct (m s) as [[a|e] s1]; eauto.
Qed.
End monad_facts.

(** A loop whose body never raises never raises. *)
Lemma for_each_total {S A X} (body : X → A → M S A) xs :
  (∀ x acc s, ∃ acc' s', body x acc s = (Ok acc', s')) →
  ∀ acc s, ∃ acc' s', for_each xs acc body s = (Ok acc', s').
Proof.
  intros Hbody. induction xs as [|x xs IH]; intros acc s; simpl.
  - by exists acc, s.
  - destruct (Hbody x acc s) as (acc1 & s1 & Hx).
    rewrite (bind_ok _ _ _ _ _ Hx). apply IH.
Qed.

(** An invariant of the loop body is an invariant of the loop. *)
Lemma for_each_invariant {S A X} (I : A → S → Prop) (body : X → A → M S A) xs :
  (∀ x acc s acc' s',
     x ∈ xs → I acc s → body x acc s = (Ok acc', s') → I acc' s') →
  ∀ acc s acc' s',
    I acc s → for_each xs acc body s = (Ok acc', s') → I acc' s'.
Proof.
  induction xs as [|x xs IH]; intros Hbody acc s acc' s' HI; simpl.
  - by intros [= <- <-].
  - intros (acc1 & s1 & Hx & Hrest)%bind_ok_inv.
    eapply IH; [|eapply Hbody; [|done..]|done].
    + intros y ? ? ? ? Hy. apply Hbody. by right.
    + by left.
Qed.

(** A loop that returns has run its body on every element, and then the
    loop over the elements that follow. *)
Lemma for_each_split {S A X} (body : X → A → M S A) pre x post :
  ∀ acc s acc' s',
    for_each (pre ++ x :: post) acc body s = (Ok acc', s') →
    ∃ acc0 s0 acc1 s1,
      body x acc0 s0 = (Ok acc1, s1) ∧
      for_each post acc1 body s1 = (Ok acc', s').
Proof.
  induction pre as [|y pre IH]; intros acc s acc' s'; simpl.
  - intros (acc1 & s1 & Hx & Hrest)%bind_ok_inv. eauto 10.
  - intros (acc1 & s1 & _ & Hrest)%bind_ok_inv. eauto.
Qed.

(** ** The model cache *)

Section cache.
Context `{Vision} `{Settings}.
Import face_service.

Lemma remove_quietly_ok path s :
  ∃ s', remove_quietly path s = (Ok tt, s').
Proof.
  unfold remove_quietly, try_except.
  destruct (in_world (OS.remove path) s) as [[[]|e] s1]; eauto.
Qed.

(** An entry whose download or deserialisation raises is skipped. *)
Lemma load_model_skip user model_ref acc s e s1 :
  fetch_model model_ref s = (Raise e, s1) →
  load_model (user, model_ref) acc s = (Ok acc, s1).
Proof.
  destruct acc as [[recognizers label_dict] label_id].
  unfold fetch_model, load_model, try_except.
  intros [Hd|(local & s2 & Hd & Hr)]%bind_raise_inv.
  - by rewrite (bind_raise _ _ _ _ _ Hd).
  - rewrite (bind_ok _ _ _ _ _ Hd).
    apply bind_raise_inv in Hr as [Hr|(r & s3 & _ & [=])].
    by rewrite (bind_raise _ _ _ _ _ Hr).
Qed.

(** An entry that loads is appended under the next label, and its local
    file is removed if it can be. *)
Lemma load_model_keep user model_ref recognizers label_dict label_id
    s local r s1 :
  fetch_model model_ref s = (Ok (local, r), s1) →
  ∃ s2, remove_quietly local s1 = (Ok tt, s2) ∧
    load_model (user, model_ref) (recognizers, label_dict, label_id) s
    = (Ok (recognizers ++ [(r, label_id)], <[label_id := user]> label_dict,
           label_id + 1), s2).
Proof.
  unfold fetch_model, load_model.
  intros (local' & s2 & Hd & (r' & s3 & Hr & [= -> -> ->])%bind_ok_inv)
    %bind_ok_inv.
  destruct (remove_quietly_ok local s1) as [s4 Hrm].
  exists s4. split; [done|].
  unfold try_except at 1.
  rewrite (bind_ok _ _ _ _ _ Hd), (bind_ok _ _ _ _ _ Hr).
  fold (remove_quietly local). by rewrite (bind_ok _ _ _ _ _ Hrm).
Qed.

Lemma fetch_model_cases model_ref s :
  (∃ e s1, fetch_model model_ref s = (Raise e, s1)) ∨
  (∃ local r s1, fetch_model model_ref s = (Ok (local, r), s1)).
Proof.
  destruct (fetch_model model_ref s) as [[[local r]|e] s1]; eauto 6.
Qed.

Lemma load_model_total entry acc s :
  ∃ acc' s', load_model entry acc s = (Ok acc', s').
Proof.
  destruct entry as [user model_ref].
  destruct (fetch_model_cases model_ref s)
    as [(e & s1 & Hf)|(local & r & s1 & Hf)].
  - eauto using load_model_skip.
  - destruct acc as [[recognizers label_dict] label_id].
    destruct (load_model_keep user _ recognizers label_dict label_id
                _ _ _ _ Hf) as (s2 & _ & ->). eauto.
Qed.

End cache.

Section rebuild.
Context `{Vision} `{Settings}.
Import face_service.

Lemma in_world_log {A} (m : M World A) s r s' :
  in_world m s = (r, s') → io_log s' = io_log s.
Proof.
  unfold in_world. destruct (m (world s)) as [r0 w]. by intros [= _ <-].
Qed.

Lemma storage_call_log {A} ev (m : M World A) s r s' :
  storage_call ev m s = (r, s') → io_log s' = io_log s ++ [ev].
Proof.
  unfold storage_call, bind, modify. intros Hm.
  by rewrite (in_world_log _ _ _ _ Hm).
Qed.

Lemma storage_call_world {A} ev (m : M World A) s :
  storage_call ev m s
  = ((m (world s)).1, set_world (m (world s)).2 (log_io ev s)).
Proof.
  unfold storage_call, bind, modify, in_world. simpl.
  by destruct (m (world s)).
Qed.

Lemma remove_quietly_log path s s' :
  remove_quietly path s = (Ok tt, s') → io_log s' = io_log s.
Proof.
  unfold remove_quietly, try_except.
  destruct (in_world (OS.remove path) s) as [[[]|e] s1] eqn:Hrm.
  - intros [= <-]. eauto using in_world_log.
  - intros [= <-]. eauto using in_world_log.
Qed.

Lemma fetch_model_log model_ref s r s' :
  fetch_model model_ref s = (r, s') →
  io_log s' = io_log s ++ [IoDownload model_ref].
Proof.
  unfold fetch_model, bind.
  destruct (storage_call _ _ s) as [[local|e] s1] eqn:Hd.
  - destruct (in_world _ s1) as [[rec|e] s2] eqn:Hr.
    + intros [= _ <-]. rewrite (in_world_log _ _ _ _ Hr).
      eauto using storage_call_log.
    + intros [= _ <-]. rewrite (in_world_log _ _ _ _ Hr).
      eauto using storage_call_log.
  - intros [= _ <-]. eauto using storage_call_log.
Qed.

(** Loading one entry makes one download call and no other storage call. *)
Lemma load_model_log user model_ref acc s acc' s' :
  load_model (user, model_ref) acc s = (Ok acc', s') →
  io_log s' = io_log s ++ [IoDownload model_ref].
Proof.
  destruct (fetch_model_cases model_ref s)
    as [(e & s1 & Hf)|(local & r & s1 & Hf)].
  - rewrite (load_model_skip _ _ _ _ _ _ Hf). intros [= _ <-].
    eauto using fetch_model_log.
  - destruct acc as [[recognizers label_dict] label_id].
    destruct (load_model_keep user _ recognizers label_dict label_id
                _ _ _ _ Hf) as (s2 & Hrm & ->).
    intros [= _ <-]. rewrite (remove_quietly_log _ _ _ Hrm).
    eauto using fetch_model_log.
Qed.

Lemma list_models_calls_app s s' evs :
  io_log s' = io_log s ++ evs →
  list_models_calls s'
  = list_models_calls s + length (filter (λ ev, ev = IoListModels) evs).
Proof.
  unfold list_models_calls. intros ->. by rewrite filter_app, length_app.
Qed.

Lemma load_loop_calls models acc s acc' s' :
  for_each models acc load_model s = (Ok acc', s') →
  list_models_calls s' = list_models_calls s.
Proof.
  apply (for_each_invariant
           (λ _ s1, list_models_calls s1 = list_models_calls s)); [|done].
  intros [user model_ref] acc1 s1 acc2 s2 _ IH Hstep.
  rewrite (list_models_calls_app s1 s2 [IoDownload model_ref]); simpl.
  - rewrite IH. lia.
  - eauto using load_model_log.
Qed.

(** What a rebuild that is not skipped does. *)
Lemma rebuild_unfold force s :
  _cache_loaded s = false ∨ force = true →
  load_models_into_cache force s
  = (let* models := storage_call IoListModels (Storage.list_models storage) in
     let* (recognizers, label_dict, _) := for_each models ([], ∅, 0) load_model in
     modify (set_cache recognizers label_dict)) s.
Proof.
  intros Hgo. unfold load_models_into_cache at 1, bind at 1, get.
  destruct Hgo as [-> | ->]; [done|]. by rewrite andb_false_r.
Qed.

Lemma rebuild_loaded force s s' :
  load_models_into_cache force s = (Ok tt, s') → _cache_loaded s' = true.
Proof.
  destruct (_cache_loaded s) eqn:Hl, force.
  1,3,4: rewrite rebuild_unfold by auto;
    intros (models & s1 & _ & ([[rs d] l] & s2 & _ & Hset)%bind_ok_inv)
      %bind_ok_inv; by injection Hset as <-.
  unfold load_models_into_cache, bind, get. rewrite Hl. simpl.
  by intros [= <-].
Qed.

(** C3. When the cache is loaded, [load_models_into_cache(force=False)]
    changes nothing: the state, which holds the cached models, the label
    dictionary, the loaded flag, the disk and the log of storage calls, is
    the same afterwards, so no storage method has been called.  Hence,
    whenever a first call without force has completed, a second one
    changes nothing, and the two together have called [list_models] at
    most once. *)
Theorem rebuild_noop_when_loaded (s : State) :
  (_cache_loaded s = true → load_models_into_cache false s = (Ok tt, s)) ∧
  (∀ s1, load_models_into_cache false s = (Ok tt, s1) →
     load_models_into_cache false s1 = (Ok tt, s1) ∧
     list_models_calls s1 ≤ list_models_calls s + 1).
Proof.
  assert (Hnoop : ∀ s0, _cache_loaded s0 = true →
            load_models_into_cache false s0 = (Ok tt, s0)).
  { intros s0 Hl. unfold load_models_into_cache, bind, get.
    by rewrite Hl. }
  split; [apply Hnoop|]. intros s1 Hfirst. split.
  - eauto using rebuild_loaded.
  - destruct (_cache_loaded s) eqn:Hl.
    + rewrite Hnoop in Hfirst by done. injection Hfirst as <-. lia.
    + rewrite rebuild_unfold in Hfirst by auto.
      apply bind_ok_inv in Hfirst as (models & s2 & Hlist & Hrest).
      apply bind_ok_inv in Hrest as ([[rs d] l] & s3 & Hloop & Hset).
      injection Hset as <-.
      apply load_loop_calls in Hloop.
      apply storage_call_log in Hlist.
      rewrite (list_models_calls_app s s2 [IoListModels]) in Hloop by done.
      unfold list_models_calls in *. simpl in *. lia.
Qed.

End rebuild.

Section rebuild_scan.
Context `{Vision} `{Settings}.
Import face_service.

Lemma rebuild_runs force s models w1 :
  _cache_loaded s = false ∨ force = true →
  Storage.list_models storage (world s) = (Ok models, w1) →
  ∃ recognizers label_dict label_id s2,
    for_each models ([], ∅, 0) load_model
      (set_world w1 (log_io IoListModels s))
    = (Ok (recognizers, label_dict, label_id), s2) ∧
    load_models_into_cache force s
    = (Ok tt, set_cache recognizers label_dict s2).
Proof.
  intros Hgo Hlist.
  destruct (for_each_total load_model models load_model_total ([], ∅, 0)
              (set_world w1 (log_io IoListModels s)))
    as ([[rs d] l] & s2 & Hloop).
  exists rs, d, l, s2. split; [done|].
  rewrite rebuild_unfold by done.
  assert (Hcall : storage_call IoListModels (Storage.list_models storage) s
                  = (Ok models, set_world w1 (log_io IoListModels s))).
  { by rewrite storage_call_world, Hlist. }
  rewrite (bind_ok _ _ _ _ _ Hcall), (bind_ok _ _ _ _ _ Hloop).
  done.
Qed.

(** The labels handed out by the loop: the kept entries, in order, get
    the labels from [label_id] on. *)
Lemma load_loop_labels models :
  ∀ recognizers label_dict label_id s recognizers' label_dict' label_id' s',
    for_each models (recognizers, label_dict, label_id) load_model s
    = (Ok (recognizers', label_dict', label_id'), s') →
    ∃ kept, kept `sublist_of` models ∧
      label_id' = label_id + length kept ∧
      recognizers'.*2 = recognizers.*2 ++ seq label_id (length kept) ∧
      (∀ l, l < label_id → label_dict' !! l = label_dict !! l) ∧
      (∀ l, label_id' ≤ l → label_dict' !! l = label_dict !! l) ∧
      (∀ i, i < length kept →
            label_dict' !! (label_id + i) = fst <$> kept !! i).
Proof.
  induction models as [|[user model_ref] models IH];
    intros rs d l s rs' d' l' s'; cbn [for_each].
  - intros [= <- <- <- _]. exists []. simpl.
    rewrite app_nil_r. repeat split; auto with lia.
  - intros (acc1 & s1 & Hstep & Hrest)%bind_ok_inv.
    destruct (fetch_model_cases model_ref s)
      as [(e & s3 & Hf)|(local & r & s3 & Hf)].
    + rewrite (load_model_skip _ _ _ _ _ _ Hf) in Hstep.
      injection Hstep as <- <-.
      destruct (IH _ _ _ _ _ _ _ _ Hrest)
        as (kept & Hsub & Hl & Hrs & Hlo & Hhi & Hin).
      exists kept. repeat split; auto. by apply sublist_cons.
    + destruct (load_model_keep user _ rs d l _ _ _ _ Hf)
        as (s4 & _ & Hkeep).
      rewrite Hkeep in Hstep. injection Hstep as <- <-.
      destruct (IH _ _ _ _ _ _ _ _ Hrest)
        as (kept & Hsub & Hl & Hrs & Hlo & Hhi & Hin).
      exists ((user, model_ref) :: kept). simpl. split; [|split; [|split]].
      * by apply sublist_skip.
      * lia.
      * rewrite Hrs, fmap_app. simpl. rewrite <- app_assoc. simpl.
        by replace (l + 1) with (S l) by lia.
      * split; [|split].
        -- intros l0 Hl0. rewrite Hlo by lia.
           apply lookup_insert_ne. lia.
        -- intros l0 Hl0. rewrite Hhi by lia.
           apply lookup_insert_ne. lia.
        -- intros [|i] Hi.
           ++ rewrite Nat.add_0_r, Hlo by lia. simpl.
              apply lookup_insert_eq.
           ++ replace (l + S i) with (l + 1 + i) by lia.
              simpl. apply Hin. lia.
Qed.

(** The loop of the rebuild follows [loaded_from], and hands out the
    labels from [label_id] on to the entries that load. *)
Lemma load_loop_loaded_from models :
  ∀ recognizers label_dict label_id s,
    ∃ kept s' label_dict',
      loaded_from models s kept s' ∧
      for_each models (recognizers, label_dict, label_id) load_model s
      = (Ok (recognizers ++ zip kept.*2 (seq label_id (length kept)),
             label_dict', label_id + length kept), s') ∧
      (∀ l, l < label_id → label_dict' !! l = label_dict !! l) ∧
      (∀ l, label_id + length kept ≤ l →
            label_dict' !! l = label_dict !! l) ∧
      (∀ i, i < length kept →
            label_dict' !! (label_id + i) = fst <$> kept !! i).
Proof.
  induction models as [|[user model_ref] models IH]; intros rs d l s;
    cbn [for_each].
  { exists [], s, d. simpl. rewrite app_nil_r, Nat.add_0_r.
    split; [constructor|]. split; [done|]. repeat split; auto with lia. }
  destruct (fetch_model_cases model_ref s)
    as [(e & s1 & Hf)|(local & r & s1 & Hf)].
  - rewrite (bind_ok _ _ _ _ _ (load_model_skip user _ (rs, d, l) _ _ _ Hf)).
    destruct (IH rs d l s1) as (kept & s' & d' & Hrun & Hloop & Hd).
    exists kept, s', d'. split; [|done].
    unfold fetch_model in Hf.
    apply bind_raise_inv in Hf as [Hdl|(lp & sa & Hdl & Hrd)].
    + by eapply loaded_download_fails.
    + apply bind_raise_inv in Hrd as [Hrd|(r & sb & _ & [=])].
      by eapply loaded_read_fails.
  - destruct (load_model_keep user _ rs d l _ _ _ _ Hf)
      as (s2 & Hrm & Hkeep).
    rewrite (bind_ok _ _ _ _ _ Hkeep).
    destruct (IH (rs ++ [(r, l)]) (<[l := user]> d) (l + 1) s2)
      as (kept & s' & d' & Hrun & Hloop & Hlo & Hhi & Hin).
    exists ((user, r) :: kept), s', d'. split; [|split; [|split; [|split]]].
    + unfold fetch_model in Hf.
      apply bind_ok_inv in Hf as (lp & sa & Hdl & Hrd).
      apply bind_ok_inv in Hrd as (r' & sb & Hrd & [= -> -> ->]).
      by eapply loaded_keep.
    + rewrite Hloop. simpl. rewrite <- app_assoc. simpl.
      replace (l + 1) with (S l) by lia.
      by replace (S l + length kept) with (l + S (length kept)) by lia.
    + intros l0 Hl0. rewrite Hlo by lia. apply lookup_insert_ne. lia.
    + intros l0 Hl0. simpl in Hl0. rewrite Hhi by lia.
      apply lookup_insert_ne. lia.
    + intros [|i] Hi; simpl in *.
      * rewrite Nat.add_0_r, Hlo by lia. apply lookup_insert_eq.
      * replace (l + S i) with (l + 1 + i) by lia. apply Hin. lia.
Qed.

(** C4. Whatever [list_models] enumerates, a rebuild that runs returns,
    and it has gone through the whole enumeration, entry by entry, from
    the state that the listing left: an entry whose download or
    deserialisation raises is passed over and the remaining entries are
    still processed.  The cache afterwards holds exactly the classifiers
    of the entries that loaded, in order, the label dictionary their
    users, the loaded flag is set, and the rest of the state is as the
    loop left it: in particular, when no entry loaded, the cache is empty
    and loaded. *)
Theorem rebuild_skips_failed_entries (force : bool) (s : State)
    (models : list (string * string)) (w1 : World) :
  _cache_loaded s = false ∨ force = true →
  Storage.list_models storage (world s) = (Ok models, w1) →
  ∃ kept s2 s',
    loaded_from models (set_world w1 (log_io IoListModels s)) kept s2 ∧
    load_models_into_cache force s = (Ok tt, s') ∧
    _cached_recognizers s' = cache_of kept ∧
    (∀ l, _cached_label_dict s' !! l = fst <$> kept !! l) ∧
    _cache_loaded s' = true ∧
    world s' = world s2 ∧
    io_log s' = io_log s2.
Proof.
  intros Hgo Hlist.
  destruct (load_loop_loaded_from models [] ∅ 0
              (set_world w1 (log_io IoListModels s)))
    as (kept & s2 & d & Hrun & Hloop & _ & Hhi & Hin).
  exists kept, s2, (set_cache (cache_of kept) d s2).
  split; [done|]. split; [|split; [done|split; [|done]]].
  - rewrite rebuild_unfold by done.
    assert (Hcall : storage_call IoListModels (Storage.list_models storage) s
                    = (Ok models, set_world w1 (log_io IoListModels s))).
    { by rewrite storage_call_world, Hlist. }
    by rewrite (bind_ok _ _ _ _ _ Hcall), (bind_ok _ _ _ _ _ Hloop).
  - intros l. simpl. destruct (decide (l < length kept)) as [Hl|Hl].
    + by rewrite <- (Hin l Hl).
    + rewrite Hhi by lia. rewrite lookup_empty.
      symmetry. rewrite fmap_None. apply lookup_ge_None. lia.
Qed.

(** C5. After a rebuild that was not skipped, the cache labels are dense
    and start at zero: the entries kept from the enumeration of
    [list_models], in its order, are as many as the cached classifiers;
    the classifier at position [i] carries label [i]; the label dictionary
    is defined exactly on the labels below that number, and maps label [i]
    to the user of the [i]-th kept entry. *)
Theorem cache_labels_dense (force : bool) (s : State)
    (models : list (string * string)) (w1 : World) :
  _cache_loaded s = false ∨ force = true →
  Storage.list_models storage (world s) = (Ok models, w1) →
  ∃ s' kept,
    load_models_into_cache force s = (Ok tt, s') ∧
    kept `sublist_of` models ∧
    length (_cached_recognizers s') = length kept ∧
    (∀ i r l, _cached_recognizers s' !! i = Some (r, l) → l = i) ∧
    (∀ l, is_Some (_cached_label_dict s' !! l) ↔ l < length kept) ∧
    (∀ i, _cached_label_dict s' !! i = fst <$> kept !! i).
Proof.
  intros Hgo Hlist.
  destruct (rebuild_runs force s models w1 Hgo Hlist)
    as (rs & d & l & s2 & Hloop & ->).
  destruct (load_loop_labels _ _ _ _ _ _ _ _ _ Hloop)
    as (kept & Hsub & Hl & Hrs & Hlo & Hhi & Hin).
  simpl in *.
  assert (Hdict : ∀ i, d !! i = fst <$> kept !! i).
  { intros i. destruct (decide (i < length kept)) as [Hi|Hi].
    - by apply Hin.
    - rewrite Hhi, lookup_empty by lia.
      by rewrite (lookup_ge_None_2 kept i) by lia. }
  exists (set_cache rs d s2), kept. simpl.
  split; [done|]. split; [done|].
  assert (Hlen : length rs = length kept).
  { by rewrite <- (length_fmap snd rs), Hrs, length_seq. }
  split; [done|]. split; [|split; [|done]].
  - intros i r l0 Hi.
    assert (Hsnd : rs.*2 !! i = Some l0) by (by rewrite list_lookup_fmap, Hi).
    rewrite Hrs in Hsnd. apply lookup_seq in Hsnd. lia.
  - intros l0. rewrite Hdict, fmap_is_Some. apply lookup_lt_is_Some.
Qed.

End rebuild_scan.

(** ** Recognition *)

Lemma Qltb_lt (a b : Q) : Qltb a b = true ↔ (a < b)%Q.
Proof. unfold Qltb, Qlt. apply Z.ltb_lt. Qed.

Lemma float_lt_irrefl (a : pyfloat) : float_lt a a = false.
Proof.
  destruct a as [| |q|]; simpl; try done.
  apply not_true_is_false. rewrite Qltb_lt. apply Qlt_irrefl.
Qed.

Lemma float_lt_trans (a b c : pyfloat) :
  float_lt a b = true → float_lt b c = true → float_lt a c = true.
Proof.
  destruct a as [| |x|], b as [| |y|], c as [| |z|]; simpl; try done.
  rewrite !Qltb_lt. apply Qlt_trans.
Qed.

Section recognition.
Context `{Vision} `{Settings}.
Import face_service.

Lemma elem_of_scores gray faces recognizers label c :
  (label, c) ∈ scores gray faces recognizers ↔
  ∃ face r pred_label,
    face ∈ faces ∧ (r, label) ∈ recognizers ∧
    LBPH_predict r (resize (crop gray face)) = Some (pred_label, c).
Proof.
  unfold scores. rewrite list_elem_of_In, in_flat_map. split.
  - intros (face & Hface%list_elem_of_In & Hin%list_elem_of_In).
    apply list_elem_of_omap in Hin as ([r l] & Hr & Hp). simpl in Hp.
    destruct (LBPH_predict r _) as [[pl c0]|] eqn:Hpred; [|done].
    injection Hp as <- <-. eauto 7.
  - intros (face & r & pl & Hface & Hr & Hp).
    exists face. split; [by apply list_elem_of_In|].
    apply list_elem_of_In, list_elem_of_omap. exists (r, label).
    split; [done|]. simpl. by rewrite Hp.
Qed.

(** The nested loops are one pass over the scores. *)
Lemma best_match_scores gray faces recognizers :
  best_match gray faces recognizers
  = fold_left keep_lower (scores gray faces recognizers) (mkBest None FInf).
Proof.
  unfold best_match, scores. generalize (mkBest None FInf).
  induction faces as [|face faces IH]; intros best; [done|].
  cbn [fold_left flat_map]. rewrite fold_left_app, IH. f_equal.
  generalize (resize (crop gray face)). intros roi. clear.
  revert best. induction recognizers as [|[r l] rs IH]; intros best; [done|].
  cbn [fold_left omap list_omap]. unfold score_one at 2. simpl.
  destruct (LBPH_predict r roi) as [[pl c]|]; simpl; by rewrite IH.
Qed.

Lemma keep_lower_tracked best seen sc :
  tracked best seen → tracked (keep_lower best sc) (seen ++ [sc]).
Proof.
  destruct sc as [label c]. unfold keep_lower. simpl.
  intros Ht.
  assert (Hold : ∀ l0 c0, (l0, c0) ∈ seen →
                   float_lt c0 (best_confidence best) = false).
  { unfold tracked in Ht. destruct (best_label best).
    - apply Ht.
    - destruct Ht as [-> Ht]. apply Ht. }
  assert (Hfin : ∀ c0, float_lt c0 (best_confidence best) = true →
                       float_lt c0 FInf = true).
  { unfold tracked in Ht. destruct (best_label best).
    - destruct Ht as (_ & Hb & _). eauto using float_lt_trans.
    - destruct Ht as [-> _]. done. }
  destruct (float_lt c (best_confidence best)) eqn:Hlt.
  - unfold tracked. simpl. split; [set_solver|]. split; [eauto|].
    intros l0 c0 [Hin|Hin%list_elem_of_singleton]%elem_of_app.
    + apply not_true_is_false. intros Hc0.
      pose proof (float_lt_trans _ _ _ Hc0 Hlt) as Hbad.
      by rewrite (Hold _ _ Hin) in Hbad.
    + injection Hin as -> ->. apply float_lt_irrefl.
  - unfold tracked in *. destruct (best_label best).
    + destruct Ht as (Hin & Hb & Hmin). split; [set_solver|].
      split; [done|].
      intros l0 c0 [?|Hnew%list_elem_of_singleton]%elem_of_app; [eauto|].
      by injection Hnew as -> ->.
    + destruct Ht as [Hinf Hnone]. split; [done|].
      intros l0 c0 [?|Hnew%list_elem_of_singleton]%elem_of_app; [eauto|].
      injection Hnew as -> ->. by rewrite <- Hinf.
Qed.

Lemma fold_keep_lower_tracked l best seen :
  tracked best seen → tracked (fold_left keep_lower l best) (seen ++ l).
Proof.
  revert best seen. induction l as [|sc l IH]; intros best seen Ht; simpl.
  - by rewrite app_nil_r.
  - replace (seen ++ sc :: l) with ((seen ++ [sc]) ++ l)
      by (by rewrite <- app_assoc).
    apply IH, keep_lower_tracked, Ht.
Qed.

Lemma best_match_tracked gray faces recognizers :
  tracked (best_match gray faces recognizers)
          (scores gray faces recognizers).
Proof.
  rewrite best_match_scores.
  apply (fold_keep_lower_tracked _ _ []). split; [done|]. set_solver.
Qed.

End recognition.

Section recognition_outcomes.
Context `{Vision} `{Settings}.
Import face_service.

(** When some score is usable, the pass ends on a lowest one. *)
Lemma best_match_lowest gray faces recognizers :
  (∃ l c, (l, c) ∈ scores gray faces recognizers ∧ usable c) →
  ∃ label c,
    best_match gray faces recognizers = mkBest (Some label) c ∧
    (label, c) ∈ scores gray faces recognizers ∧
    ∀ l' c', (l', c') ∈ scores gray faces recognizers →
             float_lt c' c = false.
Proof.
  intros (l & c & Hin & Hc).
  pose proof (best_match_tracked gray faces recognizers) as Ht.
  unfold tracked in Ht.
  destruct (best_match gray faces recognizers) as [[label|] c0]; simpl in Ht.
  - exists label, c0. by destruct Ht as (? & ? & ?).
  - destruct Ht as [_ Hnone]. unfold usable in Hc.
    by rewrite (Hnone _ _ Hin) in Hc.
Qed.

Lemma best_match_none gray faces recognizers :
  (∀ l c, (l, c) ∈ scores gray faces recognizers → ¬ usable c) →
  best_label (best_match gray faces recognizers) = None.
Proof.
  intros Hnone.
  pose proof (best_match_tracked gray faces recognizers) as Ht.
  unfold tracked in Ht.
  destruct (best_label (best_match gray faces recognizers)) as [label|];
    [|done].
  destruct Ht as (Hin & Hb & _). by destruct (Hnone _ _ Hin).
Qed.

(** A raise of [cv2.imdecode] leaves [recognize_image_bytes]. *)
Lemma recognize_decode_raise img_bytes s s1 e :
  load_models_into_cache false s = (Ok tt, s1) →
  imdecode_color img_bytes = Raise e →
  recognize_image_bytes img_bytes s = (Raise e, s1).
Proof.
  intros Hload Hdec. unfold recognize_image_bytes.
  by rewrite (bind_ok _ _ _ _ _ Hload), Hdec.
Qed.

(** So an empty byte string makes [recognize_image_bytes] raise as soon
    as the cache has been read. *)
Lemma recognize_empty_upload s s1 :
  load_models_into_cache false s = (Ok tt, s1) →
  recognize_image_bytes [] s = (Raise CvError, s1).
Proof.
  intros Hload. apply recognize_decode_raise; [done|].
  apply imdecode_color_empty.
Qed.

(** The outcomes of [recognize_image_bytes] once the cache has been
    read and [cv2.imdecode] has returned. *)
Lemma recognize_cases img_bytes s s1 decoded :
  load_models_into_cache false s = (Ok tt, s1) →
  imdecode_color img_bytes = Ok decoded →
  ∃ out,
    recognize_image_bytes img_bytes s = (Ok out, s1) ∧
    (decoded = None →
     out = mkOutcome false None None None (Some "invalid-image")) ∧
    (∀ img, decoded = Some img →
       let gray := cvtColor_gray img in
       let faces := detectMultiScale gray in
       let recognizers := _cached_recognizers s1 in
       (faces = [] →
        out = mkOutcome false None None (Some "no-face-detected") None) ∧
       (faces ≠ [] → recognizers = [] →
        out = mkOutcome false None None (Some "no-models") None) ∧
       (faces ≠ [] → recognizers ≠ [] →
        (∀ l c, (l, c) ∈ scores gray faces recognizers → ¬ usable c) →
        out = mkOutcome false None None (Some "no-prediction") None) ∧
       (faces ≠ [] → recognizers ≠ [] →
        (∃ l c, (l, c) ∈ scores gray faces recognizers ∧ usable c) →
        ∃ label c,
          (label, c) ∈ scores gray faces recognizers ∧
          (∀ l' c', (l', c') ∈ scores gray faces recognizers →
                    float_lt c' c = false) ∧
          out = if float_lt c CONFIDENCE_THRESHOLD
                then mkOutcome true
                       (Some (default "unknown"
                                      (_cached_label_dict s1 !! label)))
                       (Some c) None None
                else mkOutcome false None (Some c)
                       (Some "low-confidence") None)).
Proof.
  intros Hload Hdec. unfold recognize_image_bytes.
  rewrite (bind_ok _ _ _ _ _ Hload), Hdec.
  destruct decoded as [img|]; [|by eexists].
  destruct (detectMultiScale (cvtColor_gray img)) as [|face faces] eqn:Hfaces.
  { eexists. split; [done|]. split; [done|]. intros ? [= <-]. simpl.
    rewrite Hfaces. by repeat split. }
  unfold bind at 1, get.
  destruct (_cached_recognizers s1) as [|rec recs] eqn:Hrecs.
  { eexists. split; [done|]. split; [done|]. intros ? [= <-]. simpl.
    rewrite Hfaces. by repeat split. }
  destruct (best_match (cvtColor_gray img) (face :: faces) (rec :: recs))
    as [[label|] c0] eqn:Hbest; cbn [best_label best_confidence].
  - exists (if float_lt c0 CONFIDENCE_THRESHOLD
            then mkOutcome true
                   (Some (default "unknown" (_cached_label_dict s1 !! label)))
                   (Some c0) None None
            else mkOutcome false None (Some c0) (Some "low-confidence") None).
    split; [by destruct (float_lt c0 CONFIDENCE_THRESHOLD)|].
    split; [done|]. intros ? [= <-]. simpl.
    rewrite Hfaces. split; [done|]. split; [done|]. split.
    + intros _ _ Hnone. apply best_match_none in Hnone.
      by rewrite Hbest in Hnone.
    + intros _ _ Huse.
      destruct (best_match_lowest _ _ _ Huse) as (l0 & c1 & Hb & Hin & Hmin).
      rewrite Hbest in Hb. injection Hb as <- <-.
      by exists label, c0.
  - eexists. split; [done|]. split; [done|]. intros ? [= <-]. simpl.
    rewrite Hfaces. split; [done|]. split; [done|]. split; [done|].
    intros _ _ Huse.
    destruct (best_match_lowest _ _ _ Huse) as (l0 & c1 & Hb & _).
    by rewrite Hbest in Hb.
Qed.

(** C1. When the cache read returns, the probe decodes and some detected
    region gets a usable score from some cached classifier, the result
    reports a confidence that one such pair produced and that no pair
    undercuts (the minimum over all regions and all classifiers); it has
    [found = True] exactly when that confidence is below
    [CONFIDENCE_THRESHOLD]; and on acceptance the user is the entry of
    the label dictionary at the cache label of the classifier that
    produced it, or ["unknown"] when the dictionary lacks that label. *)
Theorem recognize_accepts_lowest_confidence (img_bytes : bytes) (img : image)
    (s s1 : State) :
  load_models_into_cache false s = (Ok tt, s1) →
  imdecode_color img_bytes = Ok (Some img) →
  let gray := cvtColor_gray img in
  let faces := detectMultiScale gray in
  let recognizers := _cached_recognizers s1 in
  (∃ face r label pred_label c,
     face ∈ faces ∧ (r, label) ∈ recognizers ∧
     LBPH_predict r (resize (crop gray face)) = Some (pred_label, c) ∧
     usable c) →
  ∃ out face r label pred_label c,
    recognize_image_bytes img_bytes s = (Ok out, s1) ∧
    face ∈ faces ∧ (r, label) ∈ recognizers ∧
    LBPH_predict r (resize (crop gray face)) = Some (pred_label, c) ∧
    (∀ face' r' label' pred_label' c',
       face' ∈ faces → (r', label') ∈ recognizers →
       LBPH_predict r' (resize (crop gray face')) = Some (pred_label', c') →
       float_lt c' c = false) ∧
    confidence out = Some c ∧
    (found out = true ↔ float_lt c CONFIDENCE_THRESHOLD = true) ∧
    (found out = true →
     user out = Some (default "unknown" (_cached_label_dict s1 !! label))).
Proof.
  intros Hload Hdec gray faces recognizers
    (face & r & label & pl & c & Hface & Hr & Hp & Hc).
  destruct (recognize_cases img_bytes s s1 _ Hload Hdec)
    as (out & Hrun & _ & Hcases).
  destruct (Hcases img eq_refl) as (_ & _ & _ & Hbest).
  fold gray faces recognizers in Hbest.
  destruct Hbest as (label0 & c0 & Hin & Hmin & Hout).
  - intros ->. by apply elem_of_nil in Hface.
  - intros Hnil. rewrite Hnil in Hr. by apply elem_of_nil in Hr.
  - exists label, c. split; [|done]. apply elem_of_scores.
    by exists face, r, pl.
  - apply elem_of_scores in Hin as (face0 & r0 & pl0 & Hface0 & Hr0 & Hp0).
    exists out, face0, r0, label0, pl0, c0.
    split; [done|]. split; [done|]. split; [done|]. split; [done|]. split.
    { intros face' r' label' pl' c' Hf' Hr' Hp'.
      apply (Hmin label'). apply elem_of_scores. by exists face', r', pl'. }
    rewrite Hout. by destruct (float_lt c0 CONFIDENCE_THRESHOLD).
Qed.

(** C2, amended.  A raise of the lazy cache reload (a storage call that
    fails) comes out of [recognize_image_bytes] as it is.  Whenever the
    reload returns and [cv2.imdecode] returns, with an image or with
    [None], so does the recognition, with the record of the first case
    that applies: undecodable bytes, no detected region, no cached model,
    no usable score, and otherwise a lowest score, reported as
    ["low-confidence"] with its confidence when it is not below the
    threshold.  Nothing is said of the buffers on which [cv2.imdecode]
    raises. *)
Theorem recognize_structured_outcome (img_bytes : bytes) (s : State) :
  (∀ e s1, load_models_into_cache false s = (Raise e, s1) →
           recognize_image_bytes img_bytes s = (Raise e, s1)) ∧
  (∀ s1 decoded,
     load_models_into_cache false s = (Ok tt, s1) →
     imdecode_color img_bytes = Ok decoded →
     ∃ out,
       recognize_image_bytes img_bytes s = (Ok out, s1) ∧
       (decoded = None →
        out = mkOutcome false None None None (Some "invalid-image")) ∧
       (∀ img, decoded = Some img →
          let gray := cvtColor_gray img in
          let faces := detectMultiScale gray in
          let recognizers := _cached_recognizers s1 in
          (faces = [] →
           out = mkOutcome false None None (Some "no-face-detected") None) ∧
          (faces ≠ [] → recognizers = [] →
           out = mkOutcome false None None (Some "no-models") None) ∧
          (faces ≠ [] → recognizers ≠ [] →
           (∀ l c, (l, c) ∈ scores gray faces recognizers → ¬ usable c) →
           out = mkOutcome false None None (Some "no-prediction") None) ∧
          (faces ≠ [] → recognizers ≠ [] →
           (∃ l c, (l, c) ∈ scores gray faces recognizers ∧ usable c) →
           ∃ label c,
             (label, c) ∈ scores gray faces recognizers ∧
             (∀ l' c', (l', c') ∈ scores gray faces recognizers →
                       float_lt c' c = false) ∧
             out = if float_lt c CONFIDENCE_THRESHOLD
                   then mkOutcome true
                          (Some (default "unknown"
                                         (_cached_label_dict s1 !! label)))
                          (Some c) None None
                   else mkOutcome false None (Some c)
                          (Some "low-confidence") None))).
Proof.
  split.
  - intros e s1 Hload. unfold recognize_image_bytes.
    by rewrite (bind_raise _ _ _ _ _ Hload).
  - intros s1 decoded. apply recognize_cases.
Qed.

End recognition_outcomes.

(** ** Enrolment, deletion and training *)

Section training.
Context `{Vision} `{Settings}.
Import face_service.

Lemma storage_call_cache {A} ev (m : M World A) s r s' :
  storage_call ev m s = (r, s') →
  _cache_loaded s' = _cache_loaded s ∧
  _cached_recognizers s' = _cached_recognizers s ∧
  _cached_label_dict s' = _cached_label_dict s.
Proof. rewrite storage_call_world. by intros [= _ <-]. Qed.

(** A raise of the body of the image loop is a raise of the download. *)
Lemma read_face_raise label_id img_ref acc s e s' :
  read_face label_id img_ref acc s = (Raise e, s') →
  storage_call (IoDownload img_ref)
    (Storage.download_to_temp storage img_ref) s = (Raise e, s').
Proof.
  destruct acc as [faces labels]. unfold read_face.
  intros [Hd|(lp & s1 & Hd & Hrest)]%bind_raise_inv; [done|].
  exfalso.
  assert (∃ img s2, in_world (cv2_imread lp) s1 = (Ok img, s2))
    as (img & s2 & Hr).
  { unfold in_world, cv2_imread.
    destruct (OS.node_at _ _) as [[c|]|]; eauto. }
  destruct (remove_quietly_ok lp s2) as [s3 Hrm].
  rewrite (bind_ok _ _ _ _ _ Hr) in Hrest.
  fold (remove_quietly lp) in Hrest.
  rewrite (bind_ok _ _ _ _ _ Hrm) in Hrest.
  by destruct img.
Qed.

Lemma read_face_step label_id img_ref faces labels s local_path s1 img
    s2 s3 :
  storage_call (IoDownload img_ref)
    (Storage.download_to_temp storage img_ref) s = (Ok local_path, s1) →
  in_world (cv2_imread local_path) s1 = (Ok img, s2) →
  remove_quietly local_path s2 = (Ok tt, s3) →
  read_face label_id img_ref (faces, labels) s
  = (Ok (faces ++ (resize <$> option_list img),
         labels ++ replicate (length (option_list img)) label_id), s3).
Proof.
  intros Hd Hr Hrm. unfold read_face.
  rewrite (bind_ok _ _ _ _ _ Hd), (bind_ok _ _ _ _ _ Hr).
  fold (remove_quietly local_path). rewrite (bind_ok _ _ _ _ _ Hrm).
  destruct img; simpl; [done|]. by rewrite !app_nil_r.
Qed.

Lemma read_face_ok_inv label_id img_ref faces labels s acc' s' :
  read_face label_id img_ref (faces, labels) s = (Ok acc', s') →
  ∃ local_path s1 img s2,
    storage_call (IoDownload img_ref)
      (Storage.download_to_temp storage img_ref) s = (Ok local_path, s1) ∧
    in_world (cv2_imread local_path) s1 = (Ok img, s2) ∧
    remove_quietly local_path s2 = (Ok tt, s') ∧
    acc' = (faces ++ (resize <$> option_list img),
            labels ++ replicate (length (option_list img)) label_id).
Proof.
  intros Hrun.
  destruct (storage_call (IoDownload img_ref)
              (Storage.download_to_temp storage img_ref) s)
    as [[local|e] s1] eqn:Hd.
  2: { unfold read_face in Hrun.
       by rewrite (bind_raise _ _ _ _ _ Hd) in Hrun. }
  assert (∃ img s2, in_world (cv2_imread local) s1 = (Ok img, s2))
    as (img & s2 & Hr).
  { unfold in_world, cv2_imread.
    destruct (OS.node_at _ _) as [[c|]|]; eauto. }
  destruct (remove_quietly_ok local s2) as [s3 Hrm].
  rewrite (read_face_step _ _ _ _ _ _ _ _ _ _ Hd Hr Hrm) in Hrun.
  injection Hrun as <- <-. eauto 10.
Qed.

(** The image loop returns exactly when every download does, and then it
    has collected the images that decoded, resized and in order. *)
Lemma read_faces_decodings label_id images :
  ∀ faces labels s faces' labels' s',
    for_each images (faces, labels) (read_face label_id) s
    = (Ok (faces', labels'), s') ↔
    ∃ decoded,
      decodings images s decoded s' ∧
      faces' = faces ++ (resize <$> omap id decoded) ∧
      labels' = labels ++ replicate (length (omap id decoded)) label_id.
Proof.
  induction images as [|img_ref images IH];
    intros faces labels s faces' labels' s'; cbn [for_each].
  - split.
    + intros [= <- <- <-]. exists []. simpl.
      rewrite !app_nil_r. split; [constructor|done].
    + intros (decoded & Hrun & -> & ->). inversion Hrun; subst. simpl.
      by rewrite !app_nil_r.
  - split.
    + intros ([faces1 labels1] & s1 & Hstep & Hrest)%bind_ok_inv.
      apply read_face_ok_inv
        in Hstep as (local & s2 & img & s3 & Hd & Hr & Hrm & [= -> ->]).
      apply IH in Hrest as (decoded & Hrun & -> & ->).
      exists (img :: decoded). split; [by econstructor|].
      destruct img; simpl; rewrite <- !app_assoc; simpl; done.
    + intros (decoded & Hrun & -> & ->).
      inversion Hrun as [|? ? ? local s1 img s2 s3 decoded' ? Hd Hr Hrm Hrest];
        subst.
      rewrite (bind_ok _ _ _ _ _
                 (read_face_step label_id _ faces labels _ _ _ _ _ _
                    Hd Hr Hrm)).
      apply IH. exists decoded'. split; [done|].
      destruct img; simpl; rewrite <- !app_assoc; simpl; done.
Qed.

(** The reference returned by [persist_model] is the one that
    [storage.save_model] returned. *)
Lemma persist_model_ref user r s path s' :
  persist_model user r s = (Ok path, s') →
  ∃ filename model_bytes s0 w',
    Storage.save_model storage user filename model_bytes (world s0)
    = (Ok path, w') ∧
    s' = set_world w' (log_io (IoSaveModel user filename) s0).
Proof.
  unfold persist_model.
  intros (tmp & s1 & _ & (? & s2 & _ & (model_bytes & s3 & _ &
          (? & s4 & _ & (model_id & s5 & _ & Hsave)%bind_ok_inv)
          %bind_ok_inv)%bind_ok_inv)%bind_ok_inv)%bind_ok_inv.
  rewrite storage_call_world in Hsave.
  destruct (Storage.save_model _ _ _ _ _) as [r0 w'] eqn:Hs.
  simpl in Hsave. injection Hsave as -> <-. eauto 10.
Qed.

End training.

Section training_outcomes.
Context `{Vision} `{Settings}.
Import face_service.

Lemma omap_id_nil {A} (l : list (option A)) :
  omap id l = [] ↔ Forall (λ d, d = None) l.
Proof.
  induction l as [|[a|] l IH]; simpl.
  - split; [constructor|done].
  - split; [done|]. by inversion 1.
  - rewrite IH. split; [by constructor|]. by inversion 1.
Qed.

Lemma train_user_no_images user results label_id s s1 :
  storage_call (IoListUserImages user)
    (Storage.list_user_images storage user) s = (Ok [], s1) →
  train_user user (results, label_id) s
  = (Ok (<[user := "no-images"]> results, label_id), s1).
Proof. intros Hl. unfold train_user. by rewrite (bind_ok _ _ _ _ _ Hl). Qed.

Lemma train_user_with_images user results label_id s images s1 decoded s2 :
  storage_call (IoListUserImages user)
    (Storage.list_user_images storage user) s = (Ok images, s1) →
  images ≠ [] →
  decodings images s1 decoded s2 →
  train_user user (results, label_id) s
  = match omap id decoded with
    | [] => (Ok (<[user := "no-valid-images"]> results, label_id), s2)
    | imgs =>
        (let* path :=
           persist_model user
             (LBPH_train (resize <$> imgs)
                         (replicate (length imgs) label_id)) in
         ret (<[user := path]> results, label_id + 1)) s2
    end.
Proof.
  intros Hl Hne Hdec. unfold train_user.
  rewrite (bind_ok _ _ _ _ _ Hl).
  destruct images as [|img_ref images]; [done|].
  assert (Hloop : for_each (img_ref :: images) ([], []) (read_face label_id) s1
                  = (Ok (resize <$> omap id decoded,
                         replicate (length (omap id decoded)) label_id), s2)).
  { apply read_faces_decodings. by exists decoded. }
  rewrite (bind_ok _ _ _ _ _ Hloop).
  destruct (omap id decoded) as [|img imgs]; [done|].
  cbn [fmap list_fmap]. unfold persist_model, bind.
  repeat match goal with
         | |- context [match ?m ?st with _ => _ end] =>
             destruct (m st) as [[?|?] ?]; try done
         end.
Qed.

(** For a user whose images have been listed, the outcome recorded by
    the body of the training loop is ["no-images"] when the list is empty;
    with images, once each has been downloaded, read and removed, it is
    ["no-valid-images"] when none decoded, and otherwise the reference that
    [storage.save_model] returns for the model trained on the decoded
    images, the next user getting the next label.  Only the entry of that
    user is written.  An image that does not decode leaves the collected
    samples as they were, and the body of the image loop raises only what
    the download raised, never because an image does not decode. *)
Lemma train_user_outcome (user : string) (results : gmap string string)
    (label_id : nat) (s s1 : State) (images : list string) :
  storage_call (IoListUserImages user)
    (Storage.list_user_images storage user) s = (Ok images, s1) →
  (images = [] →
   train_user user (results, label_id) s
   = (Ok (<[user := "no-images"]> results, label_id), s1)) ∧
  (images ≠ [] → ∀ decoded s2, decodings images s1 decoded s2 →
     (Forall (λ d, d = None) decoded →
      train_user user (results, label_id) s
      = (Ok (<[user := "no-valid-images"]> results, label_id), s2)) ∧
     (Exists is_Some decoded →
      train_user user (results, label_id) s
      = (let* path :=
           persist_model user
             (LBPH_train (resize <$> omap id decoded)
                         (replicate (length (omap id decoded)) label_id)) in
         ret (<[user := path]> results, label_id + 1)) s2 ∧
      ∀ acc' s', train_user user (results, label_id) s = (Ok acc', s') →
        ∃ path filename model_bytes s0 w',
          Storage.save_model storage user filename model_bytes (world s0)
          = (Ok path, w') ∧
          acc' = (<[user := path]> results, label_id + 1))) ∧
  (∀ results' label_id' s' other,
     train_user user (results, label_id) s = (Ok (results', label_id'), s') →
     other ≠ user → results' !! other = results !! other) ∧
  (∀ img_ref faces labels s0 local_path s2 s3 s4,
     storage_call (IoDownload img_ref)
       (Storage.download_to_temp storage img_ref) s0 = (Ok local_path, s2) →
     in_world (cv2_imread local_path) s2 = (Ok None, s3) →
     remove_quietly local_path s3 = (Ok tt, s4) →
     read_face label_id img_ref (faces, labels) s0
     = (Ok (faces, labels), s4)) ∧
  (∀ img_ref acc s0 e s',
     read_face label_id img_ref acc s0 = (Raise e, s') →
     storage_call (IoDownload img_ref)
       (Storage.download_to_temp storage img_ref) s0 = (Raise e, s')).
Proof.
  intros Hl. split; [|split; [|split; [|split]]].
  - intros ->. by apply train_user_no_images.
  - intros Hne decoded s2 Hdec.
    pose proof (train_user_with_images user results label_id
                  _ _ _ _ _ Hl Hne Hdec) as Hrun.
    split.
    + intros Hnone%omap_id_nil. by rewrite Hnone in Hrun.
    + intros Hsome.
      destruct (omap id decoded) as [|img imgs] eqn:Homap.
      { apply omap_id_nil in Homap. apply Exists_exists in Hsome
          as (d & Hd & Hsome). rewrite Forall_forall in Homap.
        rewrite (Homap d Hd) in Hsome. by destruct Hsome. }
      split; [done|]. intros acc' s'. rewrite Hrun.
      intros (path & s3 & Hp & [= <- <-])%bind_ok_inv.
      apply persist_model_ref in Hp as (fn & mb & s0 & w' & Hsave & _).
      eauto 10.
  - intros results' label_id' s' other Hrun Hother.
    assert (Hkey : ∀ v, <[user := v]> results !! other = results !! other).
    { intros v. by apply lookup_insert_ne. }
    destruct images as [|img_ref images].
    + rewrite (train_user_no_images _ _ _ _ _ Hl) in Hrun.
      injection Hrun as <- _ _. apply Hkey.
    + unfold train_user in Hrun. rewrite (bind_ok _ _ _ _ _ Hl) in Hrun.
      apply bind_ok_inv in Hrun as ([faces labels] & s2 & _ & Hrun).
      destruct faces as [|face faces].
      * injection Hrun as <- _ _. apply Hkey.
      * repeat (apply bind_ok_inv in Hrun as (? & ? & _ & Hrun)).
        injection Hrun as <- _ _. apply Hkey.
  - intros img_ref faces labels s0 local_path s2 s3 s4 Hd Hr Hrm.
    rewrite (read_face_step _ _ _ _ _ _ _ _ _ _ Hd Hr Hrm). simpl.
    by rewrite !app_nil_r.
  - apply read_face_raise.
Qed.

(** What a run of the body of the training loop that returns has done. *)
Lemma train_user_cases user results label_id s results' label_id' s' :
  train_user user (results, label_id) s = (Ok (results', label_id'), s') →
  ∃ images s1,
    storage_call (IoListUserImages user)
      (Storage.list_user_images storage user) s = (Ok images, s1) ∧
    (images = [] → results' = <[user := "no-images"]> results) ∧
    (images ≠ [] → ∃ decoded s2,
       decodings images s1 decoded s2 ∧
       (Forall (λ d, d = None) decoded →
        results' = <[user := "no-valid-images"]> results) ∧
       (Exists is_Some decoded →
        ∃ path filename model_bytes s0 w',
          Storage.save_model storage user filename model_bytes (world s0)
          = (Ok path, w') ∧
          results' = <[user := path]> results)).
Proof.
  intros Hrun.
  destruct (storage_call (IoListUserImages user)
              (Storage.list_user_images storage user) s)
    as [[images|e] s1] eqn:Hl.
  2: { unfold train_user in Hrun. by rewrite (bind_raise _ _ _ _ _ Hl) in Hrun. }
  exists images, s1. split; [done|].
  destruct (train_user_outcome user results label_id s s1 images Hl)
    as (Hnone & Hsome & _).
  split.
  - intros Hnil. rewrite (Hnone Hnil) in Hrun. by injection Hrun as <- _ _.
  - intros Hne.
    assert (∃ faces labels s2,
              for_each images ([], []) (read_face label_id) s1
              = (Ok (faces, labels), s2)) as (faces & labels & s2 & Hloop).
    { unfold train_user in Hrun. rewrite (bind_ok _ _ _ _ _ Hl) in Hrun.
      destruct images as [|img_ref images]; [done|].
      apply bind_ok_inv in Hrun as ([faces labels] & s2 & Hloop & _).
      eauto. }
    apply read_faces_decodings in Hloop as (decoded & Hdec & _ & _).
    exists decoded, s2. split; [done|].
    destruct (Hsome Hne decoded s2 Hdec) as [Hinvalid Hvalid]. split.
    + intros Hall. rewrite (Hinvalid Hall) in Hrun.
      by injection Hrun as <- _ _.
    + intros Hex. destruct (Hvalid Hex) as [_ Hpath].
      destruct (Hpath _ _ Hrun) as (path & fn & mb & s0 & w' & Hsave & Hacc).
      injection Hacc as -> _. eauto 10.
Qed.

Lemma train_user_other user results label_id s results' label_id' s' other :
  train_user user (results, label_id) s = (Ok (results', label_id'), s') →
  other ≠ user → results' !! other = results !! other.
Proof.
  intros Hrun Hother.
  destruct (train_user_cases _ _ _ _ _ _ _ Hrun)
    as (images & s1 & Hl & _).
  destruct (train_user_outcome user results label_id s s1 images Hl)
    as (_ & _ & Hkeep & _).
  eauto.
Qed.

Lemma omap_id_Exists {A} (l : list (option A)) :
  omap id l ≠ [] ↔ Exists is_Some l.
Proof.
  rewrite omap_id_nil. split.
  - intros Hno. induction l as [|[a|] l IH].
    + by destruct Hno.
    + by left.
    + right. apply IH. intros Hall. apply Hno. by constructor.
  - intros Hex Hall. induction Hex as [x l [a ->]|x l _ IH].
    + by inversion Hall.
    + apply IH. by inversion Hall.
Qed.

(** The body of the user loop does what [user_outcome] says, and returns
    whenever those calls return. *)
Lemma train_user_user_outcome user results label_id s acc' s' :
  train_user user (results, label_id) s = (Ok acc', s') ↔
  ∃ outcome label_id',
    user_outcome user label_id s outcome label_id' s' ∧
    acc' = (<[user := outcome]> results, label_id').
Proof.
  split.
  - unfold train_user.
    intros (images & s1 & Hl & Hrest)%bind_ok_inv.
    destruct images as [|img_ref images].
    { injection Hrest as <- <-. do 2 eexists. split; [|done].
      by constructor. }
    apply bind_ok_inv in Hrest as ([faces labels] & s2 & Hloop & Hrest).
    apply read_faces_decodings in Hloop as (decoded & Hdec & -> & ->).
    simpl in Hrest.
    destruct (omap id decoded) as [|d ds] eqn:Hom.
    { injection Hrest as <- <-. do 2 eexists. split; [|done].
      eapply outcome_no_valid_images; [done..|]. by apply omap_id_nil. }
    cbn [fmap list_fmap] in Hrest.
    apply bind_ok_inv in Hrest as (tmpfile & s3 & H1 & Hrest).
    apply bind_ok_inv in Hrest as ([] & s4 & H2 & Hrest).
    apply bind_ok_inv in Hrest as (model_bytes & s5 & H3 & Hrest).
    apply bind_ok_inv in Hrest as ([] & s6 & H4 & Hrest).
    apply bind_ok_inv in Hrest as (model_id & s7 & H5 & Hrest).
    apply bind_ok_inv in Hrest as (path & s8 & H6 & [= <- <-]).
    do 2 eexists. split; [|done].
    eapply outcome_model; try done.
    + apply omap_id_Exists. by rewrite Hom.
    + by rewrite Hom.
  - intros (outcome & l' & Hout & ->).
    destruct Hout as [s1 Hl|images s1 decoded s2 Hl Hne Hdec Hall
                     |images s1 decoded s2 tmpfile s3 s4 model_bytes s5 s6
                        model_id s7 path s8 Hl Hne Hdec Hex H1 H2 H3 H4 H5 H6].
    + by apply train_user_no_images.
    + rewrite (train_user_with_images _ _ _ _ _ _ _ _ Hl Hne Hdec).
      apply omap_id_nil in Hall. by rewrite Hall.
    + rewrite (train_user_with_images _ _ _ _ _ _ _ _ Hl Hne Hdec).
      apply omap_id_Exists in Hex.
      assert (Hp : persist_model user
                     (LBPH_train (resize <$> omap id decoded)
                        (replicate (length (omap id decoded)) label_id)) s2
                   = (Ok path, s8)).
      { unfold persist_model.
        by rewrite (bind_ok _ _ _ _ _ H1), (bind_ok _ _ _ _ _ H2),
          (bind_ok _ _ _ _ _ H3), (bind_ok _ _ _ _ _ H4),
          (bind_ok _ _ _ _ _ H5). }
      destruct (omap id decoded) as [|d ds]; [done|].
      by rewrite (bind_ok _ _ _ _ _ Hp).
Qed.

(** A loop over [pre ++ x :: post] that returns has returned on [pre],
    then on [x], then on [post]. *)
Lemma for_each_app_inv {S A X} (body : X → A → M S A) pre x post :
  ∀ acc s acc' s',
    for_each (pre ++ x :: post) acc body s = (Ok acc', s') →
    ∃ acc0 s0 acc1 s1,
      for_each pre acc body s = (Ok acc0, s0) ∧
      body x acc0 s0 = (Ok acc1, s1) ∧
      for_each post acc1 body s1 = (Ok acc', s').
Proof.
  induction pre as [|y pre IH]; intros acc s acc' s'; simpl.
  - intros (acc1 & s1 & Hx & Hrest)%bind_ok_inv. eauto 10.
  - intros (acc1 & s1 & Hy & Hrest)%bind_ok_inv.
    apply IH in Hrest as (acc0 & s0 & acc2 & s2 & Hpre & Hx & Hpost).
    exists acc0, s0, acc2, s2. split; [|done].
    by rewrite (bind_ok _ _ _ _ _ Hy).
Qed.

(** The image loop raises only where a download raises. *)
Lemma read_faces_raise label_id images :
  ∀ acc s e s',
    for_each images acc (read_face label_id) s = (Raise e, s') →
    ∃ pre img_ref post acc1 s1,
      images = pre ++ img_ref :: post ∧
      for_each pre acc (read_face label_id) s = (Ok acc1, s1) ∧
      storage_call (IoDownload img_ref)
        (Storage.download_to_temp storage img_ref) s1 = (Raise e, s').
Proof.
  induction images as [|img_ref images IH]; intros acc s e s';
    cbn [for_each]; [done|].
  intros [Hhere|(acc1 & s1 & Hstep & Hrest)]%bind_raise_inv.
  - apply read_face_raise in Hhere. by exists [], img_ref, images, acc, s.
  - apply IH in Hrest as (pre & x & post & acc2 & s2 & -> & Hpre & Hd).
    exists (img_ref :: pre), x, post, acc2, s2. split; [done|].
    split; [|done]. cbn [for_each]. by rewrite (bind_ok _ _ _ _ _ Hstep).
Qed.

(** C7. When [train_all] returns, every listed user has had a turn of the
    user loop, in the state that the turns of the users before had left,
    and that turn is, call by call: the user's images are listed, and the
    outcome is ["no-images"] when the list is empty; otherwise every image
    is downloaded, read and removed in turn, an image that does not decode
    adding nothing to the samples of the others, and the outcome is
    ["no-valid-images"] when none decoded; otherwise the classifier
    trained on the decoded samples is serialised and stored with
    [storage.save_model], and the outcome is the reference that this call
    returned.  The turns of the users after, and the final rebuild, start
    from the state that the turn left, the stored model included, and the
    result has that outcome for the user (for the last turn of a user
    that is listed twice).  A turn returns whenever those calls return,
    and the image loop raises only where a download raises, never because
    an image does not decode. *)
Theorem train_all_outcomes (s s1 s' : State) (users : list string)
    (results : gmap string string) :
  list_users s = (Ok users, s1) →
  train_all s = (Ok results, s') →
  (∀ pre user post, users = pre ++ user :: post → user ∉ post →
     ∃ r label_id s_u outcome label_id' s_u' label_end s2,
       for_each pre (∅, 0) train_user s1 = (Ok (r, label_id), s_u) ∧
       user_outcome user label_id s_u outcome label_id' s_u' ∧
       for_each post (<[user := outcome]> r, label_id') train_user s_u'
       = (Ok (results, label_end), s2) ∧
       load_models_into_cache true s2 = (Ok tt, s') ∧
       results !! user = Some outcome) ∧
  (∀ user r label_id s0 acc' s0',
     train_user user (r, label_id) s0 = (Ok acc', s0') ↔
     ∃ outcome label_id',
       user_outcome user label_id s0 outcome label_id' s0' ∧
       acc' = (<[user := outcome]> r, label_id')) ∧
  (∀ label_id images acc s0 e s2,
     for_each images acc (read_face label_id) s0 = (Raise e, s2) →
     ∃ pre img_ref post acc1 s_a,
       images = pre ++ img_ref :: post ∧
       for_each pre acc (read_face label_id) s0 = (Ok acc1, s_a) ∧
       storage_call (IoDownload img_ref)
         (Storage.download_to_temp storage img_ref) s_a = (Raise e, s2)).
Proof.
  intros Hlist Hrun. split; [|split].
  - intros pre user post -> Hnotin.
    unfold train_all in Hrun. rewrite (bind_ok _ _ _ _ _ Hlist) in Hrun.
    destruct (pre ++ user :: post) as [|u0 us] eqn:Hus.
    { by destruct pre. }
    rewrite <- Hus in *. clear Hus.
    apply bind_ok_inv in Hrun as ([results0 label_end] & s2 & Hloop & Hrest).
    apply bind_ok_inv in Hrest as ([] & s3 & Hload & [= <- <-]).
    apply for_each_app_inv in Hloop
      as ([r l] & s_u & [r1 l1] & s_u' & Hpre & Hbody & Hpost).
    assert (Hfinal : results0 !! user = r1 !! user).
    { apply (for_each_invariant
               (λ (acc : gmap string string * nat) (_ : State),
                  acc.1 !! user = r1 !! user)
               train_user post) with (acc := (r1, l1)) (s := s_u')
                                     (acc' := (results0, label_end))
                                     (s' := s2);
        [|done|done].
      intros x [ra la] sa [rb lb] sb Hx Hinv Hstep. simpl in *.
      rewrite <- Hinv. eapply train_user_other; [done|].
      intros ->. done. }
    apply train_user_user_outcome in Hbody
      as (outcome & l' & Hout & [= -> ->]).
    exists r, l, s_u, outcome, l', s_u', label_end, s2.
    split; [done|]. split; [done|]. split; [done|]. split; [done|].
    rewrite Hfinal. apply lookup_insert_eq.
  - intros user r label_id s0 acc' s0'. apply train_user_user_outcome.
  - intros label_id. apply read_faces_raise.
Qed.

(** C6, amended.  [save_user_image] and [delete_user], whenever they
    return (for [delete_user], with either result), leave the loaded flag
    unset.  [train_all] returns the empty dictionary without touching the
    cache when no user is listed; with users, it ends with
    [load_models_into_cache(force=True)], run in the state that training
    has left, and the loaded flag is set when it returns. *)
Theorem mutations_invalidate_cache (s : State) :
  (∀ user file_bytes filename path s',
     save_user_image user file_bytes filename s = (Ok path, s') →
     _cache_loaded s' = false) ∧
  (∀ user ok s',
     delete_user user s = (Ok ok, s') → _cache_loaded s' = false) ∧
  (∀ users s1, list_users s = (Ok users, s1) →
     (users = [] →
      train_all s = (Ok ∅, s1) ∧
      _cache_loaded s1 = _cache_loaded s ∧
      _cached_recognizers s1 = _cached_recognizers s ∧
      _cached_label_dict s1 = _cached_label_dict s) ∧
     (users ≠ [] → ∀ results s', train_all s = (Ok results, s') →
        ∃ label_id s2,
          for_each users (∅, 0) train_user s1
          = (Ok (results, label_id), s2) ∧
          load_models_into_cache true s2 = (Ok tt, s') ∧
          _cache_loaded s' = true)).
Proof.
  split; [|split].
  - intros user file_bytes filename path s'. unfold save_user_image.
    intros (imgs & s1 & _ & (p & s2 & _ & Hrest)%bind_ok_inv)%bind_ok_inv.
    by injection Hrest as _ <-.
  - intros user ok s'. unfold delete_user.
    intros (ok' & s1 & _ & Hrest)%bind_ok_inv. by injection Hrest as _ <-.
  - intros users s1 Hlist. split.
    + intros ->. unfold train_all. rewrite (bind_ok _ _ _ _ _ Hlist).
      split; [done|]. by apply storage_call_cache in Hlist.
    + intros Hne results s'. unfold train_all.
      rewrite (bind_ok _ _ _ _ _ Hlist).
      destruct users as [|user users]; [done|].
      intros ([results' label_id] & s2 & Hloop &
              ([] & s3 & Hload & [= <- <-])%bind_ok_inv)%bind_ok_inv.
      exists label_id, s2. eauto using rebuild_loaded.
Qed.

End training_outcomes.

(** ** Names and paths *)

Section names.
Implicit Types (s t : string) (n : string) (p : Path).

Lemma string_app_cons c s t : String c s +:+ t = String c (s +:+ t).
Proof. reflexivity. Qed.

Lemma string_app_nil_r s : s +:+ "" = s.
Proof.
  induction s as [|c s IH]; [done|]. by rewrite string_app_cons, IH.
Qed.

Lemma string_app_assoc s1 s2 s3 : (s1 +:+ s2) +:+ s3 = s1 +:+ (s2 +:+ s3).
Proof.
  induction s1 as [|c s1 IH]; [done|]. by rewrite !string_app_cons, IH.
Qed.

Lemma string_length_app s t :
  String.length (s +:+ t) = String.length s + String.length t.
Proof.
  induction s as [|c s IH]; [done|]. rewrite string_app_cons. simpl.
  by rewrite IH.
Qed.

Lemma contains_app ch s t :
  PyStr.contains ch (s +:+ t) = PyStr.contains ch s || PyStr.contains ch t.
Proof.
  induction s as [|c s IH]; [done|]. rewrite string_app_cons. simpl.
  by rewrite IH, orb_assoc.
Qed.

Lemma rev_app_app s t : String.rev_app s t = String.rev_app s "" +:+ t.
Proof.
  revert t. induction s as [|c s IH]; intros t; simpl; [done|].
  rewrite IH, (IH (String c "")). by rewrite string_app_assoc.
Qed.

Lemma split_go_no_sep sep cur s :
  PyStr.contains sep s = false →
  PyStr.split_go sep cur s = [String.rev_app cur s].
Proof.
  revert cur. induction s as [|c s IH]; intros cur; simpl; [done|].
  intros [Hc Hs]%orb_false_elim. apply bool_decide_eq_false in Hc.
  rewrite decide_False by done. by rewrite IH.
Qed.

Lemma split_no_sep sep s :
  PyStr.contains sep s = false → PyStr.split sep s = [s].
Proof. intros Hs. unfold PyStr.split. by rewrite split_go_no_sep. Qed.

Lemma plain_name_spec n :
  plain_name n = true →
  PyStr.contains "/" n = false ∧ n ≠ "" ∧ n ≠ "." ∧ n ≠ "..".
Proof.
  unfold plain_name. intros [Hc Hn]%andb_true_iff.
  apply negb_true_iff in Hc. apply bool_decide_eq_true in Hn.
  split; [done|]. set_solver.
Qed.

Lemma path_parts_plain n : plain_name n = true → path_parts n = [n].
Proof.
  intros (Hc & Hn & Hd & _)%plain_name_spec. unfold path_parts.
  rewrite split_no_sep by done.
  rewrite filter_cons_True by done. by rewrite filter_nil.
Qed.

(** [p / name] appends a plain name to the components. *)
Lemma path_div_plain p n : plain_name n = true → path_div p n = p ++ [n].
Proof.
  intros Hn. unfold path_div. rewrite path_parts_plain by done.
  apply plain_name_spec in Hn as (Hc & Hn & _).
  destruct n as [|c n]; [done|]. simpl in *.
  apply orb_false_elim in Hc as [Hc _]. apply bool_decide_eq_false in Hc.
  cbn [PyStr.startswith]. by rewrite bool_decide_eq_false_2.
Qed.

Lemma resolve_snoc p n : n ≠ ".." → resolve (p ++ [n]) = resolve p ++ [n].
Proof.
  intros Hn. unfold resolve. rewrite fold_left_app. simpl.
  by rewrite decide_False.
Qed.

Lemma resolve_plain p : plain_path p = true → resolve p = p.
Proof.
  induction p as [|n p IH] using rev_ind; [done|].
  unfold plain_path. rewrite forallb_app. simpl.
  intros [Hp [Hn _]%andb_true_iff]%andb_true_iff.
  apply plain_name_spec in Hn as (_ & _ & _ & Hn).
  rewrite resolve_snoc by done. by rewrite IH.
Qed.

Lemma plain_path_snoc p n :
  plain_path p = true → plain_name n = true → plain_path (p ++ [n]) = true.
Proof.
  intros Hp Hn. unfold plain_path in *. rewrite forallb_app. simpl.
  by rewrite Hp, Hn.
Qed.

End names.

(** ** The local disk *)

Section disk_facts.
Import Storage.
Implicit Types (d : gmap Path fnode) (p q dir : Path) (n : string).

Lemma child_name_spec dir k n : OS.child_name dir k = Some n ↔ k = dir ++ [n].
Proof.
  unfold OS.child_name. split.
  - destruct (reverse k) as [|n' r] eqn:Hk; [done|].
    case_decide as Hd; [|done]. by intros [= <-].
  - intros ->. rewrite reverse_app. simpl. by rewrite decide_True.
Qed.

Lemma elem_of_children d dir n :
  n ∈ OS.children d dir ↔ is_Some (d !! (dir ++ [n])).
Proof.
  unfold OS.children. rewrite list_elem_of_omap. split.
  - intros ([k x] & Hin & Hk). apply elem_of_map_to_list in Hin.
    apply child_name_spec in Hk. simpl in Hk. subst k. eauto.
  - intros [x Hx]. exists (dir ++ [n], x). split.
    + by apply elem_of_map_to_list.
    + by apply child_name_spec.
Qed.

Lemma NoDup_children d dir : NoDup (OS.children d dir).
Proof.
  unfold OS.children.
  pose proof (NoDup_fst_map_to_list d) as Hnd.
  induction (map_to_list d) as [|[k x] l IH]; simpl; [constructor|].
  apply NoDup_cons in Hnd as [Hk Hnd].
  destruct (OS.child_name dir k) as [n|] eqn:Hn; simpl; [|by apply IH].
  constructor; [|by apply IH].
  rewrite list_elem_of_omap. intros ([k' x'] & Hin & Hk').
  apply child_name_spec in Hn, Hk'. simpl in *. subst.
  apply Hk. apply list_elem_of_fmap. by exists (dir ++ [n], x').
Qed.

(** Two disks with the same entries in a directory list the same names,
    possibly in another order. *)
Lemma children_perm d d' dir :
  (∀ n, is_Some (d !! (dir ++ [n])) ↔ is_Some (d' !! (dir ++ [n]))) →
  OS.children d dir ≡ₚ OS.children d' dir.
Proof.
  intros Hsame. apply NoDup_Permutation; auto using NoDup_children.
  intros n. by rewrite !elem_of_children.
Qed.

Lemma sorted_perm (l l' : list string) : l ≡ₚ l' → sorted l = sorted l'.
Proof.
  intros Hp. unfold sorted.
  apply (Sorted_unique String.le); try apply Sorted_merge_sort; try apply _.
  by rewrite !merge_sort_Permutation.
Qed.

Lemma sorted_paths_children p (names : list string) :
  sorted_paths ((λ n, p ++ [n]) <$> names)
  = (λ n, p ++ [n]) <$> sorted names.
Proof.
  assert (Hnames : path_name <$> ((λ n, p ++ [n]) <$> names) = names).
  { rewrite <- list_fmap_compose. rewrite <- (list_fmap_id names) at 2.
    apply list_fmap_ext. intros i x _. unfold path_name. simpl.
    apply last_last. }
  unfold sorted_paths. rewrite Hnames.
  destruct names as [|n0 names0]; [done|].
  cbn [fmap list_fmap]. by rewrite removelast_last.
Qed.

Lemma prefix_snoc_ne (base p : Path) (u v : string) :
  u ≠ v → (base ++ [v]) `prefix_of` p → ¬ (base ++ [u]) `prefix_of` p.
Proof.
  intros Hne Hv Hu.
  destruct (prefix_weak_total _ _ _ Hu Hv) as [H1|H1].
  - apply prefix_length_eq in H1; [|by rewrite !length_app].
    apply app_inj_tail in H1 as [_ ?]. done.
  - apply prefix_length_eq in H1; [|by rewrite !length_app].
    apply app_inj_tail in H1 as [_ ?]. done.
Qed.

End disk_facts.

Section mkdir_facts.
Implicit Types (d : gmap Path fnode) (p q cur : Path).

(** [mkdir] keeps what is on the disk. *)
Lemma mkdir_go_preserves rest : ∀ d cur d' p x,
  OS.mkdir_go d cur rest = Ok d' → d !! p = Some x → d' !! p = Some x.
Proof.
  induction rest as [|c rest IH]; intros d cur d' p x; simpl.
  - by intros [= <-].
  - destruct (d !! (cur ++ [c])) as [[content|]|] eqn:Hc; [done|eauto|].
    intros Hgo Hp. eapply IH; [done|].
    rewrite lookup_insert_ne; [done|]. intros <-. congruence.
Qed.

(** What [mkdir] adds is a directory on the way to its target. *)
Lemma mkdir_go_new rest : ∀ d cur d' p,
  OS.mkdir_go d cur rest = Ok d' → d !! p = None →
  d' !! p = None ∨
  (d' !! p = Some FDir ∧ p `prefix_of` cur ++ rest ∧ length cur < length p).
Proof.
  induction rest as [|c rest IH]; intros d cur d' p; simpl.
  - intros [= <-]. by left.
  - destruct (d !! (cur ++ [c])) as [[content|]|] eqn:Hc; [done|..].
    + intros Hgo Hp. destruct (IH _ _ _ _ Hgo Hp) as [?|(? & Hpre & Hlen)];
        [by left|right].
      rewrite <- app_assoc in Hpre. rewrite length_app in Hlen. simpl in *.
      split; [done|]. split; [done|lia].
    + intros Hgo Hp. destruct (decide (p = cur ++ [c])) as [->|Hne].
      * right. split; [|split].
        -- eapply mkdir_go_preserves; [done|]. apply lookup_insert_eq.
        -- replace (cur ++ c :: rest) with ((cur ++ [c]) ++ rest)
             by (by rewrite <- app_assoc).
           by apply prefix_app_r.
        -- rewrite length_app. simpl. lia.
      * assert (Hp' : <[cur ++ [c] := FDir]> d !! p = None)
          by (by rewrite lookup_insert_ne).
        destruct (IH _ _ _ _ Hgo Hp') as [?|(? & Hpre & Hlen)];
          [by left|right].
        rewrite <- app_assoc in Hpre. rewrite length_app in Hlen.
        simpl in *. split; [done|]. split; [done|lia].
Qed.

(** After [mkdir], the target and the directories on the way exist. *)
Lemma mkdir_go_dirs rest : ∀ d cur d' k,
  OS.mkdir_go d cur rest = Ok d' → 0 < k ≤ length rest →
  d' !! (cur ++ take k rest) = Some FDir.
Proof.
  induction rest as [|c rest IH]; intros d cur d' k; simpl; [lia|].
  intros Hgo Hk.
  assert (Hhead : ∀ d0, OS.mkdir_go d0 (cur ++ [c]) rest = Ok d' →
                        d0 !! (cur ++ [c]) = Some FDir →
                        d' !! (cur ++ take k (c :: rest)) = Some FDir).
  { intros d0 Hgo0 Hc0. destruct k as [|[|k]]; [lia|..].
    - simpl. rewrite take_0. eauto using mkdir_go_preserves.
    - simpl.
      replace (cur ++ c :: take (S k) rest)
        with ((cur ++ [c]) ++ take (S k) rest) by (by rewrite <- app_assoc).
      eapply IH; [done|]. simpl in Hk. lia. }
  destruct (d !! (cur ++ [c])) as [[content|]|] eqn:Hc; [done|eauto|].
  eapply Hhead; [done|]. apply lookup_insert_eq.
Qed.

(** [mkdir] succeeds when no file is in the way. *)
Lemma mkdir_go_ok rest : ∀ d cur,
  (∀ k content, 0 < k ≤ length rest →
                d !! (cur ++ take k rest) ≠ Some (FFile content)) →
  ∃ d', OS.mkdir_go d cur rest = Ok d'.
Proof.
  induction rest as [|c rest IH]; intros d cur Hfree; simpl; [eauto|].
  assert (Hrest : ∀ d0,
            (∀ p, p ≠ cur ++ [c] → d0 !! p = d !! p) →
            ∀ k content, 0 < k ≤ length rest →
              d0 !! ((cur ++ [c]) ++ take k rest) ≠ Some (FFile content)).
  { intros d0 Hd0 k content Hk. rewrite Hd0.
    - rewrite <- app_assoc. apply (Hfree (S k)). simpl. lia.
    - intros Heq. apply (f_equal length) in Heq.
      rewrite !length_app, length_take in Heq. simpl in Heq. lia. }
  destruct (d !! (cur ++ [c])) as [[content|]|] eqn:Hc.
  - destruct (Hfree 1 content); [simpl; lia|]. simpl. by rewrite take_0.
  - apply IH, Hrest. done.
  - apply IH, Hrest. intros p Hp. by apply lookup_insert_ne.
Qed.

Lemma mkdir_go_file_at rest d cur d' p :
  OS.mkdir_go d cur rest = Ok d' → file_at d' p = file_at d p.
Proof.
  intros Hgo. unfold file_at. destruct (d !! p) as [x|] eqn:Hp.
  - by rewrite (mkdir_go_preserves _ _ _ _ _ _ Hgo Hp).
  - by destruct (mkdir_go_new _ _ _ _ _ Hgo Hp) as [->|[-> _]].
Qed.

End mkdir_facts.

(** ** The local back end *)

Section local_storage.
Import Storage.
Variable base : Path.
Implicit Types (d : gmap Path fnode) (p q : Path) (w : World).

Lemma list_user_images_eval user w :
  LocalStorage.list_user_images base user w
  = let user_dir := path_div base user in
    match OS.node_at (disk w) user_dir with
    | None => (Ok [], w)
    | Some (FFile _) => (Raise NotADirectoryError, w)
    | Some FDir =>
        (Ok (path_str <$>
             filter (λ p, image_suffix (PyStr.lower (path_suffix p)))
               ((λ n, user_dir ++ [n]) <$>
                sorted (OS.children (disk w) (resolve user_dir)))), w)
    end.
Proof.
  unfold LocalStorage.list_user_images, bind, OS.path_exists, OS.iterdir, ret.
  destruct (OS.node_at (disk w) (path_div base user)) as [[c|]|] eqn:Hn;
    simpl; rewrite ?Hn; try done.
  by rewrite sorted_paths_children.
Qed.

Lemma node_at_ext d d' p :
  (∀ p', resolve p `prefix_of` p' → d' !! p' = d !! p') →
  OS.node_at d' p = OS.node_at d p.
Proof.
  intros Hsame. unfold OS.node_at. destruct (resolve p) eqn:Hp; [done|].
  by apply Hsame.
Qed.

(** The listing of a user depends on that user's directory only. *)
Lemma list_user_images_ext user w w' :
  (∀ p, resolve (path_div base user) `prefix_of` p →
        disk w' !! p = disk w !! p) →
  (LocalStorage.list_user_images base user w').1
  = (LocalStorage.list_user_images base user w).1.
Proof.
  intros Hsame. rewrite !list_user_images_eval. simpl.
  rewrite (node_at_ext (disk w) (disk w')) by done.
  destruct (OS.node_at (disk w) (path_div base user)) as [[c|]|]; try done.
  simpl. do 4 f_equal. apply sorted_perm, children_perm.
  intros n. rewrite Hsame; [done|]. by apply prefix_app_r.
Qed.

Lemma user_dir_plain user :
  plain_path base = true → plain_name user = true →
  path_div base user = base ++ [user] ∧
  resolve (path_div base user) = base ++ [user].
Proof.
  intros Hb Hu. rewrite path_div_plain by done. split; [done|].
  apply resolve_plain. by apply plain_path_snoc.
Qed.

(** What [delete_user] leaves of the disk. *)
Lemma delete_user_disk user w r w' p :
  LocalStorage.delete_user base user w = (r, w') →
  ¬ resolve (path_div base user) `prefix_of` p →
  disk w' !! p = disk w !! p.
Proof.
  unfold LocalStorage.delete_user, bind, OS.path_exists, OS.rmtree, ret.
  destruct (OS.node_at (disk w) (path_div base user)) as [[c|]|] eqn:Hn;
    simpl; rewrite ?Hn.
  1,3: by intros [= _ <-].
  intros [= _ <-] Hp. simpl.
  rewrite map_lookup_filter. destruct (disk w !! p) as [x|]; [|done].
  simpl. by rewrite option_guard_True.
Qed.

(** What [save_image] leaves of the disk: it adds directories on the way
    to the user's directory, and writes one file. *)
Lemma save_image_disk user filename content w r w' :
  LocalStorage.save_image base user filename content w = (r, w') →
  let user_dir := path_div base user in
  let target := resolve (path_div user_dir filename) in
  (∀ p, p ≠ target → file_at (disk w') p = file_at (disk w) p) ∧
  (∀ p, p ≠ target → ¬ p `prefix_of` resolve user_dir →
        disk w' !! p = disk w !! p).
Proof.
  unfold LocalStorage.save_image, bind, OS.mkdir_parents, OS.write_bytes, ret.
  destruct (OS.mkdir_go (disk w) [] (resolve (path_div base user)))
    as [d1|e] eqn:Hmk.
  2: { by intros [= _ <-]. }
  simpl.
  assert (Hother : ∀ p, ¬ p `prefix_of` resolve (path_div base user) →
                        d1 !! p = disk w !! p).
  { intros p Hp. destruct (disk w !! p) as [x|] eqn:Hx.
    - eauto using mkdir_go_preserves.
    - by destruct (mkdir_go_new _ _ _ _ _ Hmk Hx) as [?|(_ & ? & _)]. }
  pose proof (λ p, mkdir_go_file_at _ _ _ _ p Hmk) as Hfiles.
  destruct (OS.node_at d1 (removelast _)) as [[c|]|];
    [|destruct (OS.node_at d1 (resolve _)) as [[c|]|]|].
  all: intros [= _ <-]; simpl; split; intros p Hp; try intros Hpre.
  all: unfold file_at; rewrite ?lookup_insert_ne by done.
  all: try apply Hfiles; by apply Hother.
Qed.

End local_storage.

Section local_frame.
Import Storage.

(** C10, amended.  On the local back end, for names that are single path
    components: whatever [delete_user(u)] returns, every entry of the disk
    under the directory of another user [v] (the images, and the models
    under [trainer]) is as before, and so is the image list of [v];
    whatever [save_image(u, filename, content)] returns, the only file
    whose content can differ is [base / u / filename], every entry under
    the directory of another user is as before, and so is that user's
    image list. *)
Theorem local_storage_frame (base : Path) (u v filename : string)
    (content : bytes) (w : World) :
  plain_path base = true → plain_name u = true → plain_name v = true →
  u ≠ v →
  (∀ r w', LocalStorage.delete_user base u w = (r, w') →
     (∀ p, (base ++ [v]) `prefix_of` p → disk w' !! p = disk w !! p) ∧
     (LocalStorage.list_user_images base v w').1
     = (LocalStorage.list_user_images base v w).1) ∧
  (plain_name filename = true →
   ∀ r w', LocalStorage.save_image base u filename content w = (r, w') →
     (∀ p, p ≠ base ++ [u; filename] →
           file_at (disk w') p = file_at (disk w) p) ∧
     (∀ p, (base ++ [v]) `prefix_of` p → disk w' !! p = disk w !! p) ∧
     (LocalStorage.list_user_images base v w').1
     = (LocalStorage.list_user_images base v w).1).
Proof.
  intros Hbase Hu Hv Hne.
  destruct (user_dir_plain base u Hbase Hu) as [Hdu Hru].
  destruct (user_dir_plain base v Hbase Hv) as [Hdv Hrv].
  split.
  - intros r w' Hdel.
    assert (Hframe : ∀ p, (base ++ [v]) `prefix_of` p →
                          disk w' !! p = disk w !! p).
    { intros p Hp. eapply delete_user_disk; [done|].
      rewrite Hru. by apply prefix_snoc_ne with v. }
    split; [done|]. apply list_user_images_ext. by rewrite Hrv.
  - intros Hfn r w' Hsave.
    destruct (save_image_disk base u filename content w r w' Hsave)
      as [Hfiles Hother].
    assert (Htarget : resolve (path_div (path_div base u) filename)
                      = base ++ [u; filename]).
    { rewrite Hdu, path_div_plain by done. rewrite <- app_assoc. simpl.
      apply resolve_plain.
      replace (base ++ [u; filename]) with ((base ++ [u]) ++ [filename])
        by (by rewrite <- app_assoc).
      by repeat apply plain_path_snoc. }
    rewrite Htarget in Hfiles, Hother. rewrite Hru in Hother.
    assert (Hframe : ∀ p, (base ++ [v]) `prefix_of` p →
                          disk w' !! p = disk w !! p).
    { intros p Hp. apply Hother.
      - intros ->. apply (prefix_snoc_ne base _ u v Hne Hp).
        replace (base ++ [u; filename]) with ((base ++ [u]) ++ [filename])
          by (by rewrite <- app_assoc).
        by apply prefix_app_r.
      - intros Hpu. assert (Hvu : (base ++ [v]) `prefix_of` base ++ [u])
          by (by etrans).
        apply prefix_length_eq in Hvu; [|by rewrite !length_app].
        apply app_inj_tail in Hvu as [_ ?]. done. }
    split; [done|]. split; [done|].
    apply list_user_images_ext. by rewrite Hrv.
Qed.

End local_frame.

(** ** Image file names *)

Section image_names.
Import face_service.

Lemma pretty_N_char_no_sep (x : N) (ch : ascii) :
  ch = "/"%char ∨ ch = "."%char → pretty_N_char x ≠ ch.
Proof.
  intros [-> | ->]; unfold pretty_N_char; by repeat case_match.
Qed.

Lemma pretty_N_go_contains (ch : ascii) (x : N) (s : string) :
  ch = "/"%char ∨ ch = "."%char →
  PyStr.contains ch (pretty_N_go x s) = PyStr.contains ch s.
Proof.
  intros Hch. revert s.
  induction (N.lt_wf_0 x) as [x _ IH]; intros s.
  assert (x = 0 ∨ 0 < x)%N as [->|Hx] by lia.
  - by rewrite pretty_N_go_0.
  - rewrite pretty_N_go_step by done. rewrite IH by (by apply N.div_lt).
    simpl. rewrite bool_decide_eq_false_2; [done|].
    by apply pretty_N_char_no_sep.
Qed.

Lemma pretty_nat_contains (ch : ascii) (n : nat) :
  ch = "/"%char ∨ ch = "."%char → PyStr.contains ch (pretty n) = false.
Proof.
  intros Hch. unfold pretty, pretty_nat, pretty, pretty_N.
  case_decide.
  - by destruct Hch as [-> | ->].
  - by rewrite pretty_N_go_contains.
Qed.

Lemma string_app_inj_r (s1 s2 t : string) : s1 +:+ t = s2 +:+ t → s1 = s2.
Proof.
  revert s2. induction s1 as [|c s1 IH]; intros [|c2 s2] Heq; [done|..].
  - apply (f_equal String.length) in Heq.
    rewrite !string_length_app in Heq. simpl in Heq. lia.
  - apply (f_equal String.length) in Heq.
    rewrite !string_length_app in Heq. simpl in Heq. lia.
  - rewrite !string_app_cons in Heq. injection Heq as -> Heq.
    f_equal. by apply IH.
Qed.

Lemma next_image_filename_inj i j :
  _next_image_filename i = _next_image_filename j → i = j.
Proof.
  unfold _next_image_filename. intros Heq.
  apply (inj (String.app "img")) in Heq.
  apply string_app_inj_r in Heq. apply (inj pretty) in Heq. lia.
Qed.

Lemma next_image_filename_plain i :
  plain_name (_next_image_filename i) = true.
Proof.
  unfold plain_name, _next_image_filename.
  rewrite !contains_app, pretty_nat_contains by auto. done.
Qed.

Lemma rfind_dot_jpg (s : string) :
  PyStr.rfind_dot (s +:+ ".jpg") = Some (String.length s).
Proof.
  induction s as [|c s IH]; [done|].
  rewrite string_app_cons. simpl. by rewrite IH.
Qed.

Lemma drop_app_length (s t : string) :
  PyStr.drop (String.length s) (s +:+ t) = t.
Proof. induction s as [|c s IH]; [by destruct t|]. done. Qed.

Lemma next_image_filename_suffix i :
  name_suffix (_next_image_filename i) = ".jpg".
Proof.
  unfold _next_image_filename, name_suffix.
  rewrite <- string_app_assoc, rfind_dot_jpg.
  rewrite (string_length_app _ ".jpg"), drop_app_length.
  rewrite string_length_app. simpl.
  replace (_ <? _) with true; [done|].
  symmetry. apply Nat.ltb_lt. lia.
Qed.

Lemma StronglySorted_filter {A} (R : relation A) (P : A → Prop)
    `{∀ x, Decision (P x)} (l : list A) :
  StronglySorted R l → StronglySorted R (filter P l).
Proof.
  induction 1 as [|x l Hl IH Hx]; [constructor|].
  rewrite filter_cons. case_decide; [|done].
  constructor; [done|]. apply Forall_forall. intros y Hy.
  apply list_elem_of_filter in Hy as [_ Hy].
  rewrite Forall_forall in Hx. by apply Hx.
Qed.

(** Filtering a sorted list and sorting a filtered list agree. *)
Lemma filter_sorted (P : string → Prop) `{∀ x, Decision (P x)}
    (l : list string) :
  filter P (Storage.sorted l) = Storage.sorted (filter P l).
Proof.
  apply (Sorted_unique String.le).
  - apply StronglySorted_Sorted, StronglySorted_filter.
    apply StronglySorted_merge_sort; apply _.
  - apply Sorted_merge_sort. apply _.
  - unfold Storage.sorted. by rewrite !merge_sort_Permutation.
Qed.

End image_names.

(** ** Enrolment on the local back end *)

Section local_enrolment.
Import Storage.
Variables (base : Path) (user : string).
Hypothesis Hbase : plain_path base = true.
Hypothesis Huser : plain_name user = true.
Implicit Types (d : gmap Path fnode) (w : World).

Lemma dir_path_spec d p :
  dir_path d p = true ↔
  ∀ n, 0 < n ≤ length p → d !! take n p = Some FDir.
Proof.
  unfold dir_path. rewrite forallb_forall. split.
  - intros Hall n Hn. specialize (Hall n).
    destruct (d !! take n p) as [[c|]|]; try done.
    all: exfalso; apply diff_false_true; apply Hall; apply in_seq; lia.
  - intros Hall n Hn%in_seq. rewrite Hall by lia. done.
Qed.

Lemma node_at_user_dir d :
  OS.node_at d (path_div base user) = d !! (base ++ [user]).
Proof.
  destruct (user_dir_plain base user Hbase Huser) as [Hd Hr].
  unfold OS.node_at. rewrite Hr.
  destruct (base ++ [user]) eqn:E; [|done].
  by apply app_eq_nil in E as [_ ?].
Qed.

(** The image list of the user, by the names in the directory. *)
Lemma list_user_images_names w :
  LocalStorage.list_user_images base user w
  = match disk w !! (base ++ [user]) with
    | None => (Ok [], w)
    | Some (FFile _) => (Raise NotADirectoryError, w)
    | Some FDir =>
        (Ok ((λ n, path_str (base ++ [user; n])) <$>
             sorted (filter (λ n, is_image_name n = true)
                            (OS.children (disk w) (base ++ [user])))), w)
    end.
Proof.
  rewrite list_user_images_eval. cbv zeta. rewrite node_at_user_dir.
  destruct (user_dir_plain base user Hbase Huser) as [-> ->].
  destruct (disk w !! (base ++ [user])) as [[c|]|]; try done.
  f_equal. f_equal. rewrite <- filter_sorted.
  induction (sorted (OS.children (disk w) (base ++ [user]))) as [|n l IH];
    [done|].
  cbn [fmap list_fmap]. rewrite !filter_cons.
  assert (Hsfx : path_suffix ((base ++ [user]) ++ [n]) = name_suffix n).
  { unfold path_suffix, path_name. by rewrite last_last. }
  rewrite Hsfx. fold (is_image_name n).
  destruct (is_image_name n) eqn:Hn.
  - rewrite !decide_True by done. cbn [fmap list_fmap].
    rewrite <- app_assoc. simpl. f_equal. apply IH.
  - rewrite (decide_False (P:=Is_true false)) by (by intros []).
    rewrite decide_False by done. apply IH.
Qed.

Lemma enrolled_count k w :
  enrolled base user k (disk w) →
  ∃ imgs, LocalStorage.list_user_images base user w = (Ok imgs, w) ∧
          length imgs = k.
Proof.
  intros [Hdir Himgs]. rewrite list_user_images_names.
  destruct Hdir as [-> | [-> Hnone]].
  - eexists. split; [done|]. rewrite length_fmap.
    unfold sorted. rewrite merge_sort_Permutation, Himgs.
    by rewrite length_fmap, length_seq.
  - exists []. split; [done|]. rewrite Hnone in Himgs.
    apply Permutation_length in Himgs.
    by rewrite length_fmap, length_seq in Himgs.
Qed.

(** Saving under a new plain name creates the user's directory if
    needed, adds the file, and changes nothing else below [base]. *)
Lemma save_image_new fname content w :
  plain_name fname = true →
  dir_path (disk w) base = true →
  disk w !! (base ++ [user]) = Some FDir ∨
    disk w !! (base ++ [user]) = None →
  disk w !! (base ++ [user; fname]) = None →
  ∃ w',
    LocalStorage.save_image base user fname content w
    = (Ok (path_str (base ++ [user; fname])), w') ∧
    disk w' !! (base ++ [user]) = Some FDir ∧
    disk w' !! (base ++ [user; fname]) = Some (FFile content) ∧
    dir_path (disk w') base = true ∧
    ∀ n, n ≠ fname →
         disk w' !! (base ++ [user; n]) = disk w !! (base ++ [user; n]).
Proof.
  intros Hf Hdirs Hud Hnew.
  destruct (user_dir_plain base user Hbase Huser) as [Hd Hr].
  assert (Htarget : path_div (base ++ [user]) fname = base ++ [user; fname])
    by (by rewrite path_div_plain, <- app_assoc).
  assert (Hrt : resolve (base ++ [user; fname]) = base ++ [user; fname]).
  { apply resolve_plain.
    replace (base ++ [user; fname]) with ((base ++ [user]) ++ [fname])
      by (by rewrite <- app_assoc).
    by repeat apply plain_path_snoc. }
  rewrite dir_path_spec in Hdirs.
  destruct (mkdir_go_ok (base ++ [user]) (disk w) []) as [d1 Hmk].
  { intros k c Hk. rewrite length_app in Hk. simpl in *.
    destruct (decide (k ≤ length base)) as [Hle|Hgt].
    - rewrite take_app_le by done. rewrite Hdirs by lia. done.
    - rewrite take_ge by (rewrite length_app; simpl; lia).
      by destruct Hud as [-> | ->]. }
  assert (Hud1 : d1 !! (base ++ [user]) = Some FDir).
  { pose proof (mkdir_go_dirs _ _ _ _ (length (base ++ [user])) Hmk)
      as Hk. simpl in Hk. rewrite firstn_all in Hk. apply Hk.
    rewrite length_app. simpl. lia. }
  assert (Hkeep : ∀ p, ¬ p `prefix_of` base ++ [user] →
                       d1 !! p = disk w !! p).
  { intros p Hp. destruct (disk w !! p) as [x|] eqn:Hx.
    - eauto using mkdir_go_preserves.
    - by destruct (mkdir_go_new _ _ _ _ _ Hmk Hx) as [?|(_ & ? & _)]. }
  assert (Hnotpre : ∀ n, ¬ (base ++ [user; n]) `prefix_of` base ++ [user]).
  { intros n Hpre%prefix_length. rewrite !length_app in Hpre.
    simpl in Hpre. lia. }
  exists (set_disk (<[base ++ [user; fname] := FFile content]> d1)
                   (set_disk d1 w)).
  split; [|split; [|split; [|split]]].
  - unfold LocalStorage.save_image, bind, OS.mkdir_parents, OS.write_bytes.
    rewrite Hd in Hr |- *. rewrite Hr, Hmk, Htarget, Hrt. simpl.
    replace (removelast (base ++ [user; fname])) with (base ++ [user]).
    2: { replace (base ++ [user; fname]) with ((base ++ [user]) ++ [fname])
           by (by rewrite <- app_assoc). by rewrite removelast_last. }
    unfold OS.node_at. rewrite Hrt, Hr.
    assert (Hne1 : base ++ [user] ≠ []) by (by destruct base).
    assert (Hne2 : base ++ [user; fname] ≠ []) by (by destruct base).
    destruct (base ++ [user]) eqn:E1; [done|]. rewrite Hud1.
    destruct (base ++ [user; fname]) eqn:E2; [done|].
    rewrite <- E2 in *. rewrite Hkeep, Hnew by apply Hnotpre. done.
  - simpl. rewrite lookup_insert_ne; [done|].
    intros Heq%(f_equal length). rewrite !length_app in Heq.
    simpl in Heq. lia.
  - simpl. apply lookup_insert_eq.
  - apply dir_path_spec. intros n Hn. simpl.
    rewrite lookup_insert_ne.
    + eapply mkdir_go_preserves; [done|]. by apply Hdirs.
    + intros Heq%(f_equal length).
      rewrite !length_app, length_take in Heq. simpl in Heq. lia.
  - intros n Hn. simpl. rewrite lookup_insert_ne.
    + apply Hkeep, Hnotpre.
    + intros Heq%app_inv_head. congruence.
Qed.

End local_enrolment.

Section enrolment_numbering.
Context `{Vision}.
Import Storage face_service.
Variables (base : Path) (threshold : pyfloat) (user : string).
Hypothesis Hbase : plain_path base = true.
Hypothesis Huser : plain_name user = true.
Local Abbreviation settings := (local_settings base threshold).

Lemma user_dir_snoc (n : string) :
  (base ++ [user]) ++ [n] = base ++ [user; n].
Proof. by rewrite <- app_assoc. Qed.

Lemma enrolled_free k d :
  enrolled base user k d →
  d !! (base ++ [user; _next_image_filename k]) = None.
Proof.
  intros [Hdir Himgs].
  destruct (d !! (base ++ [user; _next_image_filename k])) as [x|] eqn:Hx;
    [exfalso|done].
  assert (Hin : _next_image_filename k ∈ OS.children d (base ++ [user])).
  { apply elem_of_children. rewrite user_dir_snoc. eauto. }
  destruct Hdir as [_ | [_ Hnil]]; [|rewrite Hnil in Hin; set_solver].
  assert (Himg : _next_image_filename k
                 ∈ filter (λ n, is_image_name n = true)
                          (OS.children d (base ++ [user]))).
  { apply list_elem_of_filter. split; [|done]. unfold is_image_name.
    by rewrite next_image_filename_suffix. }
  rewrite Himgs in Himg. apply list_elem_of_fmap in Himg as (i & Hi & Hseq).
  apply next_image_filename_inj in Hi as <-.
  apply elem_of_seq in Hseq. lia.
Qed.

(** One enrolment adds the image with the next number. *)
Lemma save_user_image_enrols k content s :
  dir_path (disk (world s)) base = true →
  enrolled base user k (disk (world s)) →
  ∃ s',
    @save_user_image _ settings user content None s
    = (Ok (path_str (base ++ [user; _next_image_filename k])), s') ∧
    enrolled base user (S k) (disk (world s')) ∧
    dir_path (disk (world s')) base = true.
Proof.
  intros Hdirs Henr.
  destruct (enrolled_count base user Hbase Huser k (world s) Henr)
    as (imgs & Hlist & Hlen).
  pose proof (enrolled_free k _ Henr) as Hfree.
  destruct (save_image_new base user Hbase Huser
              (_next_image_filename k) content (world s))
    as (w' & Hsave & Hud & Hfile & Hdirs' & Hkeep);
    [apply next_image_filename_plain|done| |done|].
  { destruct Henr as [[?|[? _]] _]; auto. }
  exists (set_cache_loaded false
            (set_world w' (log_io (IoSaveImage user (_next_image_filename k))
               (set_world (world s) (log_io (IoListUserImages user) s))))).
  split; [|split; [|done]].
  - unfold save_user_image.
    erewrite bind_ok;
      [|rewrite storage_call_world; simpl; by rewrite Hlist].
    rewrite Hlen.
    erewrite bind_ok;
      [|rewrite storage_call_world; simpl; by rewrite Hsave].
    done.
  - simpl. split; [by left|].
    assert (Hperm : OS.children (disk w') (base ++ [user])
                    ≡ₚ _next_image_filename k
                       :: OS.children (disk (world s)) (base ++ [user])).
    { apply NoDup_Permutation.
      - apply NoDup_children.
      - constructor; [|apply NoDup_children].
        rewrite elem_of_children, user_dir_snoc, Hfree.
        by intros [? ?].
      - intros n. rewrite elem_of_cons, !elem_of_children, !user_dir_snoc.
        destruct (decide (n = _next_image_filename k)) as [->|Hn].
        + rewrite Hfile. split; eauto.
        + rewrite Hkeep by done. split; [eauto|]. by intros [?|?]. }
    rewrite Hperm, filter_cons_True.
    2: { unfold is_image_name. by rewrite next_image_filename_suffix. }
    destruct Henr as [_ ->].
    rewrite seq_S, fmap_app. simpl.
    by rewrite (Permutation_app_comm _ [_]).
Qed.

Lemma save_images_enrols contents : ∀ k s,
  dir_path (disk (world s)) base = true →
  enrolled base user k (disk (world s)) →
  ∃ s',
    @save_images _ settings user contents s
    = (Ok ((λ n, path_str (base ++ [user; n])) <$>
           (_next_image_filename <$> seq k (length contents))), s') ∧
    enrolled base user (k + length contents) (disk (world s')).
Proof.
  induction contents as [|c cs IH]; intros k s Hdirs Henr.
  - exists s. simpl. by rewrite Nat.add_0_r.
  - destruct (save_user_image_enrols k c s Hdirs Henr)
      as (s1 & Hsave & Henr1 & Hdirs1).
    destruct (IH (S k) s1 Hdirs1 Henr1) as (s' & Hrest & Henr').
    exists s'. split.
    + cbn [save_images]. rewrite (bind_ok _ _ _ _ _ Hsave).
      rewrite (bind_ok _ _ _ _ _ Hrest). done.
    + simpl. by replace (k + S (length cs)) with (S k + length cs) by lia.
Qed.

Lemma wf_disk_spec d p x :
  wf_disk d = true → d !! p = Some x →
  removelast p = [] ∨ d !! removelast p = Some FDir.
Proof.
  unfold wf_disk. rewrite forallb_forall. intros Hwf Hp.
  specialize (Hwf (p, x)). simpl in Hwf.
  destruct (removelast p) as [|c q] eqn:Hq; [by left|right].
  destruct (d !! (c :: q)) as [[?|]|]; try done.
  all: exfalso; apply diff_false_true, Hwf; apply list_elem_of_In;
    by apply elem_of_map_to_list.
Qed.

Lemma not_enrolled d w :
  d = disk w →
  wf_disk d = true →
  LocalStorage.list_user_images base user w = (Ok [], w) →
  enrolled base user 0 d.
Proof.
  intros -> Hwf. rewrite (list_user_images_names base user Hbase Huser).
  destruct (disk w !! (base ++ [user])) as [[c|]|] eqn:Hud; [done|..].
  - intros [= Hnil]. split; [by left|]. simpl.
    apply fmap_nil_inv in Hnil.
    pose proof (merge_sort_Permutation String.le
                  (filter (λ n, is_image_name n = true)
                          (OS.children (disk w) (base ++ [user])))) as Hp.
    unfold sorted in Hnil. rewrite Hnil in Hp. by symmetry.
  - intros _.
    assert (Hnone : OS.children (disk w) (base ++ [user]) = []).
    { apply elem_of_nil_inv. intros n [x Hx]%elem_of_children.
      destruct (wf_disk_spec _ _ _ Hwf Hx) as [Hr|Hr];
        rewrite removelast_last in Hr.
      - by apply app_eq_nil in Hr as [_ ?].
      - congruence. }
    split; [by right|]. by rewrite Hnone.
Qed.

(** C8, amended.  On the local back end, for a user and a base directory
    made of plain names, on a well-formed disk where the user has no
    image: successive saves without a file name return, and the [n]-th
    returns the path of [img{n}.jpg] in the user's directory; afterwards
    [list_user_images] has as many entries as there were saves, namely
    those paths sorted by name as strings (so in the order of the saves
    only as far as that order agrees). *)
Theorem enrolment_numbering (contents : list bytes) (s : State) :
  dir_path (disk (world s)) base = true →
  wf_disk (disk (world s)) = true →
  LocalStorage.list_user_images base user (world s) = (Ok [], world s) →
  let N := length contents in
  let path_of n := path_str (base ++ [user; n]) in
  ∃ s' listing,
    @save_images _ settings user contents s
    = (Ok (path_of <$> (_next_image_filename <$> seq 0 N)), s') ∧
    LocalStorage.list_user_images base user (world s')
    = (Ok listing, world s') ∧
    length listing = N ∧
    listing = path_of <$> sorted (_next_image_filename <$> seq 0 N) ∧
    listing ≡ₚ path_of <$> (_next_image_filename <$> seq 0 N).
Proof.
  intros Hdirs Hwf Hlist N path_of.
  pose proof (not_enrolled _ _ eq_refl Hwf Hlist) as Henr.
  destruct (save_images_enrols contents 0 s Hdirs Henr)
    as (s' & Hsave & Henr').
  simpl in Henr'. fold N in Henr'.
  destruct (enrolled_count base user Hbase Huser N (world s') Henr')
    as (listing & Hlisting & Hlen).
  exists s', listing. split; [done|]. split; [done|]. split; [done|].
  rewrite (list_user_images_names base user Hbase Huser) in Hlisting.
  destruct Henr' as [Hdir Himgs].
  assert (Hsorted : listing
                    = path_of <$> sorted (_next_image_filename <$> seq 0 N)).
  { destruct (disk (world s') !! (base ++ [user])) as [[c|]|] eqn:Hud.
    - done.
    - injection Hlisting as <-. f_equal. by apply sorted_perm.
    - injection Hlisting as <-. destruct Hdir as [?|[_ Hnil]]; [done|].
      rewrite Hnil in Himgs. simpl in Himgs.
      apply Permutation_nil_l in Himgs. by rewrite <- Himgs. }
  split; [done|]. rewrite Hsorted. unfold sorted.
  by rewrite merge_sort_Permutation.
Qed.

End enrolment_numbering.

(** * The service on concrete stores *)

Section scenarios.
Import Storage face_service.
#[local] Existing Instance toy.vision.

Local Abbreviation bob_img1 := (toy.base ++ ["bob"; "img1.jpg"]).

(** A probe one unit away from alice's classifier is accepted as alice,
    with confidence 1. *)
Lemma recognize_accepts_lowest_confidence_witness :
  ∃ out,
    @recognize_image_bytes toy.vision toy.on_disk (toy.photo Byte.x0b)
      toy.loaded_state = (Ok out, toy.loaded_state) ∧
    confidence out = Some (FFin 1) ∧
    (found out = true ↔ float_lt (FFin 1) default_threshold = true) ∧
    (found out = true → user out = Some "alice").
Proof.
  destruct (@recognize_accepts_lowest_confidence toy.vision toy.on_disk
              (toy.photo Byte.x0b) (toy.photo Byte.x0b)
              toy.loaded_state toy.loaded_state eq_refl eq_refl)
    as (out & face & r & label & pl & c & Hrun & Hface & Hr & Hp
        & Hmin & Hconf & Hfound & Huser).
  { exists (mkRect 0 0 1 1), (toy.photo Byte.x0a), 0, 0%Z, (FFin 1).
    repeat split; try reflexivity; apply list_elem_of_here. }
  apply list_elem_of_singleton in Hface, Hr.
  injection Hr as -> ->. subst face.
  injection Hp as <- <-.
  exists out. repeat split; try done; apply Hfound.
Defined.

(** C2, counterexample: with a cache that is not loaded and a blob
    service that cannot be reached, [recognize_image_bytes] raises the
    storage error instead of returning a record. *)
Lemma recognize_raises_when_storage_fails :
  (@recognize_image_bytes toy.vision toy.on_azure (toy.photo Byte.x0a)
     (initial_state toy.offline_world)).1
  = Raise TransientIOError.
Proof. vm_compute. reflexivity. Qed.

(** With a loaded cache, bytes that do not decode give the
    ["invalid-image"] record. *)
Lemma recognize_structured_outcome_witness :
  ∃ out,
    @recognize_image_bytes toy.vision toy.on_disk toy.garbage
      toy.loaded_state = (Ok out, toy.loaded_state) ∧
    out = mkOutcome false None None None (Some "invalid-image").
Proof.
  destruct (proj2 (@recognize_structured_outcome toy.vision toy.on_disk
                     toy.garbage toy.loaded_state)
              toy.loaded_state None eq_refl eq_refl)
    as (out & Hrun & Hbad & _).
  exists out. split; [exact Hrun|]. apply Hbad. reflexivity.
Defined.

(** A loaded cache is left alone. *)
Lemma rebuild_noop_when_loaded_witness :
  @load_models_into_cache toy.vision toy.on_disk false toy.loaded_state
  = (Ok tt, toy.loaded_state).
Proof.
  apply (proj1 (@rebuild_noop_when_loaded toy.vision toy.on_disk
                  toy.loaded_state)).
  reflexivity.
Defined.

(** A rebuild over one model that does not deserialise and one that
    does. *)
Lemma rebuild_skips_failed_entries_witness :
  let models := [("alice", "/srv/dataset/alice/trainer/bad.yml");
                 ("bob", "/srv/dataset/bob/trainer/good.yml")] in
  let s := initial_state toy.models_world in
  ∃ kept s2 s',
    @loaded_from toy.vision toy.on_disk models
      (set_world toy.models_world (log_io IoListModels s)) kept s2 ∧
    @load_models_into_cache toy.vision toy.on_disk true s = (Ok tt, s') ∧
    _cached_recognizers s' = cache_of kept ∧
    (∀ l, _cached_label_dict s' !! l = fst <$> kept !! l) ∧
    _cache_loaded s' = true ∧
    world s' = world s2 ∧
    io_log s' = io_log s2.
Proof.
  intros models s.
  apply (@rebuild_skips_failed_entries toy.vision toy.on_disk true s
           models toy.models_world (or_intror eq_refl)
           ltac:(vm_compute; reflexivity)).
Defined.

(** There, the one classifier that loads gets label 0, for bob. *)
Lemma cache_labels_dense_witness :
  ∃ s' kept,
    @load_models_into_cache toy.vision toy.on_disk true
      (initial_state toy.models_world) = (Ok tt, s') ∧
    kept `sublist_of` [("alice", "/srv/dataset/alice/trainer/bad.yml");
                       ("bob", "/srv/dataset/bob/trainer/good.yml")] ∧
    length (_cached_recognizers s') = length kept ∧
    (∀ i r l, _cached_recognizers s' !! i = Some (r, l) → l = i) ∧
    (∀ l, is_Some (_cached_label_dict s' !! l) ↔ l < length kept) ∧
    (∀ i, _cached_label_dict s' !! i = fst <$> kept !! i).
Proof.
  apply (@cache_labels_dense toy.vision toy.on_disk true
           (initial_state toy.models_world)
           [("alice", "/srv/dataset/alice/trainer/bad.yml");
            ("bob", "/srv/dataset/bob/trainer/good.yml")]
           toy.models_world (or_intror eq_refl)
           ltac:(vm_compute; reflexivity)).
Defined.

(** C6, counterexample: on an empty store, in a process that has not
    loaded its cache, [train_all] returns the empty dictionary and the
    cache is still not loaded. *)
Lemma train_all_without_users_leaves_cache_unloaded :
  let run := @train_all toy.vision toy.on_disk
               (initial_state toy.empty_world) in
  run.1 = Ok ∅ ∧ _cache_loaded run.2 = false.
Proof. vm_compute. split; reflexivity. Qed.

(** Saving a first image for alice leaves the loaded flag unset. *)
Lemma mutations_invalidate_cache_witness :
  _cache_loaded
    (@save_user_image toy.vision toy.on_disk "alice" (toy.photo Byte.x0a)
       None toy.loaded_state).2 = false.
Proof.
  apply (proj1 (@mutations_invalidate_cache toy.vision toy.on_disk
                  toy.loaded_state)
           "alice" (toy.photo Byte.x0a) None "/srv/dataset/alice/img1.jpg").
  vm_compute. reflexivity.
Defined.

(** Training on a data set where alice has a photo and a file that does
    not decode, and bob has a photo: what the theorem says of alice, whose
    turn is the first. *)
Lemma train_all_outcomes_witness :
  let s := initial_state toy.photos_world in
  let s1 := (@list_users toy.vision toy.on_disk s).2 in
  let run := @train_all toy.vision toy.on_disk s in
  let results : gmap string string :=
    match run.1 with
    | Ok r => r
    | Raise _ => ∅
    end in
  ∃ r label_id s_u outcome label_id' s_u' label_end s2,
    for_each [] (∅, 0) (@train_user toy.vision toy.on_disk) s1
    = (Ok (r, label_id), s_u) ∧
    @user_outcome toy.vision toy.on_disk "alice" label_id s_u outcome
      label_id' s_u' ∧
    for_each ["bob"] (<["alice" := outcome]> r, label_id')
      (@train_user toy.vision toy.on_disk) s_u'
    = (Ok (results, label_end), s2) ∧
    @load_models_into_cache toy.vision toy.on_disk true s2
    = (Ok tt, run.2) ∧
    results !! "alice" = Some outcome.
Proof.
  intros s s1 run results.
  apply (proj1 (@train_all_outcomes toy.vision toy.on_disk s s1 run.2
                  ["alice"; "bob"] results
                  ltac:(vm_compute; reflexivity)
                  ltac:(vm_compute; reflexivity))
           [] "alice" ["bob"] eq_refl).
  apply (bool_decide_unpack _). vm_compute. exact I.
Defined.

(** There, alice's outcome is the reference of her new model, and the
    file that does not decode did no harm. *)
Lemma train_all_skips_undecodable_image :
  let run := @train_all toy.vision toy.on_disk
               (initial_state toy.photos_world) in
  ∃ results,
    run.1 = Ok results ∧
    results !! "alice"
    = Some "/srv/dataset/alice/trainer/alice_trainer_000000000000.yml".
Proof. vm_compute. eexists. split; reflexivity. Qed.

(** C8, counterexample: after ten saves for alice, the second entry of
    the listing is the tenth image saved, not the second. *)
Lemma listing_order_is_not_save_order :
  let run := @save_images toy.vision toy.on_disk "alice"
               (replicate 10 (toy.photo Byte.x01))
               (initial_state toy.empty_world) in
  let listed := LocalStorage.list_user_images toy.base "alice"
                  (world run.2) in
  ∃ paths listing,
    run.1 = Ok paths ∧ listed.1 = Ok listing ∧
    paths !! 1 = Some "/srv/dataset/alice/img2.jpg" ∧
    listing !! 1 = Some "/srv/dataset/alice/img10.jpg" ∧
    listing ≠ paths.
Proof.
  vm_compute. eexists _, _.
  split; [reflexivity|]. split; [reflexivity|].
  split; [reflexivity|]. split; [reflexivity|]. discriminate.
Qed.

(** Two saves for alice on the empty data set. *)
Lemma enrolment_numbering_witness :
  let contents := [toy.photo Byte.x01; toy.photo Byte.x02] in
  let path_of n := path_str (toy.base ++ ["alice"; n]) in
  ∃ s' listing,
    @save_images toy.vision toy.on_disk "alice" contents
      (initial_state toy.empty_world)
    = (Ok (path_of <$> (_next_image_filename <$> seq 0 2)), s') ∧
    LocalStorage.list_user_images toy.base "alice" (world s')
    = (Ok listing, world s') ∧
    length listing = 2 ∧
    listing = path_of <$> sorted (_next_image_filename <$> seq 0 2) ∧
    listing ≡ₚ path_of <$> (_next_image_filename <$> seq 0 2).
Proof.
  apply (@enrolment_numbering toy.vision toy.base default_threshold "alice"
           eq_refl eq_refl
           [toy.photo Byte.x01; toy.photo Byte.x02]
           (initial_state toy.empty_world)
           ltac:(vm_compute; reflexivity) ltac:(vm_compute; reflexivity)
           ltac:(vm_compute; reflexivity)).
Defined.

(** C9, the failing input: a rebuild on the blob back end over one model
    that does not deserialise returns, and the temporary file that
    [download_to_temp] made for it is still on the disk. *)
Lemma rebuild_leaves_temp_file_of_bad_model :
  let s := initial_state toy.bad_blob_world in
  let run := @load_models_into_cache toy.vision toy.on_azure true s in
  run.1 = Ok tt ∧
  OS.temp_files (world s) = [] ∧
  OS.temp_files (world run.2) = [["tmp"; "tmp0.yml"]].
Proof. vm_compute. repeat split; reflexivity. Qed.

(** On the same back end a model that deserialises leaves no temporary
    file behind. *)
Lemma rebuild_removes_temp_file_of_good_model :
  let w := mkWorld toy.empty_disk 0
             {[("faces", "bob/trainer/bob_trainer_ok.yml")
               := Byte.x4d :: toy.photo Byte.x0b]} [] [] in
  let run := @load_models_into_cache toy.vision toy.on_azure true
               (initial_state w) in
  run.1 = Ok tt ∧
  length (_cached_recognizers run.2) = 1 ∧
  OS.temp_files (world run.2) = [].
Proof. vm_compute. repeat split; reflexivity. Qed.

(** The numbers restart once the user has been deleted: the image saved
    after [delete_user] gets the name of the one saved before. *)
Lemma numbering_restarts_after_delete_user :
  let s0 := initial_state toy.empty_world in
  let first := @save_user_image toy.vision toy.on_disk "alice"
                 (toy.photo Byte.x01) None s0 in
  let gone := @delete_user toy.vision toy.on_disk "alice" first.2 in
  let second := @save_user_image toy.vision toy.on_disk "alice"
                  (toy.photo Byte.x02) None gone.2 in
  first.1 = Ok "/srv/dataset/alice/img1.jpg" ∧
  gone.1 = Ok true ∧
  second.1 = Ok "/srv/dataset/alice/img1.jpg".
Proof. vm_compute. repeat split; reflexivity. Qed.

(** C10, counterexample: saving for alice under a file name that climbs
    out of her directory replaces bob's image. *)
Lemma save_image_can_overwrite_another_user :
  let run := LocalStorage.save_image toy.base "alice" "../bob/img1.jpg"
               toy.garbage toy.photos_world in
  run.1 = Ok "/srv/dataset/alice/../bob/img1.jpg" ∧
  file_at (disk toy.photos_world) bob_img1 = Some (toy.photo Byte.x0b) ∧
  file_at (disk run.2) bob_img1 = Some toy.garbage.
Proof. vm_compute. repeat split; reflexivity. Qed.

(** Deleting alice leaves bob's image list as it was. *)
Lemma local_storage_frame_witness :
  let run := LocalStorage.delete_user toy.base "alice" toy.photos_world in
  (LocalStorage.list_user_images toy.base "bob" run.2).1
  = (LocalStorage.list_user_images toy.base "bob" toy.photos_world).1.
Proof.
  intros run.
  apply (proj1 (@local_storage_frame toy.base "alice" "bob" "img2.jpg"
                  toy.garbage toy.photos_world eq_refl eq_refl eq_refl
                  ltac:(discriminate))
           run.1 run.2 (surjective_pairing run)).
Defined.

End scenarios.

(** * Further properties of the service *)

Section service_extras.
Context `{Vision}.
Import face_service.

(** X6. The acceptance threshold is monotone: with the same store, state and
    probe, a probe that is accepted under a threshold is accepted, with the
    same record, under every threshold that is not lower. *)
Theorem recognize_threshold_monotone (st : Storage.StorageBackend)
    (t1 t2 : pyfloat) (img_bytes : bytes) (s s1 : State) (out : outcome) :
  float_le t1 t2 →
  @recognize_image_bytes _ {| storage := st; CONFIDENCE_THRESHOLD := t1 |}
    img_bytes s = (Ok out, s1) →
  found out = true →
  @recognize_image_bytes _ {| storage := st; CONFIDENCE_THRESHOLD := t2 |}
    img_bytes s = (Ok out, s1).
Proof.
  intros Hle. unfold recognize_image_bytes.
  intros (u & s0 & Hload & Hrest)%bind_ok_inv Hfound.
  assert (Hload2 :
            @load_models_into_cache _
              {| storage := st; CONFIDENCE_THRESHOLD := t2 |} false s
            = (Ok u, s0)) by exact Hload.
  rewrite (bind_ok _ _ _ _ _ Hload2). clear Hload Hload2.
  destruct (imdecode_color img_bytes) as [[img|]|e]; [|done..].
  destruct (detectMultiScale (cvtColor_gray img)) as [|face faces]; [done|].
  revert Hrest. unfold bind, get.
  destruct (_cached_recognizers s0) as [|rec recs]; [done|].
  destruct (best_match _ _ _) as [[label|] c]; cbn [best_label best_confidence];
    [|done].
  cbn [CONFIDENCE_THRESHOLD].
  destruct (float_lt c t1) eqn:Hc.
  - assert (float_lt c t2 = true) as ->; [|done].
    destruct Hle as [Hlt| <-]; [|done]. eauto using float_lt_trans.
  - intros [= <- <-]. done.
Qed.

(** X7. A forced rebuild does not look at the cache it replaces: whatever the
    cache held, the result is the same, and so is the state afterwards when
    the rebuild returns; when listing the models raises, the cache is left
    as it was. *)
Theorem forced_rebuild_ignores_old_cache `{Settings}
    (rs : list (recognizer * nat)) (dict : gmap nat string) (loaded : bool)
    (s : State) :
  load_models_into_cache true (with_cache rs dict loaded s)
  = let '(r, s') := load_models_into_cache true s in
    (r, match r with
        | Ok _ => s'
        | Raise _ => with_cache rs dict loaded s'
        end).
Proof.
  assert (Hstore : ∀ {A} ev (m : M World A) s0 r s0',
            storage_call ev m s0 = (r, s0') →
            storage_call ev m (with_cache rs dict loaded s0)
            = (r, with_cache rs dict loaded s0')).
  { intros A ev m s0 r s0'. rewrite !storage_call_world. simpl.
    by intros [= <- <-]. }
  assert (Hworld : ∀ {A} (m : M World A) s0 r s0',
            in_world m s0 = (r, s0') →
            in_world m (with_cache rs dict loaded s0)
            = (r, with_cache rs dict loaded s0')).
  { intros A m s0 r s0'. unfold in_world. simpl.
    destruct (m (world s0)) as [r0 w]. by intros [= <- <-]. }
  assert (Hone : ∀ entry acc s0 r s0',
            load_model entry acc s0 = (r, s0') →
            load_model entry acc (with_cache rs dict loaded s0)
            = (r, with_cache rs dict loaded s0')).
  { intros [user model_ref] [[rs0 d0] l0] s0 r s0'.
    unfold load_model, try_except at 1 3, bind at 1 4.
    destruct (storage_call _ _ s0) as [[lp|e] sa] eqn:Hd;
      rewrite (Hstore _ _ _ _ _ _ Hd); [|by intros [= <- <-]].
    unfold bind at 1 3.
    destruct (in_world (recognizer_read lp) sa) as [[r0|e] sb] eqn:Hr;
      rewrite (Hworld _ _ _ _ _ Hr); [|by intros [= <- <-]].
    unfold bind, try_except.
    destruct (in_world (OS.remove lp) sb) as [[[]|e] sc] eqn:Hrm;
      rewrite (Hworld _ _ _ _ _ Hrm); by intros [= <- <-]. }
  assert (Hloop : ∀ models acc s0 r s0',
            for_each models acc load_model s0 = (r, s0') →
            for_each models acc load_model (with_cache rs dict loaded s0)
            = (r, with_cache rs dict loaded s0')).
  { induction models as [|entry models IH]; intros acc s0 r s0';
      cbn [for_each].
    - by intros [= <- <-].
    - unfold bind.
      destruct (load_model entry acc s0) as [[acc1|e] sa] eqn:Hm;
        rewrite (Hone _ _ _ _ _ Hm); [apply IH|by intros [= <- <-]]. }
  rewrite !rebuild_unfold by auto. unfold bind at 1 3.
  destruct (storage_call IoListModels _ s) as [[models|e] sa] eqn:Hl;
    rewrite (Hstore _ _ _ _ _ _ Hl); [|done].
  unfold bind.
  destruct (for_each models _ load_model sa) as [[[[rs1 d1] l1]|e] sb] eqn:Hm;
    rewrite (Hloop _ _ _ _ _ Hm); done.
Qed.

Lemma train_user_inserts `{Settings} user results label_id s acc' s' :
  train_user user (results, label_id) s = (Ok acc', s') →
  ∃ entry, acc'.1 = <[user := entry]> results ∧
           (acc'.2 = label_id ∨ acc'.2 = label_id + 1).
Proof.
  unfold train_user.
  intros (images & s1 & _ & Hrest)%bind_ok_inv.
  destruct images as [|img_ref images].
  { injection Hrest as <- _. eauto. }
  apply bind_ok_inv in Hrest as ([faces labels] & s2 & _ & Hrest).
  destruct faces as [|face faces].
  { injection Hrest as <- _. eauto. }
  repeat (apply bind_ok_inv in Hrest as (? & ? & _ & Hrest)).
  injection Hrest as <- _. eauto.
Qed.

Lemma train_loop_keys `{Settings} users :
  ∀ results label_id s acc' s',
    for_each users (results, label_id) train_user s = (Ok acc', s') →
    (∀ user, is_Some (acc'.1 !! user)
             ↔ is_Some (results !! user) ∨ user ∈ users) ∧
    label_id ≤ acc'.2 ≤ label_id + length users.
Proof.
  induction users as [|u users IH]; intros results label_id s acc' s';
    cbn [for_each].
  - intros [= <- <-]. simpl. split; [|lia].
    intros user. rewrite elem_of_nil. tauto.
  - intros ([r1 l1] & s1 & Hu & Hrest)%bind_ok_inv.
    apply train_user_inserts in Hu as (entry & Hr1 & Hl1). simpl in Hr1, Hl1.
    apply IH in Hrest as [Hkeys Hlabels]. subst r1. split.
    + intros user. rewrite Hkeys, elem_of_cons.
      destruct (decide (user = u)) as [->|Hne].
      * rewrite lookup_insert_eq. split; [intros _; by right; left|eauto].
      * rewrite lookup_insert_ne by done. tauto.
    + cbn [length]. lia.
Qed.

(** X8. The dictionary that [train_all] returns has an entry for every user
    that [list_users] listed and for nobody else. *)
Theorem train_all_result_keys `{Settings} (s s1 s' : State)
    (users : list string) (results : gmap string string) :
  list_users s = (Ok users, s1) →
  train_all s = (Ok results, s') →
  ∀ user, is_Some (results !! user) ↔ user ∈ users.
Proof.
  intros Hl. unfold train_all. rewrite (bind_ok _ _ _ _ _ Hl).
  destruct users as [|u users].
  { intros [= <- _] user. rewrite lookup_empty, elem_of_nil.
    split; [by intros []|done]. }
  intros ([r l] & s2 & Hloop & Hrest)%bind_ok_inv.
  apply bind_ok_inv in Hrest as (? & ? & _ & [= <- _]).
  apply train_loop_keys in Hloop as [Hkeys _]. simpl in Hkeys.
  intros user. rewrite Hkeys, lookup_empty. split; [|eauto].
  by intros [[]|].
Qed.

End service_extras.

(** * The request handlers *)

Lemma lower_char_space c : PyStr.lower_char c = " "%char → c = " "%char.
Proof.
  destruct c as [[] [] [] [] [] [] [] []]; vm_compute; congruence.
Qed.

Lemma lower_app s1 s2 :
  PyStr.lower (s1 +:+ s2) = PyStr.lower s1 +:+ PyStr.lower s2.
Proof.
  induction s1 as [|c s1 IH]; [done|].
  rewrite string_app_cons. simpl. by rewrite IH, string_app_cons.
Qed.

Lemma lower_space_free s :
  PyStr.contains " " (PyStr.lower s) = false → PyStr.contains " " s = false.
Proof.
  induction s as [|c s IH]; [done|]. simpl.
  intros [Hc Hs]%orb_false_elim. rewrite (IH Hs), orb_false_r.
  apply bool_decide_eq_false_2. intros ->.
  by apply bool_decide_eq_false_1 in Hc.
Qed.

Lemma split1_go_first sep cur scheme rest :
  PyStr.contains sep scheme = false →
  PyStr.split1_go sep cur (scheme +:+ String sep rest)
  = Some (String.rev_app cur scheme, rest).
Proof.
  revert cur. induction scheme as [|c scheme IH]; intros cur; simpl.
  - intros _. by rewrite decide_True.
  - intros [Hc Hs]%orb_false_elim. apply bool_decide_eq_false_1 in Hc.
    rewrite ?string_app_cons. simpl. rewrite decide_False by done.
    by rewrite (IH _ Hs).
Qed.

Lemma startswith_app s pre :
  PyStr.startswith s pre = true ↔ ∃ rest, s = pre +:+ rest.
Proof.
  revert s. induction pre as [|a pre IH]; intros s; simpl.
  - split; [eauto|]. by destruct s.
  - destruct s as [|c s]. { split; [done|]. by intros [rest ?]. }
    cbn [PyStr.startswith].
    rewrite andb_true_iff, bool_decide_eq_true, IH. split.
    + intros [-> [rest ->]]. by exists rest.
    + intros [rest Heq]. rewrite string_app_cons in Heq.
      injection Heq as -> ->. eauto.
Qed.

Lemma lower_app_inv s a b :
  PyStr.lower s = a +:+ b →
  ∃ s1 s2, s = s1 +:+ s2 ∧ PyStr.lower s1 = a ∧ PyStr.lower s2 = b.
Proof.
  revert s. induction a as [|c a IH]; intros s.
  - intros Hs. by exists "", s.
  - rewrite string_app_cons. destruct s as [|d s]; [done|]. simpl.
    intros [= Hd (s1 & s2 & -> & <- & <-)%IH].
    exists (String d s1), s2. by rewrite string_app_cons, <- Hd.
Qed.

Section handler_properties.
Context `{Vision} `{Settings}.
Variable ADMIN_TOKEN : string.
Import face_service.

Lemma bad_bearer_spec (authorization : string) :
  ∃ rejected,
    main.bad_bearer ADMIN_TOKEN authorization = Some rejected ∧
    (rejected = false ↔ presents_token ADMIN_TOKEN authorization).
Proof.
  unfold main.bad_bearer, presents_token.
  destruct (PyStr.startswith (PyStr.lower authorization) "bearer ") eqn:Hpre;
    simpl.
  - apply startswith_app in Hpre as [rest Hlow].
    change ("bearer " +:+ rest) with ("bearer" +:+ (" " +:+ rest)) in Hlow.
    apply lower_app_inv in Hlow as (scheme & tail & -> & Hscheme & Htail).
    destruct tail as [|c tail]; [done|]. injection Htail as Hc _.
    apply lower_char_space in Hc as ->.
    assert (Hfree : PyStr.contains " " scheme = false).
    { apply lower_space_free. by rewrite Hscheme. }
    unfold PyStr.split1. rewrite (split1_go_first _ _ _ _ Hfree). simpl.
    eexists. split; [done|]. rewrite negb_false_iff, bool_decide_eq_true.
    split.
    + intros ->. by exists scheme.
    + intros (scheme' & Hscheme' & Heq).
      assert (Hfree' : PyStr.contains " " scheme' = false).
      { apply lower_space_free. by rewrite Hscheme'. }
      pose proof (split1_go_first " " "" scheme tail Hfree) as H1.
      rewrite Heq in H1.
      change (" " +:+ ADMIN_TOKEN) with (String " " ADMIN_TOKEN) in H1.
      rewrite (split1_go_first _ _ _ _ Hfree') in H1. by injection H1.
  - exists true. split; [done|]. split; [done|].
    intros (scheme & Hscheme & ->). exfalso.
    rewrite lower_app, Hscheme in Hpre.
    apply not_true_iff_false in Hpre. apply Hpre, startswith_app.
    by exists (PyStr.lower ADMIN_TOKEN).
Qed.

(** X1. The bearer check of the handlers never fails on its subscript, and it
    lets a header through exactly when the header is the word ["bearer"] in
    any letter case, one space and the administrator token. *)
Theorem bearer_check (authorization : string) :
  ∃ rejected,
    main.bad_bearer ADMIN_TOKEN authorization = Some rejected ∧
    (rejected = false ↔ presents_token ADMIN_TOKEN authorization).
Proof. apply bad_bearer_spec. Qed.

Lemma presents_token_nonempty : ¬ presents_token ADMIN_TOKEN "".
Proof. intros (scheme & Hs & Heq). by destruct scheme. Qed.

Lemma rejects_unless_bearer_spec authorization :
  ∃ rejected,
    main.rejects_unless_bearer ADMIN_TOKEN authorization = Some rejected ∧
    (rejected = false
     ↔ ∃ a, authorization = Some a ∧ presents_token ADMIN_TOKEN a).
Proof.
  destruct authorization as [[|c a]|].
  - exists true. split; [done|]. split; [done|].
    intros (a & [= <-] & []%presents_token_nonempty).
  - destruct (bad_bearer_spec (String c a)) as (b & Hb & Hiff).
    exists b. split; [done|]. rewrite Hiff. split; [eauto|].
    by intros (? & [= <-] & ?).
  - exists true. split; [done|]. split; [done|]. by intros (a & [=] & _).
Qed.

Lemma rejects_if_present_spec authorization :
  ∃ rejected,
    main.rejects_if_present ADMIN_TOKEN authorization = Some rejected ∧
    (rejected = true
     ↔ ∃ a, authorization = Some a ∧ a ≠ "" ∧
            ¬ presents_token ADMIN_TOKEN a).
Proof.
  destruct authorization as [[|c a]|].
  - exists false. split; [done|]. split; [done|]. by intros (a & [= <-] & ? & _).
  - destruct (bad_bearer_spec (String c a)) as (b & Hb & Hiff).
    exists b. split; [done|]. split.
    + intros ->. exists (String c a). split; [done|]. split; [done|].
      by intros ?%Hiff.
    + intros (? & [= <-] & _ & Hno). destruct b; [done|].
      destruct Hno. by apply Hiff.
  - exists false. split; [done|]. split; [done|]. by intros (a & [=] & _).
Qed.

(** X2. [/train] answers 401, and leaves the state as it is, unless the request
    carries the bearer header with the administrator token: a request
    without the header is rejected.  With the token, the answer is the
    result of [train_all], and an exception of [train_all] comes out as a
    500 that carries it. *)
Theorem api_train_requires_token (authorization : option string)
    (s : State) :
  let '(r, s') := main.api_train ADMIN_TOKEN authorization s in
  (r = main.unauthorized ∧ s' = s ∧
   ∀ a, authorization = Some a → ¬ presents_token ADMIN_TOKEN a) ∨
  ((∃ a, authorization = Some a ∧ presents_token ADMIN_TOKEN a) ∧
   ((∃ results, train_all s = (Ok results, s') ∧
                r = main.Respond 200 (main.BodyTrained results)) ∨
    (∃ e, train_all s = (Raise e, s') ∧
          r = main.HTTPException 500 (main.DetailStr e)))).
Proof.
  unfold main.api_train.
  destruct (rejects_unless_bearer_spec authorization) as (b & -> & Hiff).
  destruct b.
  - left. split; [done|]. split; [done|]. intros a -> Htok.
    by assert (true = false) by (apply Hiff; eauto).
  - destruct (train_all s) as [[results|e] s']; right;
      (split; [by apply Hiff|]); eauto.
Qed.

(** X3. [/add-user] asks for no credentials: it answers 401, leaving the state
    as it is, only to a header that is present, not empty and wrong.
    Otherwise it answers 201 with the reference of the saved image, after a
    rebuild that leaves the cache loaded, or 500 with the exception of the
    save or of the rebuild; in the latter case the image has been saved.
    No exception of the service leaves the handler. *)
Theorem api_add_user_outcomes (username : string) (content : bytes)
    (authorization : option string) (s : State) :
  let '(r, s') :=
    main.api_add_user ADMIN_TOKEN username content authorization s in
  (r = main.unauthorized ∧ s' = s ∧
   ∃ a, authorization = Some a ∧ a ≠ "" ∧ ¬ presents_token ADMIN_TOKEN a) ∨
  (∃ saved s1,
     save_user_image username content None s = (Ok saved, s1) ∧
     force_reload_cache s1 = (Ok tt, s') ∧
     r = main.Respond 201 (main.BodySaved saved) ∧
     _cache_loaded s' = true) ∨
  (∃ e, r = main.HTTPException 500 (main.DetailStr e) ∧
        (save_user_image username content None s = (Raise e, s') ∨
         ∃ saved s1,
           save_user_image username content None s = (Ok saved, s1) ∧
           force_reload_cache s1 = (Raise e, s'))).
Proof.
  unfold main.api_add_user.
  destruct (rejects_if_present_spec authorization) as (b & -> & Hiff).
  destruct b.
  { left. split; [done|]. split; [done|]. by apply Hiff. }
  unfold bind at 1.
  destruct (save_user_image username content None s) as [[saved|e] s1];
    [|right; right; eauto].
  unfold bind, ret.
  destruct (force_reload_cache s1) as [[[]|e] s'] eqn:Hre; right.
  - left. exists saved, s1. eauto using rebuild_loaded.
  - right. exists e. split; [done|]. right. eauto.
Qed.

(** X4. [/users/{username}] answers 401 only to a header that is present, not
    empty and wrong.  Otherwise it answers 404 when the store had nothing
    to delete, and then the cache is left flagged as stale, and 200 after a
    deletion and a rebuild that leaves the cache loaded; an exception of
    the deletion or of the rebuild leaves the handler. *)
Theorem api_delete_user_outcomes (username : string)
    (authorization : option string) (s : State) :
  let '(r, s') := main.api_delete_user ADMIN_TOKEN username authorization s in
  (r = main.unauthorized ∧ s' = s ∧
   ∃ a, authorization = Some a ∧ a ≠ "" ∧ ¬ presents_token ADMIN_TOKEN a) ∨
  (delete_user username s = (Ok false, s') ∧
   r = main.HTTPException 404 (main.DetailText "User not found") ∧
   _cache_loaded s' = false) ∨
  (∃ s1, delete_user username s = (Ok true, s1) ∧
         force_reload_cache s1 = (Ok tt, s') ∧
         r = main.Respond 200 (main.BodyDeleted username) ∧
         _cache_loaded s' = true) ∨
  (∃ e, r = main.Escapes e ∧
        (delete_user username s = (Raise e, s') ∨
         ∃ s1, delete_user username s = (Ok true, s1) ∧
               force_reload_cache s1 = (Raise e, s'))).
Proof.
  unfold main.api_delete_user.
  destruct (rejects_if_present_spec authorization) as (b & -> & Hiff).
  destruct b.
  { left. split; [done|]. split; [done|]. by apply Hiff. }
  destruct (delete_user username s) as [[[]|e] s1] eqn:Hdel.
  - destruct (force_reload_cache s1) as [[[]|e] s'] eqn:Hre; right.
    + right; left. exists s1. eauto using rebuild_loaded.
    + right; right. exists e. split; [done|]. right. eauto.
  - right; left. split; [done|]. split; [done|].
    revert Hdel. unfold delete_user.
    intros (ok & s0 & _ & Hrest)%bind_ok_inv. by injection Hrest as _ <-.
  - right; right; right. eauto.
Qed.

(** X5. [/recognize] answers 200 with the record of the recognition
    whenever the lazy reload of the cache and [cv2.imdecode] return;
    otherwise the exception of the reload, or that of [cv2.imdecode],
    leaves the handler.  So an empty upload is never answered: with a
    cache that loads, the [cv2.error] of the empty buffer leaves the
    handler.  With a loaded cache the state is left as it is. *)
Theorem api_recognize_replies (content : bytes) (s : State) :
  let '(r, s') := main.api_recognize content s in
  ((∃ res decoded,
      r = main.Respond 200 (main.BodyOutcome res) ∧
      recognize_image_bytes content s = (Ok res, s') ∧
      load_models_into_cache false s = (Ok tt, s') ∧
      imdecode_color content = Ok decoded) ∨
   (∃ e, r = main.Escapes e ∧
         (load_models_into_cache false s = (Raise e, s') ∨
          (load_models_into_cache false s = (Ok tt, s') ∧
           imdecode_color content = Raise e)))) ∧
  (_cache_loaded s = true → s' = s) ∧
  (content = [] →
   ∃ e, r = main.Escapes e ∧
        (load_models_into_cache false s = (Ok tt, s') → e = CvError)).
Proof.
  unfold main.api_recognize.
  assert (Hnoop : ∀ s1 r, _cache_loaded s = true →
            load_models_into_cache false s = (r, s1) → s1 = s).
  { intros s1 r Hl. unfold load_models_into_cache, bind, get. rewrite Hl.
    by intros [= _ <-]. }
  destruct (load_models_into_cache false s) as [[[]|e] s1] eqn:Hload.
  - destruct (imdecode_color content) as [decoded|e] eqn:Hdec.
    + destruct (recognize_cases content s s1 decoded Hload Hdec)
        as (out & -> & _).
      split; [left; eauto 10|]. split; [eauto|].
      intros ->. rewrite imdecode_color_empty in Hdec. done.
    + rewrite (recognize_decode_raise content s s1 e Hload Hdec).
      split; [right; eauto 10|]. split; [eauto|].
      intros ->. rewrite imdecode_color_empty in Hdec.
      injection Hdec as <-. eauto.
  - unfold recognize_image_bytes. rewrite (bind_raise _ _ _ _ _ Hload).
    split; [right; eauto|]. split; [eauto|].
    intros _. exists e. split; [done|]. done.
Qed.

End handler_properties.

(** * Further properties of the local back end *)

Section path_round_trip.

Lemma os_path_parts s : os_path s = path_parts s.
Proof. unfold os_path, path_div. by destruct (PyStr.startswith s "/"). Qed.

Lemma split_go_first sep cur c rest :
  PyStr.contains sep c = false →
  PyStr.split_go sep cur (c +:+ String sep rest)
  = String.rev_app cur c :: PyStr.split_go sep "" rest.
Proof.
  revert cur. induction c as [|a c IH]; intros cur; simpl.
  - intros _. by rewrite decide_True.
  - intros [Ha Hc]%orb_false_elim. apply bool_decide_eq_false_1 in Ha.
    rewrite ?string_app_cons. simpl. rewrite decide_False by done.
    by rewrite (IH _ Hc).
Qed.

Lemma split_join (c : string) (cs : list string) :
  Forall (λ n, PyStr.contains "/" n = false) (c :: cs) →
  PyStr.split "/" (PyStr.join "/" (c :: cs)) = c :: cs.
Proof.
  revert c. induction cs as [|c' cs IH]; intros c Hall.
  - apply split_no_sep. by inversion Hall.
  - inversion Hall as [|? ? Hc Hrest]; subst.
    change (PyStr.join "/" (c :: c' :: cs))
      with (c +:+ String "/" (PyStr.join "/" (c' :: cs))).
    unfold PyStr.split. rewrite split_go_first by done.
    f_equal. by apply IH.
Qed.

Lemma plain_path_Forall p :
  plain_path p = true ↔ Forall (λ n, plain_name n = true) p.
Proof.
  unfold plain_path. induction p as [|n p IH]; simpl.
  - split; [constructor|done].
  - rewrite andb_true_iff, IH, Forall_cons. done.
Qed.

Lemma filter_all {A} (P : A → Prop) `{∀ x, Decision (P x)} (l : list A) :
  Forall P l → filter P l = l.
Proof.
  induction 1 as [|x l Hx _ IH]; [done|].
  by rewrite filter_cons_True, IH.
Qed.

(** A path of plain names is read back from its string. *)
Lemma os_path_str p : plain_path p = true → os_path (path_str p) = p.
Proof.
  intros Hp. rewrite os_path_parts. unfold path_parts, path_str.
  destruct p as [|c cs]; [done|].
  change ("/" +:+ PyStr.join "/" (c :: cs))
    with ("" +:+ String "/" (PyStr.join "/" (c :: cs))).
  unfold PyStr.split. rewrite split_go_first by done.
  fold (PyStr.split "/" (PyStr.join "/" (c :: cs))).
  apply plain_path_Forall in Hp.
  rewrite split_join.
  2: { eapply Forall_impl; [done|]. by intros n (? & _)%plain_name_spec. }
  rewrite filter_cons_False by (by intros [? _]).
  apply filter_all. eapply Forall_impl; [done|].
  by intros n (_ & ? & ? & _)%plain_name_spec.
Qed.

End path_round_trip.

Section local_extras.
Import Storage.
Variable base : Path.
Hypothesis Hbase : plain_path base = true.
Implicit Types (d : gmap Path fnode) (p q : Path) (w : World).

Lemma node_at_plain d p :
  plain_path p = true → p ≠ [] → OS.node_at d p = d !! p.
Proof.
  intros Hp Hne. unfold OS.node_at. rewrite resolve_plain by done.
  by destruct p.
Qed.

Lemma plain_path_app p q :
  plain_path p = true → plain_path q = true → plain_path (p ++ q) = true.
Proof. unfold plain_path. rewrite forallb_app. by intros -> ->. Qed.

Lemma snoc_ne_nil {A} (l : list A) (k : list A) : k ≠ [] → l ++ k ≠ [].
Proof. intros Hk [_ ?]%app_eq_nil. done. Qed.

Lemma save_image_ok_inv user filename content w ref w' :
  plain_name user = true → plain_name filename = true →
  LocalStorage.save_image base user filename content w = (Ok ref, w') →
  ∃ d1, OS.mkdir_go (disk w) [] (base ++ [user]) = Ok d1 ∧
        ref = path_str (base ++ [user; filename]) ∧
        w' = set_disk (<[base ++ [user; filename] := FFile content]> d1)
                      (set_disk d1 w).
Proof.
  intros Hu Hf.
  destruct (user_dir_plain base user Hbase Hu) as [Hd Hr].
  assert (Htarget : path_div (base ++ [user]) filename
                    = base ++ [user; filename])
    by (by rewrite path_div_plain, <- app_assoc).
  assert (Hrt : resolve (base ++ [user; filename])
                = base ++ [user; filename]).
  { apply resolve_plain, plain_path_app; [done|]. simpl. by rewrite Hu, Hf. }
  unfold LocalStorage.save_image, bind, OS.mkdir_parents, OS.write_bytes.
  rewrite Hd in Hr |- *. rewrite Hr, Htarget, Hrt.
  destruct (OS.mkdir_go (disk w) [] (base ++ [user])) as [d1|e]; [|done].
  simpl.
  destruct (OS.node_at d1 (removelast _)) as [[c|]|];
    [|destruct (OS.node_at d1 (base ++ [user; filename])) as [[c|]|]|];
    try done.
  all: intros [= <- <-]; by exists d1.
Qed.

(** [list_users], by the names in [base]. *)
Lemma list_users_eval w :
  LocalStorage.list_users base w
  = match OS.node_at (disk w) base with
    | Some FDir =>
        (Ok (filter (λ n, OS.is_dir_b (disk w) (base ++ [n]))
                    (OS.children (disk w) base)), w)
    | Some (FFile _) => (Raise NotADirectoryError, w)
    | None => (Raise FileNotFoundError, w)
    end.
Proof.
  unfold LocalStorage.list_users, bind, OS.iterdir, get, ret.
  destruct (OS.node_at (disk w) base) as [[c|]|]; try done.
  rewrite resolve_plain by done. f_equal. f_equal.
  induction (OS.children (disk w) base) as [|n l IH]; [done|].
  cbn [fmap list_fmap]. rewrite !filter_cons.
  destruct (decide _); [|done].
  cbn [fmap list_fmap]. f_equal; [|done].
  unfold path_name. by rewrite last_last.
Qed.

Lemma plain_disk_spec d :
  plain_disk d = true ↔ ∀ p x, d !! p = Some x → plain_path p = true.
Proof.
  unfold plain_disk. rewrite forallb_forall. split.
  - intros Hall p x Hp. apply (Hall (p, x)).
    by apply list_elem_of_In, elem_of_map_to_list.
  - intros Hall [p x] Hin%list_elem_of_In%elem_of_map_to_list. by eapply Hall.
Qed.

Lemma plain_child d p n :
  plain_disk d = true → is_Some (d !! (p ++ [n])) → plain_name n = true.
Proof.
  rewrite plain_disk_spec. intros Hd [x Hx].
  apply Hd in Hx. unfold plain_path in Hx. rewrite forallb_app in Hx.
  apply andb_true_iff in Hx as [_ Hn]. simpl in Hn.
  by apply andb_true_iff in Hn as [? _].
Qed.

(** X9. After a save under plain names, the reference that [save_image]
    returned reads back as the saved content, [download_to_temp] hands it
    out as it is, the user is listed, and so is the reference when the
    file name has an image extension. *)
Theorem local_save_image_round_trip (user filename : string)
    (content : bytes) (w w' : World) (ref : string) :
  plain_name user = true → plain_name filename = true →
  LocalStorage.save_image base user filename content w = (Ok ref, w') →
  ref = path_str (base ++ [user; filename]) ∧
  LocalStorage.download_to_temp ref w' = (Ok ref, w') ∧
  OS.read_bytes (os_path ref) w' = (Ok content, w') ∧
  (∃ users, LocalStorage.list_users base w' = (Ok users, w') ∧
            user ∈ users) ∧
  (is_image_name filename = true →
   ∃ images, LocalStorage.list_user_images base user w' = (Ok images, w') ∧
             ref ∈ images).
Proof.
  intros Hu Hf Hsave.
  destruct (save_image_ok_inv _ _ _ _ _ _ Hu Hf Hsave)
    as (d1 & Hmk & -> & ->).
  assert (Hp3 : plain_path (base ++ [user; filename]) = true).
  { apply plain_path_app; [done|]. simpl. by rewrite Hu, Hf. }
  assert (Hp2 : plain_path (base ++ [user]) = true)
    by (by apply plain_path_snoc).
  assert (Hlen : ∀ k, take k base ≠ base ++ [user; filename]).
  { intros k Heq%(f_equal length).
    rewrite length_app, length_take in Heq. simpl in Heq. lia. }
  assert (Hud : d1 !! (base ++ [user]) = Some FDir).
  { pose proof (mkdir_go_dirs _ _ _ _ (length (base ++ [user])) Hmk) as Hk.
    simpl in Hk. rewrite firstn_all in Hk. apply Hk.
    rewrite length_app. simpl. lia. }
  assert (Hud' : <[base ++ [user; filename] := FFile content]> d1
                 !! (base ++ [user]) = Some FDir).
  { rewrite lookup_insert_ne; [done|].
    intros Heq%(f_equal length). rewrite !length_app in Heq.
    simpl in Heq. lia. }
  split; [done|]. split; [done|]. split; [|split].
  - unfold OS.read_bytes. rewrite os_path_str by done.
    rewrite node_at_plain by (done || by apply snoc_ne_nil).
    simpl. by rewrite lookup_insert_eq.
  - rewrite list_users_eval. simpl.
    assert (Hb : OS.node_at
                   (<[base ++ [user; filename] := FFile content]> d1) base
                 = Some FDir).
    { unfold OS.node_at. rewrite resolve_plain by done.
      destruct base as [|b0 base0] eqn:Eb; [done|]. rewrite <- Eb in *.
      rewrite lookup_insert_ne.
      2: { intros Heq. apply (Hlen (length base)). by rewrite firstn_all. }
      pose proof (mkdir_go_dirs _ _ _ _ (length base) Hmk) as Hk.
      simpl in Hk. rewrite take_app_length in Hk. apply Hk.
      rewrite length_app, Eb. simpl. lia. }
    rewrite Hb. eexists. split; [done|].
    apply list_elem_of_filter. split.
    + unfold OS.is_dir_b.
      rewrite node_at_plain by (done || by apply snoc_ne_nil).
      by rewrite Hud'.
    + apply elem_of_children. by rewrite Hud'.
  - intros Himg. rewrite (list_user_images_names base user Hbase Hu).
    simpl. rewrite Hud'. eexists. split; [done|].
    apply list_elem_of_fmap. exists filename. split; [done|].
    unfold sorted. rewrite merge_sort_Permutation.
    apply list_elem_of_filter. split; [done|].
    apply elem_of_children. rewrite <- app_assoc. simpl.
    by rewrite lookup_insert_eq.
Qed.

(** X10. On a disk of plain names, [list_users] changes nothing and lists,
    each once, exactly the names of the directories in [base]: a regular
    file in [base] is not a user. *)
Theorem local_list_users_spec (w w' : World) (users : list string) :
  plain_disk (disk w) = true →
  LocalStorage.list_users base w = (Ok users, w') →
  w' = w ∧ NoDup users ∧
  ∀ n, n ∈ users ↔ disk w !! (base ++ [n]) = Some FDir.
Proof.
  intros Hplain. rewrite list_users_eval.
  destruct (OS.node_at (disk w) base) as [[c|]|]; try done.
  intros [= <- <-]. split; [done|]. split.
  { apply NoDup_filter, NoDup_children. }
  intros n. rewrite list_elem_of_filter, elem_of_children. unfold OS.is_dir_b.
  split.
  - intros [Hdir Hn]. pose proof (plain_child _ _ _ Hplain Hn) as Hpn.
    rewrite node_at_plain in Hdir
      by (by apply plain_path_snoc || by apply snoc_ne_nil).
    by destruct (disk w !! (base ++ [n])) as [[c|]|].
  - intros Hn. assert (Hpn : plain_name n = true).
    { apply (plain_child (disk w) base); [done|]. by rewrite Hn. }
    rewrite node_at_plain
      by (by apply plain_path_snoc || by apply snoc_ne_nil).
    by rewrite Hn.
Qed.

(** X11. [delete_user] on a plain name: without an entry of that name it
    returns [False] and changes nothing; on a regular file it raises, and
    changes nothing; on a directory it returns [True] and removes the
    directory with all that is below it, after which the user has no
    images, is not listed, and a second deletion returns [False]. *)
Theorem local_delete_user_outcomes (user : string) (w : World) :
  plain_name user = true →
  match disk w !! (base ++ [user]) with
  | None => LocalStorage.delete_user base user w = (Ok false, w)
  | Some (FFile _) =>
      LocalStorage.delete_user base user w = (Raise NotADirectoryError, w)
  | Some FDir =>
      ∃ w', LocalStorage.delete_user base user w = (Ok true, w') ∧
            (∀ p, (base ++ [user]) `prefix_of` p → disk w' !! p = None) ∧
            LocalStorage.list_user_images base user w' = (Ok [], w') ∧
            LocalStorage.delete_user base user w' = (Ok false, w') ∧
            ∀ users w'', LocalStorage.list_users base w' = (Ok users, w'') →
                         user ∉ users
  end.
Proof.
  intros Hu. destruct (user_dir_plain base user Hbase Hu) as [Hd Hr].
  assert (Hdel : ∀ w0, disk w0 !! (base ++ [user]) = None →
                       LocalStorage.delete_user base user w0 = (Ok false, w0)).
  { intros w0 Hnone.
    unfold LocalStorage.delete_user, bind, OS.path_exists, ret.
    by rewrite (node_at_user_dir base user Hbase Hu), Hnone. }
  destruct (disk w !! (base ++ [user])) as [[c|]|] eqn:Hn.
  - unfold LocalStorage.delete_user, bind, OS.path_exists, OS.rmtree, ret.
    rewrite (node_at_user_dir base user Hbase Hu), Hn. simpl.
    rewrite ?bool_decide_eq_true_2 by eauto. simpl.
    by rewrite (node_at_user_dir base user Hbase Hu), Hn.
  - eexists. split.
    { unfold LocalStorage.delete_user, bind, OS.path_exists, OS.rmtree, ret.
      rewrite (node_at_user_dir base user Hbase Hu), Hn. simpl.
      rewrite ?bool_decide_eq_true_2 by eauto. simpl.
      by rewrite (node_at_user_dir base user Hbase Hu), Hn. }
    rewrite Hr. simpl.
    assert (Hgone : ∀ p, (base ++ [user]) `prefix_of` p →
              filter (λ kv : Path * fnode, ¬ (base ++ [user]) `prefix_of` kv.1)
                     (disk w) !! p = None).
    { intros p Hp. apply map_lookup_filter_None. right. intros x _ Hno.
      by apply Hno. }
    split; [done|]. split; [|split].
    + rewrite (list_user_images_names base user Hbase Hu). simpl.
      by rewrite Hgone.
    + apply Hdel. simpl. by apply Hgone.
    + intros users w''. rewrite list_users_eval. simpl.
      destruct (OS.node_at _ base) as [[c|]|]; try done.
      intros [= <- _] [Hdir _]%list_elem_of_filter.
      unfold OS.is_dir_b in Hdir.
      rewrite node_at_plain in Hdir
        by (by apply plain_path_snoc || by apply snoc_ne_nil).
      by rewrite Hgone in Hdir.
  - by apply Hdel.
Qed.

Lemma list_models_loop (names : list string) : ∀ out w r w',
  Forall (λ u, plain_name u = true) names →
  for_each ((λ n, base ++ [n]) <$> names) out
    (λ user_dir out,
       let trainer_dir := path_div user_dir "trainer" in
       let* ex := OS.path_exists trainer_dir in
       if negb ex then ret out
       else
         let* fs := OS.iterdir trainer_dir in
         ret (out ++
              ((λ f, (path_name user_dir, path_str f)) <$>
               filter (λ f, bool_decide
                              (PyStr.lower (path_suffix f) = ".yml")) fs)))
    w = (r, w') →
  w' = w ∧
  (∀ u c, u ∈ names → disk w !! (base ++ [u; "trainer"]) = Some (FFile c) →
          r = Raise NotADirectoryError) ∧
  ∀ out', r = Ok out' →
    ∀ u ref, (u, ref) ∈ out' ↔
      (u, ref) ∈ out ∨
      (u ∈ names ∧
       disk w !! (base ++ [u; "trainer"]) = Some FDir ∧
       ∃ f, is_Some (disk w !! (base ++ [u; "trainer"; f])) ∧
            PyStr.lower (name_suffix f) = ".yml" ∧
            ref = path_str (base ++ [u; "trainer"; f])).
Proof.
  assert (Hbody : ∀ n out w, plain_name n = true →
            (let* ex := OS.path_exists (path_div (base ++ [n]) "trainer") in
             if negb ex then ret out
             else
               let* fs := OS.iterdir (path_div (base ++ [n]) "trainer") in
               ret (out ++
                    ((λ f, (path_name (base ++ [n]), path_str f)) <$>
                     filter (λ f, bool_decide
                                    (PyStr.lower (path_suffix f) = ".yml"))
                            fs))) w
            = match disk w !! (base ++ [n; "trainer"]) with
              | None => (Ok out, w)
              | Some (FFile _) => (Raise NotADirectoryError, w)
              | Some FDir =>
                  (Ok (out ++
                       ((λ f, (n, path_str (base ++ [n; "trainer"; f]))) <$>
                        filter (λ f, PyStr.lower (name_suffix f) = ".yml")
                          (OS.children (disk w) (base ++ [n; "trainer"])))),
                   w)
              end).
  { intros n out w Hn.
    assert (Htr : path_div (base ++ [n]) "trainer" = base ++ [n; "trainer"])
      by (by rewrite path_div_plain, <- app_assoc).
    assert (Hpt : plain_path (base ++ [n; "trainer"]) = true).
    { apply plain_path_app; [done|]. simpl. by rewrite Hn. }
    rewrite Htr. unfold bind, OS.path_exists, OS.iterdir, ret.
    rewrite node_at_plain by (done || by apply snoc_ne_nil).
    rewrite resolve_plain by done.
    destruct (disk w !! (base ++ [n; "trainer"])) as [[c|]|] eqn:Hnode;
      simpl; try done.
    all: rewrite node_at_plain, Hnode by (done || by apply snoc_ne_nil).
    all: try done.
    f_equal. f_equal. f_equal.
    induction (OS.children (disk w) (base ++ [n; "trainer"])) as [|f l IHl];
      [done|].
    cbn [fmap list_fmap]. rewrite !filter_cons.
    assert (Hsfx : path_suffix ((base ++ [n; "trainer"]) ++ [f])
                   = name_suffix f).
    { unfold path_suffix, path_name. by rewrite last_last. }
    rewrite Hsfx.
    destruct (decide (PyStr.lower (name_suffix f) = ".yml")) as [Hf|Hf].
    - rewrite decide_True by (by apply bool_decide_pack).
      cbn [fmap list_fmap]. rewrite IHl. f_equal. f_equal.
      + unfold path_name. by rewrite last_last.
      + by rewrite <- app_assoc.
    - rewrite decide_False; [done|].
      by intros ?%bool_decide_unpack. }
  induction names as [|n names IH]; intros out w r w' Hplain;
    cbn [fmap list_fmap for_each].
  { intros [= <- <-]. split; [done|]. split.
    - by intros u c []%elem_of_nil.
    - intros out' [= <-] u ref. split; [auto|].
      by intros [?|[[]%elem_of_nil _]]. }
  inversion Hplain as [|? ? Hn Hnames]; subst.
  unfold bind at 1. rewrite Hbody by done.
  destruct (disk w !! (base ++ [n; "trainer"])) as [[c|]|] eqn:Hnode.
  - intros [= <- <-]. split; [done|]. split; [done|]. done.
  - intros Hrest. apply IH in Hrest as (-> & Hraise & Hok); [|done].
    split; [done|]. split.
    { intros u c [->|Hu]%elem_of_cons Hc; [congruence|eauto]. }
    intros out' Hr u ref. rewrite (Hok out' Hr u ref).
    rewrite elem_of_app, list_elem_of_fmap, elem_of_cons. split.
    + intros [[Hin|(f & [= -> ->] & Hf)]|(Hu & Hrest)]; [by left| |].
      * right. split; [by left|]. split; [done|].
        apply list_elem_of_filter in Hf as [Hsfx Hf].
        apply elem_of_children in Hf. exists f.
        rewrite <- app_assoc in Hf. by simpl in Hf.
      * right. split; [by right|done].
    + intros [Hin|([->|Hu] & Hdir & f & Hf & Hsfx & ->)]; [by left; left| |].
      * left; right. exists f. split; [done|].
        apply list_elem_of_filter. split; [done|].
        apply elem_of_children. by rewrite <- app_assoc.
      * right. split; [done|]. split; [done|]. by exists f.
  - intros Hrest. apply IH in Hrest as (-> & Hraise & Hok); [|done].
    split; [done|]. split.
    { intros u c [->|Hu]%elem_of_cons Hc; [congruence|eauto]. }
    intros out' Hr u ref. rewrite (Hok out' Hr u ref).
    rewrite elem_of_cons. split; [tauto|].
    intros [?|([->|?] & Hdir & ?)]; [tauto|congruence|tauto].
Qed.

Lemma list_models_char (w : World) :
  plain_disk (disk w) = true →
  (∀ models w', LocalStorage.list_models base w = (Ok models, w') →
     w' = w ∧
     ∀ u ref, (u, ref) ∈ models ↔
       ∃ f, model_at base (disk w) u f ∧
            ref = path_str (base ++ [u; "trainer"; f])) ∧
  (∀ u c, OS.node_at (disk w) base = Some FDir →
          disk w !! (base ++ [u; "trainer"]) = Some (FFile c) →
          is_Some (disk w !! (base ++ [u])) →
          LocalStorage.list_models base w = (Raise NotADirectoryError, w)).
Proof.
  intros Hplain.
  assert (Hnames : Forall (λ u, plain_name u = true)
                     (sorted (OS.children (disk w) base))).
  { apply Forall_forall. intros u Hu. unfold sorted in Hu.
    rewrite merge_sort_Permutation in Hu. apply elem_of_children in Hu.
    by apply (plain_child (disk w) base). }
  assert (Hin : ∀ u, u ∈ sorted (OS.children (disk w) base)
                     ↔ is_Some (disk w !! (base ++ [u]))).
  { intros u. unfold sorted. rewrite merge_sort_Permutation.
    apply elem_of_children. }
  split.
  - intros models w'.
    unfold LocalStorage.list_models, bind at 1, OS.iterdir at 1.
    rewrite (resolve_plain base) by done.
    destruct (OS.node_at (disk w) base) as [[c|]|]; [done| |done].
    rewrite sorted_paths_children. intros Hrun.
    apply list_models_loop in Hrun as (-> & _ & Hok); [|done].
    split; [done|]. intros u ref. rewrite (Hok models eq_refl u ref).
    unfold model_at. rewrite Hin. split.
    + intros [[]%elem_of_nil|(Hu & Hdir & f & Hf & Hsfx & ->)].
      exists f. eauto.
    + intros (f & (Hu & Hdir & Hf & Hsfx) & ->). right. eauto 10.
  - intros u c Hb Hfile Hu.
    unfold LocalStorage.list_models, bind at 1, OS.iterdir at 1.
    rewrite (resolve_plain base), Hb by done.
    rewrite sorted_paths_children.
    match goal with
    | |- ?run = _ => destruct run as [r w'] eqn:Hrun
    end.
    apply list_models_loop in Hrun as (-> & Hraise & _); [|done].
    f_equal. eapply Hraise; [|done]. by apply Hin.
Qed.

(** X12. On a disk of plain names, [list_models] changes nothing and lists
    exactly the model files: for every entry [u] of [base] whose directory
    [trainer] exists, the files of that directory with the extension
    [.yml], each with the name [u].  It raises as soon as some entry of
    [base] has a regular file named [trainer]. *)
Theorem local_list_models_spec (w : World) :
  plain_disk (disk w) = true →
  (∀ models w', LocalStorage.list_models base w = (Ok models, w') →
     w' = w ∧
     ∀ u ref, (u, ref) ∈ models ↔
       ∃ f, model_at base (disk w) u f ∧
            ref = path_str (base ++ [u; "trainer"; f])) ∧
  (∀ u c, OS.node_at (disk w) base = Some FDir →
          disk w !! (base ++ [u; "trainer"]) = Some (FFile c) →
          is_Some (disk w !! (base ++ [u])) →
          LocalStorage.list_models base w = (Raise NotADirectoryError, w)).
Proof. apply list_models_char. Qed.

Lemma save_model_ok_inv user filename content w ref w' :
  plain_name user = true → plain_name filename = true →
  LocalStorage.save_model base user filename content w = (Ok ref, w') →
  ∃ d1, OS.mkdir_go (disk w) [] (base ++ [user; "trainer"]) = Ok d1 ∧
        ref = path_str (base ++ [user; "trainer"; filename]) ∧
        w' = set_disk (<[base ++ [user; "trainer"; filename]
                         := FFile content]> d1)
                      (set_disk d1 w).
Proof.
  intros Hu Hf.
  destruct (user_dir_plain base user Hbase Hu) as [Hd Hr].
  assert (Hp2 : plain_path (base ++ [user]) = true)
    by (by apply plain_path_snoc).
  assert (Htr : path_div (base ++ [user]) "trainer"
                = base ++ [user; "trainer"])
    by (by rewrite path_div_plain, <- app_assoc).
  assert (Hpt : plain_path (base ++ [user; "trainer"]) = true).
  { apply plain_path_app; [done|]. simpl. by rewrite Hu. }
  assert (Htarget : path_div (base ++ [user; "trainer"]) filename
                    = base ++ [user; "trainer"; filename])
    by (by rewrite path_div_plain, <- app_assoc).
  assert (Hrt : resolve (base ++ [user; "trainer"; filename])
                = base ++ [user; "trainer"; filename]).
  { apply resolve_plain, plain_path_app; [done|]. simpl. by rewrite Hu, Hf. }
  unfold LocalStorage.save_model, bind, OS.mkdir_parents, OS.write_bytes.
  rewrite Hd, Htr, Htarget, Hrt, (resolve_plain _ Hpt).
  destruct (OS.mkdir_go (disk w) [] (base ++ [user; "trainer"])) as [d1|e];
    [|done].
  simpl.
  destruct (OS.node_at d1 (removelast _)) as [[c|]|];
    [|destruct (OS.node_at d1 (base ++ [user; "trainer"; filename]))
        as [[c|]|]|];
    try done.
  all: intros [= <- <-]; by exists d1.
Qed.

Lemma plain_path_prefix p q :
  p `prefix_of` q → plain_path q = true → plain_path p = true.
Proof.
  intros [k ->]. unfold plain_path. rewrite forallb_app.
  by intros [? _]%andb_true_iff.
Qed.

Lemma mkdir_go_plain rest d d' :
  plain_disk d = true → plain_path rest = true →
  OS.mkdir_go d [] rest = Ok d' → plain_disk d' = true.
Proof.
  rewrite !plain_disk_spec. intros Hd Hrest Hmk p x Hp.
  destruct (d !! p) as [y|] eqn:Hy; [eauto|].
  destruct (mkdir_go_new _ _ _ _ _ Hmk Hy) as [Hnone|(_ & Hpre & _)].
  - congruence.
  - by eapply plain_path_prefix.
Qed.

(** X19. After [save_model] under plain names, the returned reference
    reads back as the stored content, and, when the file name has the
    extension [.yml], every listing of the models that returns has the
    model, under the name of the user. *)
Theorem local_save_model_round_trip (user filename : string)
    (content : bytes) (w w' : World) (ref : string) :
  plain_name user = true → plain_name filename = true →
  plain_disk (disk w) = true →
  LocalStorage.save_model base user filename content w = (Ok ref, w') →
  ref = path_str (base ++ [user; "trainer"; filename]) ∧
  OS.read_bytes (os_path ref) w' = (Ok content, w') ∧
  (PyStr.lower (name_suffix filename) = ".yml" →
   ∀ models w'', LocalStorage.list_models base w' = (Ok models, w'') →
                 (user, ref) ∈ models).
Proof.
  intros Hu Hf Hplain Hsave.
  destruct (save_model_ok_inv _ _ _ _ _ _ Hu Hf Hsave)
    as (d1 & Hmk & -> & ->).
  assert (Hp4 : plain_path (base ++ [user; "trainer"; filename]) = true).
  { apply plain_path_app; [done|]. simpl. by rewrite Hu, Hf. }
  assert (Hpt : plain_path (base ++ [user; "trainer"]) = true).
  { apply plain_path_app; [done|]. simpl. by rewrite Hu. }
  assert (Hdirs : ∀ k, 0 < k ≤ length (base ++ [user; "trainer"]) →
                       d1 !! take k (base ++ [user; "trainer"]) = Some FDir).
  { intros k Hk. by apply (mkdir_go_dirs _ _ [] _ k Hmk). }
  assert (Hud : d1 !! (base ++ [user]) = Some FDir).
  { specialize (Hdirs (length (base ++ [user]))).
    replace (base ++ [user; "trainer"])
      with ((base ++ [user]) ++ ["trainer"]) in Hdirs
      by (by rewrite <- app_assoc).
    rewrite take_app_length in Hdirs. apply Hdirs.
    rewrite !length_app. simpl. lia. }
  assert (Htd : d1 !! (base ++ [user; "trainer"]) = Some FDir).
  { specialize (Hdirs (length (base ++ [user; "trainer"]))).
    rewrite firstn_all in Hdirs. apply Hdirs.
    rewrite length_app. simpl. lia. }
  assert (Hne : ∀ l, length l < 3 →
                     base ++ [user; "trainer"; filename] ≠ base ++ l).
  { intros l Hl Heq%(f_equal length). rewrite !length_app in Heq.
    simpl in Heq. lia. }
  split; [done|]. split.
  - unfold OS.read_bytes. rewrite os_path_str by done.
    rewrite node_at_plain by (done || by apply snoc_ne_nil).
    simpl. by rewrite lookup_insert_eq.
  - intros Hsfx models w'' Hlist.
    assert (Hplain' : plain_disk
              (<[base ++ [user; "trainer"; filename] := FFile content]> d1)
              = true).
    { apply plain_disk_spec. intros p x.
      destruct (decide (p = base ++ [user; "trainer"; filename])) as [->|Hp];
        [done|].
      rewrite lookup_insert_ne by done.
      pose proof (mkdir_go_plain _ _ _ Hplain Hpt Hmk) as Hd1.
      rewrite plain_disk_spec in Hd1. apply Hd1. }
    destruct (list_models_char
                (set_disk (<[base ++ [user; "trainer"; filename]
                             := FFile content]> d1) (set_disk d1 w))
                Hplain') as [Hspec _].
    destruct (Hspec _ _ Hlist) as [_ Hin]. apply Hin.
    exists filename. split; [|done]. unfold model_at. simpl.
    rewrite !lookup_insert_ne by (apply Hne; simpl; lia).
    rewrite Hud, Htd, lookup_insert_eq. eauto.
Qed.

End local_extras.

(** * The service on the local back end *)

Section local_service.
Context `{Vision}.
Import Storage face_service.
Variables (base : Path) (threshold : pyfloat).
Hypothesis Hbase : plain_path base = true.
Local Abbreviation on_local := (local_settings base threshold).

Lemma path_str_inj p q :
  plain_path p = true → plain_path q = true → path_str p = path_str q → p = q.
Proof.
  intros Hp Hq Heq. by rewrite <- (os_path_str p), <- (os_path_str q), Heq.
Qed.

(** One turn of the image loop of [train_all]: the image is read from the
    stored file itself, which is then removed. *)
Lemma read_face_local label_id q acc s :
  plain_path q = true → q ≠ [] →
  ∃ acc' s',
    @read_face _ on_local label_id (path_str q) acc s = (Ok acc', s') ∧
    disk (world s')
    = match disk (world s) !! q with
      | Some (FFile _) => delete q (disk (world s))
      | _ => disk (world s)
      end.
Proof.
  intros Hq Hne. destruct acc as [faces labels].
  unfold read_face, bind, storage_call, modify, in_world, try_except.
  simpl. unfold cv2_imread, OS.remove.
  rewrite os_path_str, resolve_plain by done.
  rewrite !node_at_plain by done.
  destruct (disk (world s) !! q) as [[c|]|] eqn:Hnode; simpl.
  all: rewrite node_at_plain, Hnode by done; simpl.
  - destruct (imread_grayscale c); simpl; eauto.
  - eauto.
  - eauto.
Qed.

Lemma read_faces_local label_id (qs : list Path) : ∀ acc s,
  Forall (λ q, plain_path q = true ∧ q ≠ []) qs →
  ∃ acc' s',
    for_each (path_str <$> qs) acc (@read_face _ on_local label_id) s
    = (Ok acc', s') ∧
    (∀ p x, disk (world s') !! p = Some x → disk (world s) !! p = Some x) ∧
    (∀ p, p ∈ qs → file_at (disk (world s')) p = None) ∧
    (∀ p, p ∉ qs → disk (world s') !! p = disk (world s) !! p).
Proof.
  induction qs as [|q qs IH]; intros acc s Hqs; cbn [fmap list_fmap for_each].
  { exists acc, s. split; [done|]. split; [done|]. split; [|done].
    by intros p []%elem_of_nil. }
  inversion Hqs as [|? ? [Hq Hne] Hrest]; subst.
  destruct (read_face_local label_id q acc s Hq Hne)
    as (acc1 & s1 & Hstep & Hdisk).
  destruct (IH acc1 s1 Hrest) as (acc' & s' & Hloop & Hsub & Hgone & Hkeep).
  exists acc', s'. split; [by rewrite (bind_ok _ _ _ _ _ Hstep)|].
  assert (Hsub1 : ∀ p x, disk (world s1) !! p = Some x →
                         disk (world s) !! p = Some x).
  { intros p x. rewrite Hdisk.
    destruct (disk (world s) !! q) as [[c|]|]; try done.
    by intros [_ ?]%lookup_delete_Some. }
  split; [eauto|]. split.
  - intros p [->|Hp]%elem_of_cons; [|eauto].
    unfold file_at. destruct (disk (world s') !! q) as [[c|]|] eqn:Hq'; try done.
    apply Hsub in Hq'. pose proof (Hsub1 _ _ Hq') as Hq0.
    rewrite Hdisk, Hq0, lookup_delete_eq in Hq'. done.
  - intros p [Hne' Hp]%not_elem_of_cons. rewrite Hkeep, Hdisk by done.
    destruct (disk (world s) !! q) as [[c|]|]; try done.
    by rewrite lookup_delete_ne.
Qed.

(** X13. On the local back end, training reads the stored images
    themselves and removes them: the image loop of [train_all] over the
    images listed for a user always returns, and afterwards none of the
    listed images is a file any more; nothing else on the disk changes. *)
Theorem local_training_consumes_images (user : string) (label_id : nat)
    (s : State) (images : list string) (w1 : World) :
  plain_name user = true →
  plain_disk (disk (world s)) = true →
  LocalStorage.list_user_images base user (world s) = (Ok images, w1) →
  ∃ acc' s',
    for_each images ([], []) (@read_face _ on_local label_id) s
    = (Ok acc', s') ∧
    (∀ ref, ref ∈ images →
            file_at (disk (world s')) (os_path ref) = None) ∧
    (∀ p x, disk (world s') !! p = Some x → disk (world s) !! p = Some x) ∧
    (∀ p, path_str p ∉ images →
          disk (world s') !! p = disk (world s) !! p).
Proof.
  intros Hu Hplain. rewrite (list_user_images_names base user Hbase Hu).
  destruct (disk (world s) !! (base ++ [user])) as [[c|]|] eqn:Hdir;
    [done| |].
  2: { intros [= <- _]. exists ([], []), s. split; [done|]. split; [|done].
       by intros ref []%elem_of_nil. }
  intros [= <- _].
  set (names := sorted (filter (λ n, is_image_name n = true)
                               (OS.children (disk (world s))
                                            (base ++ [user])))).
  assert (Hnames : Forall (λ n, plain_name n = true) names).
  { apply Forall_forall. intros n Hn. unfold names, sorted in Hn.
    rewrite merge_sort_Permutation in Hn.
    apply list_elem_of_filter in Hn as [_ Hn]. apply elem_of_children in Hn.
    by apply (plain_child (disk (world s)) (base ++ [user])). }
  assert (Hpaths : Forall (λ q, plain_path q = true ∧ q ≠ [])
                          ((λ n, base ++ [user; n]) <$> names)).
  { apply Forall_fmap. eapply Forall_impl; [done|]. intros n Hn. simpl. split.
    - apply plain_path_app; [done|]. simpl. by rewrite Hu, Hn.
    - by apply snoc_ne_nil. }
  destruct (read_faces_local label_id _ ([], []) s Hpaths)
    as (acc' & s' & Hloop & Hsub & Hgone & Hkeep).
  rewrite <- list_fmap_compose in Hloop.
  exists acc', s'. split; [done|]. split; [|split; [done|]].
  - intros ref (n & -> & Hn)%list_elem_of_fmap.
    assert (Hp : plain_path (base ++ [user; n]) = true).
    { rewrite Forall_forall in Hpaths. apply Hpaths.
      apply list_elem_of_fmap. eauto. }
    rewrite os_path_str by done. apply Hgone.
    apply list_elem_of_fmap. eauto.
  - intros p Hnot. apply Hkeep.
    intros (n & -> & Hn)%list_elem_of_fmap. apply Hnot.
    apply list_elem_of_fmap. eauto.
Qed.

(** One turn of the model loop of [load_models_into_cache]: the model is
    read from the stored file itself, which is removed when it
    deserialises. *)
Lemma load_model_local user q acc s :
  plain_path q = true → q ≠ [] →
  ∃ acc' s',
    @load_model _ on_local (user, path_str q) acc s = (Ok acc', s') ∧
    (loadable (disk (world s)) q →
     disk (world s') = delete q (disk (world s))) ∧
    (¬ loadable (disk (world s)) q →
     acc' = acc ∧ disk (world s') = disk (world s)).
Proof.
  intros Hq Hne. destruct acc as [[rs dict] label_id].
  unfold load_model, try_except, bind, storage_call, modify, in_world.
  simpl. unfold recognizer_read, OS.remove, loadable.
  rewrite os_path_str, resolve_plain by done.
  rewrite !node_at_plain by done.
  destruct (disk (world s) !! q) as [[c|]|] eqn:Hnode; simpl.
  1: destruct (LBPH_read c) as [r|] eqn:Hread; simpl.
  all: rewrite ?node_at_plain, ?Hnode by done; simpl.
  all: do 2 eexists; (split; [done|]); split.
  all: try (intros (c' & [=] & Hc'); subst; rewrite ?Hread in Hc';
            by destruct Hc').
  all: try done.
  intros Hno. destruct Hno. exists c. by rewrite Hread.
Qed.

Lemma load_models_local (models : list (string * string)) : ∀ acc s,
  Forall (λ e : string * string,
            ∃ q, e.2 = path_str q ∧ plain_path q = true ∧ q ≠ []) models →
  ∃ acc' s',
    for_each models acc (@load_model _ on_local) s = (Ok acc', s') ∧
    (∀ p x, disk (world s') !! p = Some x → disk (world s) !! p = Some x) ∧
    (∀ u q, (u, path_str q) ∈ models → plain_path q = true →
            ¬ loadable (disk (world s')) q) ∧
    ((∀ u q, (u, path_str q) ∈ models → plain_path q = true →
             ¬ loadable (disk (world s)) q) →
     acc' = acc ∧ disk (world s') = disk (world s)).
Proof.
  induction models as [|[u0 ref0] models IH]; intros acc s Hall;
    cbn [for_each].
  { exists acc, s. split; [done|]. split; [done|]. split; [|done].
    by intros u q []%elem_of_nil. }
  inversion Hall as [|? ? (q0 & Href & Hq0 & Hne0) Hrest]; subst.
  simpl in Href. subst ref0.
  destruct (load_model_local u0 q0 acc s Hq0 Hne0)
    as (acc1 & s1 & Hstep & Hyes & Hno).
  destruct (IH acc1 s1 Hrest) as (acc' & s' & Hloop & Hsub & Hgone & Hnone).
  exists acc', s'. split; [by rewrite (bind_ok _ _ _ _ _ Hstep)|].
  assert (Hdec : loadable (disk (world s)) q0 ∨ ¬ loadable (disk (world s)) q0).
  { unfold loadable. destruct (disk (world s) !! q0) as [[c|]|];
      [destruct (LBPH_read c) eqn:Hread|..].
    - left. exists c. by rewrite Hread.
    - right. intros (c' & [= <-] & Hc'). rewrite Hread in Hc'.
      by destruct Hc'.
    - right. by intros (c' & [=] & _).
    - right. by intros (c' & [=] & _). }
  assert (Hsub1 : ∀ p x, disk (world s1) !! p = Some x →
                         disk (world s) !! p = Some x).
  { intros p x. destruct Hdec as [Hl|Hl].
    - rewrite (Hyes Hl). by intros [_ ?]%lookup_delete_Some.
    - by destruct (Hno Hl) as [_ ->]. }
  assert (Hstay : ∀ d d' q, (∀ p x, d' !! p = Some x → d !! p = Some x) →
                            ¬ loadable d q → ¬ loadable d' q).
  { intros d d' q Hdd Hnl (c & Hc & Hr). apply Hnl. exists c. eauto. }
  split; [eauto|]. split; [|].
  - intros u q [Heq|Hin]%elem_of_cons Hq; [|eauto].
    apply (f_equal snd) in Heq. cbn [snd] in Heq.
    apply path_str_inj in Heq as ->; [|done..].
    apply (Hstay (disk (world s1))); [done|].
    destruct Hdec as [Hl|Hl].
    + rewrite (Hyes Hl). intros (c & Hc & _).
      by rewrite lookup_delete_eq in Hc.
    + by destruct (Hno Hl) as [_ ->].
  - intros Hnever.
    assert (Hl : ¬ loadable (disk (world s)) q0).
    { apply (Hnever u0); [by left|done]. }
    destruct (Hno Hl) as [-> Hd1].
    destruct Hnone as [-> Hd']; [|by rewrite Hd'].
    intros u q Hin Hq. rewrite Hd1. apply (Hnever u); [by right|done].
Qed.

(** X14. On the local back end, a rebuild of the cache reads the stored
    model files themselves and removes every one that it loads.  So the
    models serve one rebuild only: after a rebuild, the next forced
    rebuild finds no model that deserialises and leaves the cache empty,
    and the disk as it is. *)
Theorem local_rebuild_consumes_models (force : bool) (s s1 s2 : State) :
  plain_disk (disk (world s)) = true →
  _cache_loaded s = false ∨ force = true →
  @load_models_into_cache _ on_local force s = (Ok tt, s1) →
  @force_reload_cache _ on_local s1 = (Ok tt, s2) →
  _cached_recognizers s2 = [] ∧ _cached_label_dict s2 = ∅ ∧
  _cache_loaded s2 = true ∧ disk (world s2) = disk (world s1).
Proof.
  intros Hplain Hgo Hfirst Hsecond. unfold force_reload_cache in Hsecond.
  rewrite rebuild_unfold in Hfirst by done.
  rewrite rebuild_unfold in Hsecond by auto.
  apply bind_ok_inv in Hfirst as (ms1 & sa & Hlist1 & Hfirst).
  apply bind_ok_inv in Hfirst as ([[rs1 d1] l1] & sb & Hloop1 & Hset1).
  apply bind_ok_inv in Hsecond as (ms2 & sc & Hlist2 & Hsecond).
  apply bind_ok_inv in Hsecond as ([[rs2 d2] l2] & sd & Hloop2 & Hset2).
  injection Hset1 as <-. injection Hset2 as <-.
  rewrite storage_call_world in Hlist1, Hlist2.
  simpl in Hlist1, Hlist2.
  destruct (LocalStorage.list_models base (world s)) as [r1 wa] eqn:Hl1.
  destruct (LocalStorage.list_models base (world sb)) as [r2 wc] eqn:Hl2.
  simpl in Hlist1, Hlist2.
  injection Hlist1 as -> <-. injection Hlist2 as -> <-.
  destruct (list_models_char base Hbase (world s) Hplain) as [Hspec1 _].
  destruct (Hspec1 _ _ Hl1) as [-> Hms1]. clear Hspec1.
  assert (Hentries : ∀ d ms,
            plain_disk d = true →
            (∀ u ref, (u, ref) ∈ ms ↔
               ∃ f, model_at base d u f ∧
                    ref = path_str (base ++ [u; "trainer"; f])) →
            Forall (λ e : string * string,
                      ∃ q, e.2 = path_str q ∧ plain_path q = true ∧ q ≠ [])
                   ms).
  { intros d ms Hd Hms. apply Forall_forall. intros [u ref] Hin.
    apply Hms in Hin as (f & (_ & _ & [x Hf] & _) & ->).
    exists (base ++ [u; "trainer"; f]). split; [done|]. split.
    - rewrite plain_disk_spec in Hd. eauto.
    - by apply snoc_ne_nil. }
  destruct (load_models_local ms1 ([], ∅, 0)
              (set_world (world s) (log_io IoListModels s))
              (Hentries _ _ Hplain Hms1))
    as (acc1 & sb' & Hloop1' & Hsub1 & Hgone1 & _).
  rewrite Hloop1 in Hloop1'. injection Hloop1' as <- <-.
  simpl in Hsub1.
  assert (Hplain1 : plain_disk (disk (world sb)) = true).
  { apply plain_disk_spec. intros p x Hp%Hsub1.
    rewrite plain_disk_spec in Hplain. eauto. }
  destruct (list_models_char base Hbase (world sb) Hplain1)
    as [Hspec2 _].
  destruct (Hspec2 _ _ Hl2) as [-> Hms2]. clear Hspec2.
  destruct (load_models_local ms2 ([], ∅, 0)
              (set_world (world sb)
                 (log_io IoListModels (set_cache rs1 d1 sb)))
              (Hentries _ _ Hplain1 Hms2))
    as (acc2 & sd' & Hloop2' & _ & _ & Hnone).
  simpl in Hloop2. rewrite Hloop2 in Hloop2'. injection Hloop2' as <- <-.
  destruct Hnone as [[= -> -> _] Hdisk].
  { intros u q Hin Hq. simpl. apply (Hgone1 u); [|done].
    apply Hms2 in Hin as (f & (Hu & Hdir & Hf & Hsfx) & Href).
    apply Hms1. exists f. split; [|done].
    destruct Hu as [x Hu], Hf as [y Hf].
    repeat split; eauto. }
  simpl. split; [done|]. split; [done|]. split; [done|]. exact Hdisk.
Qed.

End local_service.


(** * Further properties of the blob back end *)

Section azure_extras.
Import Storage.

Lemma contains_rev_app ch s t :
  PyStr.contains ch (String.rev_app s t)
  = PyStr.contains ch s || PyStr.contains ch t.
Proof.
  revert t. induction s as [|c s IH]; intros t; simpl; [done|].
  rewrite IH. simpl.
  by destruct (bool_decide (c = ch)), (PyStr.contains ch s),
              (PyStr.contains ch t).
Qed.

Lemma split_go_parts sep s : ∀ cur x,
  PyStr.contains sep cur = false →
  x ∈ PyStr.split_go sep cur s → PyStr.contains sep x = false.
Proof.
  induction s as [|c s IH]; intros cur x Hcur; simpl.
  - intros ->%list_elem_of_singleton. unfold String.rev.
    by rewrite contains_rev_app, Hcur.
  - destruct (decide (c = sep)) as [->|Hc].
    + intros [->|Hx]%elem_of_cons; [|by apply (IH "" x)].
      unfold String.rev. by rewrite contains_rev_app, Hcur.
    + apply IH. simpl. by rewrite Hcur, bool_decide_eq_false_2.
Qed.

Lemma contains_drop ch i : ∀ s,
  PyStr.contains ch s = false → PyStr.contains ch (PyStr.drop i s) = false.
Proof.
  induction i as [|i IH]; intros [|c s]; simpl; try done.
  intros [_ Hs]%orb_false_elim. by apply IH.
Qed.

Lemma last_Forall {A} (P : A → Prop) (l : list A) (d : A) :
  P d → Forall P l → P (List.last l d).
Proof.
  intros Hd. induction 1 as [|x l Hx Hl IH]; [done|].
  destruct l; [done|]. apply IH.
Qed.

Lemma path_suffix_parts s :
  PyStr.contains "/" (path_suffix (path_parts s)) = false.
Proof.
  assert (Hlast : PyStr.contains "/" (path_name (path_parts s)) = false).
  { unfold path_name. apply last_Forall; [done|].
    apply Forall_forall. intros x [_ Hx]%list_elem_of_filter.
    by apply (split_go_parts "/" s ""). }
  unfold path_suffix, name_suffix.
  destruct (PyStr.rfind_dot _) as [i|]; [|done].
  destruct (_ && _); [|done]. by apply contains_drop.
Qed.

Lemma tmp_name_plain n sfx :
  PyStr.contains "/" sfx = false → plain_name (OS.tmp_name n sfx) = true.
Proof.
  intros Hsfx. unfold plain_name, OS.tmp_name.
  rewrite !contains_app, (pretty_nat_contains "/") by auto.
  rewrite Hsfx. done.
Qed.

(** A call of the blob client when no failure of the network is due. *)
Lemma remote_call_up {A} (op : M World A) w :
  net w = [] → OS.remote_call op w = op w.
Proof. unfold OS.remote_call. by intros ->. Qed.

Lemma NamedTemporaryFile_new sfx w :
  disk w !! OS.tmpdir = Some FDir →
  let q := OS.tmpdir ++ [OS.tmp_name (tmp_seq w) sfx] in
  disk w !! q = None →
  OS.NamedTemporaryFile sfx w
  = (Ok (path_str q),
     set_disk (<[q := FFile []]> (disk w)) (set_tmp_seq (S (tmp_seq w)) w)).
Proof.
  intros Htmp q Hfree. unfold OS.NamedTemporaryFile. fold q.
  replace (OS.node_at (disk w) OS.tmpdir) with (disk w !! OS.tmpdir) by done.
  by rewrite Htmp, Hfree.
Qed.

Lemma write_temp_file q content old w :
  plain_path q = true → removelast q = OS.tmpdir →
  disk w !! OS.tmpdir = Some FDir →
  disk w !! q = Some (FFile old) →
  OS.write_bytes (os_path (path_str q)) content w
  = (Ok tt, set_disk (<[q := FFile content]> (disk w)) w).
Proof.
  intros Hq Hparent Htmp Hold. unfold OS.write_bytes.
  rewrite os_path_str, resolve_plain, Hparent by done.
  replace (OS.node_at (disk w) OS.tmpdir) with (disk w !! OS.tmpdir) by done.
  rewrite Htmp, node_at_plain, Hold; [done..|].
  by intros ->.
Qed.

(** Where [download_to_temp] puts a blob. *)
Lemma download_to_temp_eval container blob w :
  PyStr.contains "/" container = false →
  net w = [] →
  disk w !! OS.tmpdir = Some FDir →
  let q := OS.tmpdir ++ [OS.tmp_name (tmp_seq w)
                           (path_suffix (path_parts blob))] in
  disk w !! q = None →
  AzureBlobStorage.download_to_temp (AzureBlobStorage.uri container blob) w
  = match cloud w !! (container, blob) with
    | Some content =>
        (Ok (path_str q),
         set_disk (<[q := FFile content]> (disk w))
                  (set_tmp_seq (S (tmp_seq w)) w))
    | None =>
        (Raise ResourceNotFoundError,
         set_disk (<[q := FFile []]> (disk w))
                  (set_tmp_seq (S (tmp_seq w)) w))
    end.
Proof.
  intros Hc Hnet Htmp q Hfree.
  assert (Hq : plain_path q = true).
  { unfold q. simpl. by rewrite tmp_name_plain by apply path_suffix_parts. }
  unfold AzureBlobStorage.download_to_temp, AzureBlobStorage.uri.
  assert (PyStr.startswith
            ("azure://" +:+ container +:+ "/" +:+ blob) "azure://" = true)
    as -> by (apply startswith_app; eauto).
  change (negb true) with false. cbv iota.
  rewrite drop_app_length. unfold PyStr.split1.
  change ("/" +:+ blob) with (String "/" blob).
  rewrite split1_go_first by done. cbn [String.rev_app].
  unfold bind at 1. rewrite NamedTemporaryFile_new by done. fold q.
  unfold bind at 1, AzureBlobStorage.download_blob.
  rewrite remote_call_up by done. simpl cloud.
  destruct (cloud w !! (container, blob)) as [content|]; [|done].
  unfold bind, ret.
  rewrite (write_temp_file q content []); try done.
  - simpl. by rewrite insert_insert_eq.
  - simpl. by rewrite lookup_insert_ne.
  - simpl. by rewrite lookup_insert_eq.
Qed.

(** X15. [download_to_temp] on the reference of a blob, when the network
    does not fail, the container name has no ["/"] and the next temporary
    name is free: a blob that exists is copied to a new temporary file,
    which reads back as the blob, and nothing else on the disk or in the
    account changes; for a blob that does not exist the download raises
    and the temporary file, created before the download and empty, is left
    behind. *)
Theorem azure_download_to_temp_outcomes (container blob : string)
    (w : World) :
  PyStr.contains "/" container = false →
  net w = [] →
  disk w !! OS.tmpdir = Some FDir →
  let q := OS.tmpdir ++ [OS.tmp_name (tmp_seq w)
                           (path_suffix (path_parts blob))] in
  disk w !! q = None →
  match cloud w !! (container, blob) with
  | Some content =>
      ∃ tmp w',
        AzureBlobStorage.download_to_temp
          (AzureBlobStorage.uri container blob) w = (Ok tmp, w') ∧
        OS.read_bytes (os_path tmp) w' = (Ok content, w') ∧
        cloud w' = cloud w ∧
        ∀ p, p ≠ os_path tmp → disk w' !! p = disk w !! p
  | None =>
      ∃ w',
        AzureBlobStorage.download_to_temp
          (AzureBlobStorage.uri container blob) w
        = (Raise ResourceNotFoundError, w') ∧
        disk w' !! q = Some (FFile []) ∧
        cloud w' = cloud w ∧
        ∀ p, p ≠ q → disk w' !! p = disk w !! p
  end.
Proof.
  intros Hc Hnet Htmp q Hfree.
  pose proof (download_to_temp_eval container blob w Hc Hnet Htmp Hfree)
    as Heval. fold q in Heval.
  assert (Hq : plain_path q = true).
  { unfold q. simpl. by rewrite tmp_name_plain by apply path_suffix_parts. }
  destruct (cloud w !! (container, blob)) as [content|].
  - do 2 eexists. split; [done|]. rewrite os_path_str by done.
    split; [|split; [done|]].
    + unfold OS.read_bytes. rewrite node_at_plain by done. simpl.
      by rewrite lookup_insert_eq.
    + intros p Hp. simpl. by rewrite lookup_insert_ne.
  - eexists. split; [done|]. simpl. rewrite lookup_insert_eq.
    split; [done|]. split; [done|]. intros p Hp.
    by rewrite lookup_insert_ne.
Qed.

(** X16. On the blob back end, what [save_image] or [save_model] stored
    comes back: when the network does not fail, the container name has no
    ["/"] and the next temporary name is free, [download_to_temp] on the
    returned reference gives a temporary file that reads back as the
    stored content. *)
Theorem azure_save_then_download (container prefix user filename : string)
    (content : bytes) (w : World) :
  PyStr.contains "/" container = false →
  net w = [] →
  disk w !! OS.tmpdir = Some FDir →
  (∀ sfx, disk w !! (OS.tmpdir ++ [OS.tmp_name (tmp_seq w) sfx]) = None) →
  (∃ ref w1 tmp w2,
     AzureBlobStorage.save_image container prefix user filename content w
     = (Ok ref, w1) ∧
     AzureBlobStorage.download_to_temp ref w1 = (Ok tmp, w2) ∧
     OS.read_bytes (os_path tmp) w2 = (Ok content, w2)) ∧
  (∃ ref w1 tmp w2,
     AzureBlobStorage.save_model container prefix user filename content w
     = (Ok ref, w1) ∧
     AzureBlobStorage.download_to_temp ref w1 = (Ok tmp, w2) ∧
     OS.read_bytes (os_path tmp) w2 = (Ok content, w2)).
Proof.
  intros Hc Hnet Htmp Hfree.
  assert (Hround : ∀ blob,
            ∃ tmp w2,
              AzureBlobStorage.download_to_temp
                (AzureBlobStorage.uri container blob)
                (set_cloud (<[(container, blob) := content]> (cloud w)) w)
              = (Ok tmp, w2) ∧
              OS.read_bytes (os_path tmp) w2 = (Ok content, w2)).
  { intros blob.
    set (w1 := set_cloud (<[(container, blob) := content]> (cloud w)) w).
    pose proof (download_to_temp_eval container blob w1 Hc Hnet Htmp
                  (Hfree _)) as Heval.
    simpl in Heval. rewrite lookup_insert_eq in Heval.
    do 2 eexists. split; [exact Heval|].
    rewrite os_path_str.
    2: { simpl. by rewrite tmp_name_plain by apply path_suffix_parts. }
    unfold OS.read_bytes. rewrite node_at_plain; [|simpl|done].
    2: { by rewrite tmp_name_plain by apply path_suffix_parts. }
    simpl. by rewrite lookup_insert_eq. }
  split.
  - destruct (Hround (AzureBlobStorage._blob_name prefix [user; filename]))
      as (tmp & w2 & Hdown & Hread).
    do 4 eexists. split; [|split; [exact Hdown|exact Hread]].
    unfold AzureBlobStorage.save_image, bind, AzureBlobStorage.upload_blob.
    by rewrite remote_call_up.
  - destruct (Hround (AzureBlobStorage._blob_name prefix
                        [user; "trainer"; filename]))
      as (tmp & w2 & Hdown & Hread).
    do 4 eexists. split; [|split; [exact Hdown|exact Hread]].
    unfold AzureBlobStorage.save_model, bind, AzureBlobStorage.upload_blob.
    by rewrite remote_call_up.
Qed.

Lemma elem_of_blob_names w container b :
  b ∈ AzureBlobStorage.blob_names w container
  ↔ is_Some (cloud w !! (container, b)).
Proof.
  unfold AzureBlobStorage.blob_names. rewrite list_elem_of_omap. split.
  - intros ([[c n] x] & Hin%elem_of_map_to_list & Hk). simpl in Hk.
    case_decide; [|done]. injection Hk as ->. subst. eauto.
  - intros [x Hx]. exists ((container, b), x). split.
    + by apply elem_of_map_to_list.
    + simpl. by rewrite decide_True.
Qed.

Lemma NoDup_blob_names w container :
  NoDup (AzureBlobStorage.blob_names w container).
Proof.
  unfold AzureBlobStorage.blob_names.
  pose proof (NoDup_fst_map_to_list (cloud w)) as Hnd.
  induction (map_to_list (cloud w)) as [|[[c n] x] l IH]; simpl;
    [constructor|].
  apply NoDup_cons in Hnd as [Hk Hnd].
  case_decide as Hc; simpl; [|by apply IH].
  constructor; [|by apply IH].
  rewrite list_elem_of_omap. intros ([[c' n'] x'] & Hin & Hk').
  simpl in Hk'. case_decide; [|done]. injection Hk' as ->. subst.
  apply Hk. apply list_elem_of_fmap. by exists ((container, n), x').
Qed.

Lemma delete_blobs_loop container (blobs : list string) : ∀ w,
  net w = [] → NoDup blobs →
  (∀ b, b ∈ blobs → is_Some (cloud w !! (container, b))) →
  ∃ w',
    for_each blobs tt (λ b _, AzureBlobStorage.delete_blob container b) w
    = (Ok tt, w') ∧
    net w' = [] ∧ disk w' = disk w ∧
    ∀ c b, cloud w' !! (c, b)
           = if bool_decide (c = container ∧ b ∈ blobs) then None
             else cloud w !! (c, b).
Proof.
  induction blobs as [|b0 blobs IH]; intros w Hnet Hnd Hall; cbn [for_each].
  { exists w. split; [done|]. split; [done|]. split; [done|].
    intros c b. rewrite bool_decide_eq_false_2; [done|].
    by intros [_ []%elem_of_nil]. }
  apply NoDup_cons in Hnd as [Hb0 Hnd].
  destruct (Hall b0) as [x Hx]; [by left|].
  unfold bind at 1, AzureBlobStorage.delete_blob at 1.
  rewrite remote_call_up, Hx by done.
  destruct (IH (set_cloud (delete (container, b0) (cloud w)) w))
    as (w' & Hloop & Hnet' & Hdisk' & Hcloud'); [done..| |].
  { intros b Hb. simpl. rewrite lookup_delete_ne; [apply Hall; by right|].
    intros [= ->]. done. }
  exists w'. split; [done|]. split; [done|]. split; [done|].
  intros c b. rewrite Hcloud'. simpl.
  destruct (decide (c = container ∧ b ∈ blobs)) as [Hin|Hout].
  - rewrite !bool_decide_eq_true_2; [done| |done].
    destruct Hin. split; [done|by right].
  - rewrite (bool_decide_eq_false_2 _ Hout).
    destruct (decide ((c, b) = (container, b0))) as [[= -> ->]|Hne].
    + rewrite lookup_delete_eq, bool_decide_eq_true_2; [done|].
      split; [done|by left].
    + rewrite lookup_delete_ne by done.
      rewrite bool_decide_eq_false_2; [done|].
      intros [-> [->|Hb]%elem_of_cons]; [done|]. by apply Hout.
Qed.

(** X17. [delete_user] on the blob back end, when the network does not
    fail: it returns whether the account held a blob below the user's
    prefix, removes exactly the blobs of the container below that prefix,
    images and models alike, leaves the disk as it is, and a second
    deletion returns [False]. *)
Theorem azure_delete_user_outcomes (container prefix user : string)
    (w : World) :
  net w = [] →
  let below := λ b,
    PyStr.startswith b (AzureBlobStorage._blob_name prefix [user] +:+ "/") in
  ∃ ok w',
    AzureBlobStorage.delete_user container prefix user w = (Ok ok, w') ∧
    (ok = true ↔
     ∃ b, below b = true ∧ is_Some (cloud w !! (container, b))) ∧
    (∀ c b, cloud w' !! (c, b)
            = if bool_decide (c = container ∧ below b = true) then None
              else cloud w !! (c, b)) ∧
    disk w' = disk w ∧
    AzureBlobStorage.delete_user container prefix user w' = (Ok false, w').
Proof.
  intros Hnet below.
  set (listed := λ w0 : World,
         sorted (filter (λ n, below n)
                        (AzureBlobStorage.blob_names w0 container))).
  assert (Hlisted : ∀ w0 b,
            b ∈ listed w0
            ↔ below b = true ∧ is_Some (cloud w0 !! (container, b))).
  { intros w0 b. unfold listed, sorted.
    rewrite merge_sort_Permutation, list_elem_of_filter, elem_of_blob_names.
    by rewrite Is_true_true. }
  assert (Heval : ∀ w0, net w0 = [] →
            AzureBlobStorage.delete_user container prefix user w0
            = match listed w0 with
              | [] => (Ok false, w0)
              | blobs =>
                  (let* _ := for_each blobs tt
                               (λ b _, AzureBlobStorage.delete_blob
                                         container b) in
                   ret true) w0
              end).
  { intros w0 Hnet0.
    unfold AzureBlobStorage.delete_user, bind at 1,
      AzureBlobStorage.list_blobs.
    rewrite remote_call_up by done.
    change (sorted (filter _ (AzureBlobStorage.blob_names w0 container)))
      with (listed w0).
    by destruct (listed w0). }
  assert (Hnone : ∀ w0, net w0 = [] → (∀ b, b ∉ listed w0) →
            AzureBlobStorage.delete_user container prefix user w0
            = (Ok false, w0)).
  { intros w0 Hnet0 Hempty. rewrite Heval by done.
    destruct (listed w0) as [|b l]; [done|]. destruct (Hempty b). by left. }
  destruct (listed w) as [|b0 blobs] eqn:Hl.
  - exists false, w. rewrite Heval, Hl by done. split; [done|].
    assert (Hno : ∀ b, ¬ (below b = true
                          ∧ is_Some (cloud w !! (container, b)))).
    { intros b Hb%Hlisted. rewrite Hl in Hb. by apply elem_of_nil in Hb. }
    split; [|split; [|split; [done|]]].
    + split; [done|]. intros (b & Hb). by destruct (Hno b).
    + intros c b. case_bool_decide as Hcb; [|done].
      destruct Hcb as [-> Hb].
      destruct (cloud w !! (container, b)) eqn:Hx; [|done].
      destruct (Hno b). eauto.
    + done.
  - destruct (delete_blobs_loop container (b0 :: blobs) w Hnet)
      as (w' & Hloop & Hnet' & Hdisk' & Hcloud').
    { rewrite <- Hl. unfold listed, sorted.
      rewrite merge_sort_Permutation. apply NoDup_filter, NoDup_blob_names. }
    { intros b Hb. rewrite <- Hl in Hb. by apply Hlisted in Hb as [_ ?]. }
    assert (Hcloud : ∀ c b,
              cloud w' !! (c, b)
              = if bool_decide (c = container ∧ below b = true) then None
                else cloud w !! (c, b)).
    { intros c b. rewrite Hcloud', <- Hl.
      case_bool_decide as H1; case_bool_decide as H2; try done.
      - destruct H1 as [-> Hb%Hlisted]. destruct H2. by destruct Hb.
      - destruct H2 as [-> Hb].
        destruct (cloud w !! (container, b)) eqn:Hx; [|done].
        destruct H1. split; [done|]. apply Hlisted. eauto. }
    exists true, w'. split.
    { rewrite Heval, Hl by done. unfold bind. by rewrite Hloop. }
    split; [|split; [done|split; [done|]]].
    + split; [|done]. intros _. exists b0. apply Hlisted. rewrite Hl. by left.
    + apply Hnone; [done|]. intros b [Hb [x Hx]]%Hlisted.
      rewrite Hcloud, bool_decide_eq_true_2 in Hx; done.
Qed.

Lemma rev_app_rev_app s : ∀ t u,
  String.rev_app (String.rev_app s t) u = String.rev_app t (s +:+ u).
Proof.
  induction s as [|c s IH]; intros t u; simpl; [done|].
  by rewrite IH.
Qed.

Lemma rev_involutive s : String.rev (String.rev s) = s.
Proof.
  unfold String.rev. rewrite rev_app_rev_app. simpl.
  apply string_app_nil_r.
Qed.

Lemma rev_app_distr a : ∀ b t,
  String.rev_app (a +:+ b) t = String.rev_app b (String.rev_app a t).
Proof.
  induction a as [|c a IH]; intros b t; [done|].
  rewrite string_app_cons. simpl. apply IH.
Qed.

Lemma lstrip_id ch s : PyStr.contains ch s = false → PyStr.lstrip ch s = s.
Proof.
  destruct s as [|c s]; [done|]. simpl.
  intros [Hc _]%orb_false_elim. apply bool_decide_eq_false_1 in Hc.
  by rewrite decide_False.
Qed.

Lemma strip_id ch s : PyStr.contains ch s = false → PyStr.strip ch s = s.
Proof.
  intros Hs. unfold PyStr.strip. rewrite (lstrip_id ch s Hs).
  rewrite lstrip_id.
  - apply rev_involutive.
  - unfold String.rev. by rewrite contains_rev_app, Hs.
Qed.

Lemma endswith_app x f suf :
  PyStr.endswith f suf = true → PyStr.endswith (x +:+ f) suf = true.
Proof.
  unfold PyStr.endswith, String.rev.
  intros [rest Hrest]%startswith_app. apply startswith_app.
  exists (rest +:+ String.rev_app x "").
  by rewrite rev_app_distr, rev_app_app, Hrest, string_app_assoc.
Qed.

Lemma split_go_app_eq sep a : ∀ cur b,
  PyStr.split_go sep cur (a +:+ String sep b)
  = PyStr.split_go sep cur a ++ PyStr.split_go sep "" b.
Proof.
  induction a as [|c a IH]; intros cur b.
  - simpl. by rewrite decide_True.
  - rewrite string_app_cons. cbn [PyStr.split_go].
    destruct (decide (c = sep)) as [->|Hc]; [|apply IH].
    by rewrite IH.
Qed.

(** The blob name of a model, and the user that [list_models] reads off
    it. *)
Lemma model_blob_user prefix user filename :
  PyStr.contains "/" user = false → user ≠ "" →
  PyStr.contains "/" filename = false → filename ≠ "" →
  let blob := AzureBlobStorage._blob_name prefix
                [user; "trainer"; filename] in
  AzureBlobStorage.model_user blob = user ∧
  (∃ lead, blob = lead +:+ filename) ∧
  PyStr.startswith blob (AzureBlobStorage.list_prefix prefix) = true.
Proof.
  intros Hu Hune Hf Hfne blob.
  assert (Hparts : PyStr.split "/"
                     (user +:+ String "/" ("trainer" +:+ String "/" filename))
                   = [user; "trainer"; filename]).
  { unfold PyStr.split. rewrite split_go_first by done.
    rewrite split_go_first by done. by rewrite split_go_no_sep. }
  assert (Hblob : blob
                  = if decide (prefix ≠ "")
                    then prefix +:+ String "/"
                           (user +:+ String "/"
                              ("trainer" +:+ String "/" filename))
                    else user +:+ String "/"
                           ("trainer" +:+ String "/" filename)).
  { unfold blob, AzureBlobStorage._blob_name.
    rewrite !filter_cons_True, filter_nil by done.
    cbn [fmap list_fmap]. rewrite !strip_id by done.
    by destruct (decide (prefix ≠ "")). }
  unfold AzureBlobStorage.model_user, AzureBlobStorage.list_prefix.
  rewrite Hblob. destruct (decide (prefix ≠ "")) as [Hp|Hp].
  - split; [|split].
    + unfold PyStr.split. rewrite split_go_app_eq.
      fold (PyStr.split "/"
              (user +:+ String "/" ("trainer" +:+ String "/" filename))).
      by rewrite Hparts, reverse_app.
    + exists (prefix +:+ String "/"
                (user +:+ String "/" ("trainer" +:+ "/"))).
      by repeat (rewrite string_app_assoc || rewrite string_app_cons).
    + apply startswith_app.
      exists (user +:+ String "/" ("trainer" +:+ String "/" filename)).
      by rewrite string_app_assoc.
  - split; [|split].
    + by rewrite Hparts.
    + exists (user +:+ String "/" ("trainer" +:+ "/")).
      by repeat (rewrite string_app_assoc || rewrite string_app_cons).
    + apply startswith_app. eauto.
Qed.

(** X20. On the blob back end, a model stored for a user is listed for
    that user: when the network does not fail, the user and the file name
    have no ["/"] and the file name ends in [.yml], [list_models] after
    [save_model] has the returned reference, under the name of the user
    that it reads off the blob name. *)
Theorem azure_save_model_listed (container prefix user filename : string)
    (content : bytes) (w : World) :
  net w = [] →
  PyStr.contains "/" user = false → user ≠ "" →
  PyStr.contains "/" filename = false →
  PyStr.endswith filename ".yml" = true →
  ∃ ref w1 models,
    AzureBlobStorage.save_model container prefix user filename content w
    = (Ok ref, w1) ∧
    AzureBlobStorage.list_models container prefix w1 = (Ok models, w1) ∧
    (user, ref) ∈ models.
Proof.
  intros Hnet Hu Hune Hf Hyml.
  assert (Hfne : filename ≠ "") by (by intros ->).
  destruct (model_blob_user prefix user filename Hu Hune Hf Hfne)
    as (Huser & [lead Hlead] & Hpre).
  set (blob := AzureBlobStorage._blob_name prefix
                 [user; "trainer"; filename]) in *.
  set (w1 := set_cloud (<[(container, blob) := content]> (cloud w)) w).
  exists (AzureBlobStorage.uri container blob), w1. eexists.
  split; [|split].
  - unfold AzureBlobStorage.save_model, bind, AzureBlobStorage.upload_blob.
    by rewrite remote_call_up.
  - unfold AzureBlobStorage.list_models, bind, AzureBlobStorage.list_blobs.
    by rewrite remote_call_up.
  - apply list_elem_of_fmap. exists blob. split; [by rewrite Huser|].
    apply list_elem_of_filter. split.
    { apply Is_true_true. rewrite Hlead. by apply endswith_app. }
    unfold sorted. rewrite merge_sort_Permutation.
    apply list_elem_of_filter. split; [by apply Is_true_true|].
    apply elem_of_blob_names. simpl. by rewrite lookup_insert_eq.
Qed.

End azure_extras.

(** * The temporary file of a trained model *)

Section training_extras.
Context `{Vision} `{Settings}.
Import Storage face_service.

(** X18. How a turn of the user loop of [train_all] stores the trained
    classifier.  When the user's images are listed, the image loop has
    collected at least one sample, the temporary directory exists and the
    next temporary name is free, the turn goes on as follows: the
    temporary file that the classifier is saved to is read back and
    removed before the model is stored, so the disk is as the image loop
    left it; [storage.save_model] is called with exactly the serialisation
    of the classifier trained on the collected samples, under a name made
    of the user and the random identifier; and the reference it returns is
    recorded for the user, with the next label. *)
Theorem train_user_stores_serialisation (user : string)
    (results : gmap string string) (label_id : nat) (s s1 s2 : State)
    (images : list string) (faces : list image) (labels : list nat) :
  storage_call (IoListUserImages user)
    (Storage.list_user_images storage user) s = (Ok images, s1) →
  images ≠ [] →
  for_each images ([], []) (read_face label_id) s1
  = (Ok (faces, labels), s2) →
  faces ≠ [] →
  disk (world s2) !! OS.tmpdir = Some FDir →
  let q := OS.tmpdir ++ [OS.tmp_name (tmp_seq (world s2)) ".yml"] in
  disk (world s2) !! q = None →
  train_user user (results, label_id) s
  = (let* model_id := in_world OS.random_id in
     let model_filename := user +:+ "_trainer_" +:+ model_id +:+ ".yml" in
     let* path :=
       storage_call (IoSaveModel user model_filename)
         (Storage.save_model storage user model_filename
            (LBPH_save (LBPH_train faces labels))) in
     ret (<[user := path]> results, label_id + 1))
      (set_world (set_tmp_seq (S (tmp_seq (world s2))) (world s2)) s2).
Proof.
  intros Hlist Himages Hloop Hfaces Htmp q Hfree.
  assert (Hq : plain_path q = true).
  { unfold q. simpl. by rewrite tmp_name_plain. }
  unfold train_user. rewrite (bind_ok _ _ _ _ _ Hlist).
  destruct images as [|img_ref images]; [done|].
  rewrite (bind_ok _ _ _ _ _ Hloop).
  destruct faces as [|face faces]; [done|].
  set (r := LBPH_train (face :: faces) labels).
  unfold bind at 1, in_world at 1.
  rewrite NamedTemporaryFile_new by done. fold q.
  unfold bind at 1, in_world at 1, recognizer_save.
  rewrite (write_temp_file q (LBPH_save r) []); try done.
  2: { simpl. by rewrite lookup_insert_ne. }
  2: { simpl. by rewrite lookup_insert_eq. }
  unfold bind at 1, in_world at 1, OS.read_bytes.
  rewrite os_path_str, node_at_plain by done.
  simpl disk. rewrite lookup_insert_eq.
  unfold bind at 1, in_world at 1, OS.remove.
  rewrite os_path_str, resolve_plain, node_at_plain by done.
  simpl disk. rewrite lookup_insert_eq.
  rewrite delete_insert_eq, delete_insert_eq, delete_id by done.
  done.
Qed.

End training_extras.

(** * The further properties on concrete stores *)

Section further_scenarios.
Import Storage face_service.
#[local] Existing Instance toy.vision.

(** A probe that the cached classifier of alice accepts under the default
    threshold is accepted, with the same record, under no threshold at
    all. *)
Lemma recognize_threshold_monotone_witness :
  let run := @recognize_image_bytes toy.vision toy.on_disk
               (toy.photo Byte.x0a) toy.loaded_state in
  let out := match run.1 with
             | Ok o => o
             | Raise _ => mkOutcome false None None None None
             end in
  @recognize_image_bytes toy.vision
    {| storage := LocalStorage.backend toy.base;
       CONFIDENCE_THRESHOLD := FInf |}
    (toy.photo Byte.x0a) toy.loaded_state = (Ok out, run.2).
Proof.
  intros run out.
  apply (recognize_threshold_monotone (LocalStorage.backend toy.base)
           default_threshold FInf (toy.photo Byte.x0a) toy.loaded_state
           run.2 out).
  - left. reflexivity.
  - vm_compute. reflexivity.
  - vm_compute. reflexivity.
Defined.

(** Training on the data set of alice and bob: alice is listed and has an
    entry in the result. *)
Lemma train_all_result_keys_witness :
  let s := initial_state toy.photos_world in
  let results : gmap string string :=
    match (@train_all toy.vision toy.on_disk s).1 with
    | Ok r => r
    | Raise _ => ∅
    end in
  let users := match (@list_users toy.vision toy.on_disk s).1 with
               | Ok l => l
               | Raise _ => []
               end in
  is_Some (results !! "alice") ↔ "alice" ∈ users.
Proof.
  intros s results users.
  apply (@train_all_result_keys toy.vision toy.on_disk s
           (@list_users toy.vision toy.on_disk s).2
           (@train_all toy.vision toy.on_disk s).2 users results).
  - vm_compute. reflexivity.
  - vm_compute. reflexivity.
Defined.

(** A first image saved for alice on the empty data set. *)
Lemma local_save_image_round_trip_witness :
  let run := LocalStorage.save_image toy.base "alice" "img1.jpg"
               (toy.photo Byte.x0a) toy.empty_world in
  let ref := "/srv/dataset/alice/img1.jpg" in
  ref = path_str (toy.base ++ ["alice"; "img1.jpg"]) ∧
  LocalStorage.download_to_temp ref run.2 = (Ok ref, run.2) ∧
  OS.read_bytes (os_path ref) run.2 = (Ok (toy.photo Byte.x0a), run.2) ∧
  (∃ users, LocalStorage.list_users toy.base run.2 = (Ok users, run.2) ∧
            "alice" ∈ users) ∧
  (is_image_name "img1.jpg" = true →
   ∃ images,
     LocalStorage.list_user_images toy.base "alice" run.2
     = (Ok images, run.2) ∧
     ref ∈ images).
Proof.
  intros run ref.
  apply (local_save_image_round_trip toy.base eq_refl "alice" "img1.jpg"
           (toy.photo Byte.x0a) toy.empty_world run.2 ref eq_refl eq_refl).
  vm_compute. reflexivity.
Defined.

(** The users of the data set of alice and bob. *)
Lemma local_list_users_spec_witness :
  let users := match (LocalStorage.list_users toy.base toy.photos_world).1 with
               | Ok l => l
               | Raise _ => []
               end in
  NoDup users ∧
  ("alice" ∈ users
   ↔ disk toy.photos_world !! (toy.base ++ ["alice"]) = Some FDir).
Proof.
  intros users.
  destruct (local_list_users_spec toy.base eq_refl toy.photos_world
              toy.photos_world users
              ltac:(vm_compute; reflexivity) ltac:(vm_compute; reflexivity))
    as (_ & Hnd & Hin).
  split; [exact Hnd|exact (Hin "alice")].
Defined.

(** Deleting alice from the data set of alice and bob. *)
Lemma local_delete_user_outcomes_witness :
  match disk toy.photos_world !! (toy.base ++ ["alice"]) with
  | None =>
      LocalStorage.delete_user toy.base "alice" toy.photos_world
      = (Ok false, toy.photos_world)
  | Some (FFile _) =>
      LocalStorage.delete_user toy.base "alice" toy.photos_world
      = (Raise NotADirectoryError, toy.photos_world)
  | Some FDir =>
      ∃ w', LocalStorage.delete_user toy.base "alice" toy.photos_world
            = (Ok true, w') ∧
            (∀ p, (toy.base ++ ["alice"]) `prefix_of` p →
                  disk w' !! p = None) ∧
            LocalStorage.list_user_images toy.base "alice" w' = (Ok [], w') ∧
            LocalStorage.delete_user toy.base "alice" w' = (Ok false, w') ∧
            ∀ users w'', LocalStorage.list_users toy.base w'
                         = (Ok users, w'') →
                         "alice" ∉ users
  end.
Proof.
  apply (local_delete_user_outcomes toy.base eq_refl "alice"
           toy.photos_world eq_refl).
Defined.

(** The models of the data set where bob has a model that loads. *)
Lemma local_list_models_spec_witness :
  (∀ models w',
     LocalStorage.list_models toy.base toy.models_world = (Ok models, w') →
     w' = toy.models_world ∧
     ∀ u ref, (u, ref) ∈ models ↔
       ∃ f, model_at toy.base (disk toy.models_world) u f ∧
            ref = path_str (toy.base ++ [u; "trainer"; f])) ∧
  (∀ u c, OS.node_at (disk toy.models_world) toy.base = Some FDir →
          disk toy.models_world !! (toy.base ++ [u; "trainer"])
          = Some (FFile c) →
          is_Some (disk toy.models_world !! (toy.base ++ [u])) →
          LocalStorage.list_models toy.base toy.models_world
          = (Raise NotADirectoryError, toy.models_world)).
Proof.
  apply (local_list_models_spec toy.base eq_refl toy.models_world).
  vm_compute. reflexivity.
Defined.

(** The image loop over the two files of alice. *)
Lemma local_training_consumes_images_witness :
  let s := initial_state toy.photos_world in
  let images := ["/srv/dataset/alice/img1.jpg";
                 "/srv/dataset/alice/img2.jpg"] in
  ∃ acc' s',
    for_each images ([], []) (@read_face toy.vision toy.on_disk 0) s
    = (Ok acc', s') ∧
    (∀ ref, ref ∈ images →
            file_at (disk (world s')) (os_path ref) = None) ∧
    (∀ p x, disk (world s') !! p = Some x → disk (world s) !! p = Some x) ∧
    (∀ p, path_str p ∉ images →
          disk (world s') !! p = disk (world s) !! p).
Proof.
  intros s images.
  apply (local_training_consumes_images toy.base default_threshold eq_refl
           "alice" 0 s images toy.photos_world eq_refl).
  - vm_compute. reflexivity.
  - vm_compute. reflexivity.
Defined.

(** Two rebuilds over the data set where bob has a model that loads. *)
Lemma local_rebuild_consumes_models_witness :
  let s := initial_state toy.models_world in
  let s1 := (@load_models_into_cache toy.vision toy.on_disk true s).2 in
  let s2 := (@force_reload_cache toy.vision toy.on_disk s1).2 in
  _cached_recognizers s2 = [] ∧ _cached_label_dict s2 = ∅ ∧
  _cache_loaded s2 = true ∧ disk (world s2) = disk (world s1).
Proof.
  intros s s1 s2.
  apply (local_rebuild_consumes_models toy.base default_threshold eq_refl
           true s s1 s2).
  - vm_compute. reflexivity.
  - right. reflexivity.
  - vm_compute. reflexivity.
  - vm_compute. reflexivity.
Defined.

(** Copying the model blob of alice to a temporary file. *)
Lemma azure_download_to_temp_outcomes_witness :
  let blob := "alice/trainer/alice_trainer_bad.yml" in
  let w := toy.bad_blob_world in
  ∃ tmp w',
    AzureBlobStorage.download_to_temp (AzureBlobStorage.uri "faces" blob) w
    = (Ok tmp, w') ∧
    OS.read_bytes (os_path tmp) w' = (Ok toy.garbage, w') ∧
    cloud w' = cloud w ∧
    ∀ p, p ≠ os_path tmp → disk w' !! p = disk w !! p.
Proof.
  intros blob w.
  apply (azure_download_to_temp_outcomes "faces" blob w eq_refl eq_refl
           ltac:(vm_compute; reflexivity) ltac:(vm_compute; reflexivity)).
Defined.

Lemma empty_disk_tmp_free n sfx :
  toy.empty_disk !! (OS.tmpdir ++ [OS.tmp_name n sfx]) = None.
Proof.
  unfold toy.empty_disk. simpl. rewrite !lookup_insert_ne by done.
  apply lookup_empty.
Qed.

(** An image and a model stored for alice in the empty account. *)
Lemma azure_save_then_download_witness :
  let w := toy.empty_world in
  (∃ ref w1 tmp w2,
     AzureBlobStorage.save_image "faces" "" "alice" "img1.jpg"
       (toy.photo Byte.x0a) w = (Ok ref, w1) ∧
     AzureBlobStorage.download_to_temp ref w1 = (Ok tmp, w2) ∧
     OS.read_bytes (os_path tmp) w2 = (Ok (toy.photo Byte.x0a), w2)) ∧
  (∃ ref w1 tmp w2,
     AzureBlobStorage.save_model "faces" "" "alice" "img1.jpg"
       (toy.photo Byte.x0a) w = (Ok ref, w1) ∧
     AzureBlobStorage.download_to_temp ref w1 = (Ok tmp, w2) ∧
     OS.read_bytes (os_path tmp) w2 = (Ok (toy.photo Byte.x0a), w2)).
Proof.
  intros w.
  apply (azure_save_then_download "faces" "" "alice" "img1.jpg"
           (toy.photo Byte.x0a) w eq_refl eq_refl
           ltac:(vm_compute; reflexivity) (empty_disk_tmp_free 0)).
Defined.

(** Deleting alice from the account that holds her model. *)
Lemma azure_delete_user_outcomes_witness :
  let w := toy.bad_blob_world in
  let below := λ b,
    PyStr.startswith b (AzureBlobStorage._blob_name "" ["alice"] +:+ "/") in
  ∃ ok w',
    AzureBlobStorage.delete_user "faces" "" "alice" w = (Ok ok, w') ∧
    (ok = true ↔ ∃ b, below b = true ∧ is_Some (cloud w !! ("faces", b))) ∧
    (∀ c b, cloud w' !! (c, b)
            = if bool_decide (c = "faces" ∧ below b = true) then None
              else cloud w !! (c, b)) ∧
    disk w' = disk w ∧
    AzureBlobStorage.delete_user "faces" "" "alice" w' = (Ok false, w').
Proof.
  intros w below.
  apply (azure_delete_user_outcomes "faces" "" "alice" w eq_refl).
Defined.

(** The turn of alice on the data set of alice and bob, where the image
    loop collects her one photo that decodes. *)
Lemma train_user_stores_serialisation_witness :
  let s := initial_state toy.photos_world in
  let listed := storage_call (IoListUserImages "alice")
                  (Storage.list_user_images (@storage toy.on_disk) "alice")
                  s in
  let images := ["/srv/dataset/alice/img1.jpg";
                 "/srv/dataset/alice/img2.jpg"] in
  let looped := for_each images ([], [])
                  (@read_face toy.vision toy.on_disk 0) listed.2 in
  let faces := [toy.photo Byte.x0a] in
  let s2 := looped.2 in
  @train_user toy.vision toy.on_disk "alice" (∅, 0) s
  = (let* model_id := in_world OS.random_id in
     let model_filename := "alice" +:+ "_trainer_" +:+ model_id +:+ ".yml" in
     let* path :=
       storage_call (IoSaveModel "alice" model_filename)
         (Storage.save_model (@storage toy.on_disk) "alice" model_filename
            (@LBPH_save toy.vision (@LBPH_train toy.vision faces [0]))) in
     ret (<["alice" := path]> ∅, 0 + 1))
      (set_world (set_tmp_seq (S (tmp_seq (world s2))) (world s2)) s2).
Proof.
  intros s listed images looped faces s2.
  apply (@train_user_stores_serialisation toy.vision toy.on_disk "alice"
           ∅ 0 s listed.2 s2 images faces [0]
           ltac:(vm_compute; reflexivity) ltac:(discriminate)
           ltac:(vm_compute; reflexivity) ltac:(discriminate)
           ltac:(vm_compute; reflexivity) ltac:(vm_compute; reflexivity)).
Defined.

(** A first model saved for alice on the empty data set. *)
Lemma local_save_model_round_trip_witness :
  let run := LocalStorage.save_model toy.base "alice" "m.yml"
               toy.garbage toy.empty_world in
  let ref := "/srv/dataset/alice/trainer/m.yml" in
  ref = path_str (toy.base ++ ["alice"; "trainer"; "m.yml"]) ∧
  OS.read_bytes (os_path ref) run.2 = (Ok toy.garbage, run.2) ∧
  (PyStr.lower (name_suffix "m.yml") = ".yml" →
   ∀ models w'', LocalStorage.list_models toy.base run.2 = (Ok models, w'') →
                 ("alice", ref) ∈ models).
Proof.
  intros run ref.
  apply (local_save_model_round_trip toy.base eq_refl "alice" "m.yml"
           toy.garbage toy.empty_world run.2 ref eq_refl eq_refl).
  - vm_compute. reflexivity.
  - vm_compute. reflexivity.
Defined.

(** A first model stored for alice in the empty account. *)
Lemma azure_save_model_listed_witness :
  ∃ ref w1 models,
    AzureBlobStorage.save_model "faces" "" "alice" "m.yml" toy.garbage
      toy.empty_world = (Ok ref, w1) ∧
    AzureBlobStorage.list_models "faces" "" w1 = (Ok models, w1) ∧
    ("alice", ref) ∈ models.
Proof.
  apply (azure_save_model_listed "faces" "" "alice" "m.yml" toy.garbage
           toy.empty_world eq_refl eq_refl
           ltac:(discriminate) eq_refl eq_refl).
Defined.

End further_scenarios.
